(** * LLFA (Local Lead Finder Agent): identity normalisation, entity
      resolution, scoring and the mission loop

    A shallow embedding of the TypeScript sources

      - [server/utils/normalize.ts]  (normalizeDomain, normalizePhone,
        normalizeName, levenshteinDistance, nameSimilarity, isFuzzyMatch)
      - [server/agent/tools.ts]      (searchPlaces, auditSite, scoreLead)
      - [server/storage.ts]          (findExistingLead, upsertLead,
        getLeadById, updateLeadStatus, getLeadsByPlaceIds,
        getLeadsByDomainsOrPhones, upsertLeadMetrics, getLeadMetrics,
        upsertScore, getScore, getLeadsByFilters)
      - [server/agent/loop.ts]       (Agent.executeMission, Agent.saveLead)

    JavaScript strings are modelled by [string]: sequences of 8-bit code
    units, i.e. the strings whose UTF-16 code units are all below 256.
    Case mapping, white space and the regular-expression classes are the
    ECMAScript ones restricted to that range.  JavaScript numbers that hold
    small integers (scores, counters, lengths) are modelled by [Z] or [nat];
    the two places where the code divides ([Math.round] of the mean and the
    name similarity) are computed on IEEE-754 binary64 floats, as the
    engine does. *)

From Stdlib Require Import ZArith NArith Bool List Lia String Ascii.
From Stdlib Require Import Floats.PrimFloat Floats.FloatOps Floats.SpecFloat.
From Stdlib Require Import Numbers.Cyclic.Int63.Uint63.
From Stdlib Require Import Numbers.DecimalString.
Import ListNotations.

Open Scope bool_scope.
Open Scope string_scope.

(* The literal 0.85 of the source is not a binary64 value; like the
   engine, the nearest one is used. *)
Set Warnings "-inexact-float".

(* ===================================================================== *)
(** ** JavaScript built-ins used by the sources *)
(* ===================================================================== *)

Module JS.

Definition code (c : ascii) : N := N_of_ascii c.

Definition between (lo hi : N) (c : ascii) : bool :=
  (lo <=? code c)%N && (code c <=? hi)%N.

Definition isDigit (c : ascii) : bool := between 48 57 c.
Definition isUpper (c : ascii) : bool := between 65 90 c.
Definition isLower (c : ascii) : bool := between 97 122 c.
Definition isAlpha (c : ascii) : bool := isUpper c || isLower c.
Definition isAlnum (c : ascii) : bool := isAlpha c || isDigit c.

(** [\w] is [[A-Za-z0-9_]]. *)
Definition isWord (c : ascii) : bool := isAlnum c || (code c =? 95)%N.

(** [\s], and the characters [String.prototype.trim] removes: TAB, LF, VT,
    FF, CR, SPACE and NO-BREAK SPACE are the ones below 256. *)
Definition isSpace (c : ascii) : bool :=
  between 9 13 c || (code c =? 32)%N || (code c =? 160)%N.

(** [toLowerCase] on one code unit: A-Z, and the Latin-1 capitals
    U+00C0..U+00DE except the multiplication sign U+00D7. *)
Definition lowerChar (c : ascii) : ascii :=
  if isUpper c || (between 192 222 c && negb (code c =? 215)%N)
  then ascii_of_N (code c + 32)
  else c.

Fixpoint toLowerCase (s : string) : string :=
  match s with
  | EmptyString => EmptyString
  | String c t => String (lowerChar c) (toLowerCase t)
  end.

Fixpoint trimStart (s : string) : string :=
  match s with
  | EmptyString => EmptyString
  | String c t => if isSpace c then trimStart t else s
  end.

Fixpoint trimEnd (s : string) : string :=
  match s with
  | EmptyString => EmptyString
  | String c t =>
      match trimEnd t with
      | EmptyString => if isSpace c then EmptyString else String c EmptyString
      | t' => String c t'
      end
  end.

Definition trim (s : string) : string := trimEnd (trimStart s).

(** [s.startsWith(p)] *)
Definition startsWith (s p : string) : bool := String.prefix p s.

(** [s.includes(p)] *)
Fixpoint includes (s p : string) : bool :=
  if String.prefix p s then true
  else match s with
       | EmptyString => false
       | String _ t => includes t p
       end.

(** [s.substring(n)] for [0 <= n] *)
Fixpoint substringFrom (n : nat) (s : string) : string :=
  match n, s with
  | O, _ => s
  | S _, EmptyString => EmptyString
  | S k, String _ t => substringFrom k t
  end.

(** [s.substring(0, n)] *)
Fixpoint substringTo (n : nat) (s : string) : string :=
  match n, s with
  | O, _ => EmptyString
  | S _, EmptyString => EmptyString
  | S k, String c t => String c (substringTo k t)
  end.

(** Keep the code units satisfying [keep]: [s.replace(/[^...]/g, "")]. *)
Fixpoint filterChars (keep : ascii -> bool) (s : string) : string :=
  match s with
  | EmptyString => EmptyString
  | String c t => if keep c then String c (filterChars keep t) else filterChars keep t
  end.

Fixpoint allChars (p : ascii -> bool) (s : string) : bool :=
  match s with
  | EmptyString => true
  | String c t => p c && allChars p t
  end.

(** Truthiness of a value of type [string | null | undefined]: [None]
    stands for both [null] and [undefined]; the empty string is falsy. *)
Definition truthy (o : option string) : bool :=
  match o with
  | Some (String _ _) => true
  | _ => false
  end.

(** [o === text] for [o] of type [string | undefined]. *)
Definition sameText (o : option string) (text : string) : bool :=
  match o with
  | Some x => x =? text
  | None => false
  end.

(** [a ?? b] *)
Definition nullish {A : Type} (a : option A) (b : option A) : option A :=
  match a with
  | Some _ => a
  | None => b
  end.

(** [a || undefined] on [string | null | undefined]. *)
Definition orUndefined (a : option string) : option string :=
  if truthy a then a else None.

(** The Number value of a small non-negative integer. *)
Definition Number (z : Z) : float :=
  if (z <? 0)%Z then PrimFloat.opp (PrimFloat.of_uint63 (Uint63.of_Z (- z)))
  else PrimFloat.of_uint63 (Uint63.of_Z z).

(** [Math.round]: the integer closest to [x], ties towards +infinity, i.e.
    the floor of [x + 1/2] in exact arithmetic.  A finite binary64 value is
    [(-1)^s * m * 2^e]; NaN and the infinities are not integers and never
    arise from the callers below ([0] stands for them). *)
Definition Math_round (x : float) : Z :=
  match Prim2SF x with
  | S754_finite s m e =>
      let v := if s then Z.neg m else Z.pos m in
      if (0 <=? e)%Z then (v * 2 ^ e)%Z
      else ((2 * v + 2 ^ (- e)) / 2 ^ (1 - e))%Z
  | _ => 0%Z
  end.

End JS.

(* ===================================================================== *)
(** ** server/agent/tools.ts *)
(* ===================================================================== *)

Module Tools.
Import JS.

(** [rating], [latitude] and [longitude] are fractional numbers that the
    code only converts to text ([toString()]); they are kept as that text. *)
Record PlaceResult := mkPlaceResult {
  placeId : string;
  name : string;
  address : string;
  phone : option string;
  website : option string;
  rating : option string;
  reviewCount : option Z;
  category : string;
  latitude : option string;
  longitude : option string
}.

Record AuditResult := mkAuditResult {
  httpsOk : bool;
  mobileOk : bool;
  hasBooking : bool;
  schemaOk : bool;
  cmsHint : option string;
  lcpMs : option Z;
  cls : option Z;
  analyticsPixels : option (list string)
}.

Record ScoreResult := mkScoreResult {
  need : Z;
  value : Z;
  reachability : Z;
  total : Z;
  reasons : list string
}.

(** The [contactInfo] argument of [scoreLead]. *)
Record ContactInfo := mkContactInfo {
  contactPhone : option string;
  contactEmail : option string;
  contactWebsite : option string
}.

(** A call either returns or throws [new Error(msg)]. *)
Inductive result (A : Type) : Type :=
| Returns (a : A)
| Throws (msg : string).
Arguments Returns {A} a.
Arguments Throws {A} msg.

Definition invalidKeyMessage : string :=
  "Invalid or missing Google Places API key. Please configure it in Settings.".

(** [searchPlaces]: the credential guard, then the HTTP request.  The
    request and the treatment of its response are the parameter
    [fetchPlaces] (query, location, key). *)
Definition searchPlaces
    (fetchPlaces : string -> string -> string -> result (list PlaceResult))
    (query location apiKey : string) : result (list PlaceResult) :=
  if negb (truthy (Some apiKey)) || (String.length apiKey <? 10)%nat
  then Throws invalidKeyMessage
  else fetchPlaces query location apiKey.

(** What the [catch] block of [auditSite] returns; [errorType] is
    ["timeout"] or ["error"]. *)
Definition auditSiteFailure (errorType : string) : AuditResult :=
  {| httpsOk := false; mobileOk := false; hasBooking := false; schemaOk := false;
     cmsHint := Some errorType; lcpMs := None; cls := None;
     analyticsPixels := None |}.

Definition highValueCategories : list string :=
  ["dentist"; "doctor"; "lawyer"; "chiropractor"; "medical"; "health"].

Definition validCmsHints : list string :=
  ["wordpress"; "wix"; "squarespace"; "webflow"; "shopify"].

Definition noAnalytics (a : AuditResult) : bool :=
  match analyticsPixels a with
  | None => true
  | Some l => (List.length l =? 0)%nat
  end.

Definition cmsRecognised (a : AuditResult) : bool :=
  match cmsHint a with
  | Some h => truthy (Some h) && existsb (String.eqb h) validCmsHints
  | None => false
  end.

Definition cmsReason (a : AuditResult) : string :=
  match cmsHint a with
  | Some h => "Uses " ++ h ++ " (easy to upgrade)"
  | None => "Uses undefined (easy to upgrade)"
  end.

Local Open Scope Z_scope.

(** [if (cond) { score += points; reasons.push(reason); }] on the pair
    of the running score and the reasons. *)
Definition pushIf (cond : bool) (points : Z) (reason : string)
    (acc : Z * list string) : Z * list string :=
  if cond then (fst acc + points, (snd acc ++ [reason])%list) else acc.

(** [scoreLead]: the three running scores in turn, one list of reasons. *)
Definition scoreLead (businessName : string) (auditResults : AuditResult)
    (contactInfo : ContactInfo) (category : string) : ScoreResult :=
  let reasons : list string := [] in
  let acc := (0, reasons) in
  let acc := pushIf (negb (httpsOk auditResults)) 25 "Missing HTTPS security" acc in
  let acc := pushIf (negb (mobileOk auditResults)) 25 "Not mobile optimized" acc in
  let acc := pushIf (negb (hasBooking auditResults)) 30 "No online booking system" acc in
  let acc := pushIf (negb (schemaOk auditResults)) 10 "Missing structured data" acc in
  let acc := pushIf (noAnalytics auditResults) 10 "No analytics tracking" acc in
  let needScore := fst acc in
  let acc := (50, snd acc) in
  let acc :=
    pushIf (existsb (fun cat => includes (toLowerCase category) cat) highValueCategories)
           30 "High-value industry" acc in
  let acc := pushIf (cmsRecognised auditResults) 20 (cmsReason auditResults) acc in
  let valueScore := fst acc in
  let acc := (0, snd acc) in
  let acc := pushIf (truthy (contactPhone contactInfo)) 40 "Phone number available" acc in
  let acc := pushIf (truthy (contactEmail contactInfo)) 30 "Email address available" acc in
  let acc := pushIf (truthy (contactWebsite contactInfo)) 30 "Website available" acc in
  let reachabilityScore := fst acc in
  let total :=
    Math_round (PrimFloat.div (Number (needScore + valueScore + reachabilityScore))
                              (Number 3)) in
  {| need := needScore; value := valueScore; reachability := reachabilityScore;
     total := total; reasons := snd acc |}.

(** Round-half-up of the rational [p / q] ([0 < q]), in the spec's words:
    the integer [k] with [k - 1/2 <= p/q < k + 1/2]. *)
Definition roundHalfUp (p q : Z) : Z := (2 * p + q) / (2 * q).

End Tools.

(* ===================================================================== *)
(** ** The platform's [URL] parser (WHATWG URL Standard), host part *)
(* ===================================================================== *)

(** [new URL(u).hostname] for the inputs [normalizeDomain] builds: [None]
    stands for the [TypeError] the constructor throws.  The steps of the
    URL Standard are followed for [http:] and [https:] inputs whose host is
    ASCII without percent-escapes, credentials, bracketed IPv6 literals or
    [xn--] labels (there, domain-to-ASCII is ASCII lower-casing); every
    other input is handed to [platform], the rest of the parser, about
    which nothing is assumed. *)

Module Url.
Import JS.

Definition isC0OrSpace (c : ascii) : bool := (code c <=? 32)%N.
Definition isTabOrNewline (c : ascii) : bool :=
  (code c =? 9)%N || (code c =? 10)%N || (code c =? 13)%N.

Fixpoint stripLeading (s : string) : string :=
  match s with
  | EmptyString => EmptyString
  | String c t => if isC0OrSpace c then stripLeading t else s
  end.

Fixpoint stripTrailing (s : string) : string :=
  match s with
  | EmptyString => EmptyString
  | String c t =>
      match stripTrailing t with
      | EmptyString => if isC0OrSpace c then EmptyString else String c EmptyString
      | t' => String c t'
      end
  end.

(** Leading and trailing C0 controls and spaces go, then every tab and
    newline. *)
Definition preprocess (s : string) : string :=
  filterChars (fun c => negb (isTabOrNewline c)) (stripTrailing (stripLeading s)).

(** The longest prefix without a character satisfying [stop]. *)
Fixpoint takeUntil (stop : ascii -> bool) (s : string) : string :=
  match s with
  | EmptyString => EmptyString
  | String c t => if stop c then EmptyString else String c (takeUntil stop t)
  end.

(** What follows that prefix and the stopping character. *)
Fixpoint afterFirst (stop : ascii -> bool) (s : string) : option string :=
  match s with
  | EmptyString => None
  | String c t => if stop c then Some t else afterFirst stop t
  end.

Fixpoint dropWhile (p : ascii -> bool) (s : string) : string :=
  match s with
  | EmptyString => EmptyString
  | String c t => if p c then dropWhile p t else s
  end.

Definition isSlash (c : ascii) : bool := (code c =? 47)%N || (code c =? 92)%N.
Definition endsAuthority (c : ascii) : bool :=
  isSlash c || (code c =? 63)%N || (code c =? 35)%N.
Definition isChar (n : N) (c : ascii) : bool := (code c =? n)%N.

(** Strictly split on a code unit. *)
Fixpoint splitOn (sep : ascii) (s : string) : list string :=
  match s with
  | EmptyString => [EmptyString]
  | String c t =>
      if Ascii.eqb c sep then EmptyString :: splitOn sep t
      else match splitOn sep t with
           | h :: r => String c h :: r
           | [] => [String c EmptyString]
           end
  end.

Definition dot : ascii := "."%char.

(** Forbidden domain code points: the forbidden host code points, the C0
    controls, [%] and DELETE. *)
Definition forbiddenDomainCodePoint (c : ascii) : bool :=
  (code c <=? 32)%N
  || existsb (fun n => (code c =? n)%N)
       [35; 47; 58; 60; 62; 63; 64; 91; 92; 93; 94; 124; 37; 127]%N.

Definition isHexDigit (c : ascii) : bool :=
  isDigit c || between 65 70 c || between 97 102 c.
Definition isOctDigit (c : ascii) : bool := between 48 55 c.

Definition digitValue (c : ascii) : N :=
  if isDigit c then code c - 48
  else if between 65 70 c then code c - 55
  else code c - 87.

Fixpoint radixValue (R : N) (acc : N) (s : string) : N :=
  match s with
  | EmptyString => acc
  | String c t => radixValue R (acc * R + digitValue c) t
  end.

(** The IPv4 number parser: [None] is failure. *)
Definition ipv4Number (input : string) : option N :=
  match input with
  | EmptyString => None
  | String c0 (String c1 rest) =>
      if isChar 48 c0 && (isChar 120 c1 || isChar 88 c1) then
        if allChars isHexDigit rest then Some (radixValue 16 0 rest) else None
      else if isChar 48 c0 then
        if allChars isOctDigit (String c1 rest)
        then Some (radixValue 8 0 (String c1 rest)) else None
      else if allChars isDigit input then Some (radixValue 10 0 input) else None
  | _ => if allChars isDigit input then Some (radixValue 10 0 input) else None
  end.

(** The list without its last item when that item is empty and not the
    only one. *)
Definition dropEmptyLast (parts : list string) : list string :=
  match rev parts with
  | EmptyString :: (p :: front) => rev (p :: front)
  | _ => parts
  end.

(** The ends-in-a-number checker. *)
Definition endsInNumber (input : string) : bool :=
  let parts := splitOn dot input in
  match rev parts with
  | [EmptyString] => false
  | r =>
      let r := match r with EmptyString :: r' => r' | _ => r end in
      match r with
      | last :: _ =>
          (negb (last =? "") && allChars isDigit last)
          || match ipv4Number last with Some _ => true | None => false end
      | [] => false
      end
  end.

Fixpoint parseAll (parts : list string) : option (list N) :=
  match parts with
  | [] => Some []
  | p :: ps =>
      match ipv4Number p, parseAll ps with
      | Some n, Some ns => Some (n :: ns)
      | _, _ => None
      end
  end.

Fixpoint ipv4Sum (numbers : list N) (counter : N) : N :=
  match numbers with
  | [] => 0
  | n :: ns => n * 256 ^ (3 - counter) + ipv4Sum ns (counter + 1)
  end%N.

(** The IPv4 parser: the 32-bit address, or [None] for failure. *)
Definition ipv4Parse (input : string) : option N :=
  let parts := dropEmptyLast (splitOn dot input) in
  if (4 <? List.length parts)%nat then None
  else match parseAll parts with
       | None => None
       | Some numbers =>
           match rev numbers with
           | [] => None
           | last :: front =>
               if existsb (fun n => (255 <? n)%N) front then None
               else if (256 ^ (5 - N.of_nat (List.length numbers)) <=? last)%N then None
               else Some (last + ipv4Sum (rev front) 0)%N
           end
       end.

Definition decimal (n : N) : string := NilEmpty.string_of_uint (N.to_uint n).

(** The IPv4 serializer. *)
Definition ipv4Serialize (address : N) : string :=
  decimal (address / 16777216 mod 256) ++ "." ++
  decimal (address / 65536 mod 256) ++ "." ++
  decimal (address / 256 mod 256) ++ "." ++
  decimal (address mod 256).

Definition hasAceLabel (host : string) : bool :=
  existsb (fun label => startsWith (toLowerCase label) "xn--") (splitOn dot host).

(** A host of the modelled fragment. *)
Definition simpleHost (host : string) : bool :=
  allChars (fun c => (code c <? 128)%N && negb (isChar 37 c)) host
  && negb (hasAceLabel host).

(** The host parser on a non-empty, non-opaque host of the fragment. *)
Definition parseHost (host : string) : option string :=
  let asciiDomain := toLowerCase host in
  if negb (allChars (fun c => negb (forbiddenDomainCodePoint c)) asciiDomain) then None
  else if endsInNumber asciiDomain then
    match ipv4Parse asciiDomain with
    | Some address => Some (ipv4Serialize address)
    | None => None
    end
  else Some asciiDomain.

Definition validPort (port : string) : bool :=
  allChars isDigit port && (radixValue 10 0 port <=? 65535)%N.

(** After the scheme and its colon: the slashes, the authority, the host
    and the port. *)
Definition hostnameAfterScheme (platform : string -> option string)
    (whole rest : string) : option string :=
  let rest := dropWhile isSlash rest in
  let authority := takeUntil endsAuthority rest in
  if negb (allChars (fun c => negb (isChar 64 c || isChar 91 c || isChar 93 c)) authority)
  then platform whole
  else
    let host := takeUntil (isChar 58) authority in
    let portOk :=
      match afterFirst (isChar 58) authority with
      | Some port => validPort port
      | None => true
      end in
    if host =? "" then None
    else if negb (simpleHost host) then platform whole
    else match parseHost host with
         | None => None
         | Some h => if portOk then Some h else None
         end.

Definition URL_hostname (platform : string -> option string) (input : string)
  : option string :=
  let s := preprocess input in
  if startsWith (toLowerCase s) "https:" then
    hostnameAfterScheme platform input (substringFrom 6 s)
  else if startsWith (toLowerCase s) "http:" then
    hostnameAfterScheme platform input (substringFrom 5 s)
  else platform input.

End Url.

(* ===================================================================== *)
(** ** server/utils/normalize.ts *)
(* ===================================================================== *)

Module Normalize.
Import JS.

(** *** The fallback pattern of [normalizeDomain]

    The pattern is, with flag [i] and written here with blanks between
    its parts,

      (?:https?:\/\/)?  (?:www\.)?  ( LABEL (?:\.LABEL)+ )

    where LABEL is one character of [[a-zA-Z0-9]] followed by any number
    of characters of [[-a-zA-Z0-9]].  [String.prototype.match] finds the
    leftmost position at which the pattern matches, and there the first
    alternative in backtracking order.  The functions return capture
    group 1. *)

Definition isLabelChar (c : ascii) : bool := isAlnum c || (code c =? 45)%N.

(** Inside a LABEL, after its first character: the rest of the greedy
    match of the group.  A label character continues the label; a dot
    followed by a character of [[a-zA-Z0-9]] starts the next label; anything
    else ends the match. *)
Fixpoint matchLabels (s : string) : string :=
  match s with
  | EmptyString => EmptyString
  | String c t =>
      if isLabelChar c then String c (matchLabels t)
      else if Ascii.eqb c Url.dot then
        match t with
        | String c' t' =>
            if isAlnum c' then String c (String c' (matchLabels t')) else EmptyString
        | EmptyString => EmptyString
        end
      else EmptyString
  end.

Definition hasDot (s : string) : bool :=
  negb (allChars (fun c => negb (Ascii.eqb c Url.dot)) s).

(** Capture group 1 matched at the start of [s]: a label, then at least
    one dot and label. *)
Definition matchGroup (s : string) : option string :=
  match s with
  | String c t =>
      if isAlnum c then
        let m := String c (matchLabels t) in
        if hasDot m then Some m else None
      else None
  | EmptyString => None
  end.

(** [s] without the prefix [p], compared case-insensitively. *)
Definition afterPrefixCI (p s : string) : option string :=
  if startsWith (toLowerCase s) p then Some (substringFrom (String.length p) s)
  else None.

Definition afterScheme (s : string) : option string :=
  match afterPrefixCI "https://" s with
  | Some r => Some r
  | None => afterPrefixCI "http://" s
  end.

(** [(?:www\.)?] then the group: with the prefix first, without it next. *)
Definition matchWwwGroup (s : string) : option string :=
  match afterPrefixCI "www." s with
  | Some r =>
      match matchGroup r with
      | Some m => Some m
      | None => matchGroup s
      end
  | None => matchGroup s
  end.

(** The whole pattern at the start of [s]. *)
Definition matchHere (s : string) : option string :=
  match afterScheme s with
  | Some r =>
      match matchWwwGroup r with
      | Some m => Some m
      | None => matchWwwGroup s
      end
  | None => matchWwwGroup s
  end.

(** [url.match(pattern)[1]] *)
Fixpoint domainPatternMatch (url : string) : option string :=
  match matchHere url with
  | Some m => Some m
  | None =>
      match url with
      | EmptyString => None
      | String _ t => domainPatternMatch t
      end
  end.

(** [/^https?:\/\//i] *)
Definition hasHttpScheme (s : string) : bool :=
  match afterScheme s with Some _ => true | None => false end.

Section WithPlatform.

(** The part of the platform's URL parser that is not modelled. *)
Variable platform : string -> option string.

Definition normalizeDomain (url : option string) : option string :=
  match url with
  | None => None
  | Some url =>
      if negb (truthy (Some url)) || (trim url =? "") then None
      else
        let cleanUrl := trim url in
        let cleanUrl :=
          if negb (hasHttpScheme cleanUrl) then "https://" ++ cleanUrl else cleanUrl in
        match Url.URL_hostname platform cleanUrl with
        | Some parsedHostname =>
            let hostname := toLowerCase parsedHostname in
            let hostname :=
              if startsWith hostname "www." then substringFrom 4 hostname else hostname in
            if negb (truthy (Some hostname)) || (hostname =? "localhost") then None
            else Some hostname
        | None =>
            match domainPatternMatch url with
            | Some m => Some (toLowerCase m)
            | None => None
            end
        end
  end.

End WithPlatform.

Definition normalizePhone (phone : option string) : option string :=
  match phone with
  | None => None
  | Some phone =>
      if negb (truthy (Some phone)) || (trim phone =? "") then None
      else
        let digits := filterChars isDigit phone in
        if (String.length digits =? 10)%nat then Some ("+1" ++ digits)
        else if (String.length digits =? 11)%nat && startsWith digits "1"
        then Some ("+" ++ digits)
        else if (10 <=? String.length digits)%nat && (String.length digits <=? 15)%nat
        then Some ("+" ++ digits)
        else None
  end.

(** [.replace(/\s+/g, " ")]: every maximal run of white space becomes one
    space; [inRun] says that the previous character was white space. *)
Fixpoint collapseSpacesFrom (inRun : bool) (s : string) : string :=
  match s with
  | EmptyString => EmptyString
  | String c t =>
      if isSpace c then
        if inRun then collapseSpacesFrom true t
        else String " "%char (collapseSpacesFrom true t)
      else String c (collapseSpacesFrom false t)
  end.

Definition normalizeName (name : string) : string :=
  trim (collapseSpacesFrom false
          (filterChars (fun c => isWord c || isSpace c) (toLowerCase name))).

(** One row of the matrix of [levenshteinDistance]: the entries
    [matrix[i][j]], [matrix[i][j+1]], ... given [bc = b.charAt(i-1)], the
    rest of [a] from index [j-1], [diag = matrix[i-1][j-1]], the entries
    [matrix[i-1][j]], ... of the row above and [left = matrix[i][j-1]]. *)
Fixpoint levenshteinRow (bc : ascii) (a : string) (diag : nat) (above : list nat)
    (left : nat) : list nat :=
  match a, above with
  | String ac a', up :: above' =>
      let cell :=
        if Ascii.eqb bc ac then diag
        else Nat.min (diag + 1) (Nat.min (left + 1) (up + 1)) in
      cell :: levenshteinRow bc a' up above' cell
  | _, _ => []
  end.

(** The rows [i], [i+1], ... of the matrix; the result is the last row. *)
Fixpoint levenshteinRows (a b : string) (i : nat) (above : list nat) : list nat :=
  match b with
  | EmptyString => above
  | String bc b' =>
      let row :=
        match above with
        | diag :: rest => i :: levenshteinRow bc a diag rest i
        | [] => [i]
        end in
      levenshteinRows a b' (S i) row
  end.

Definition levenshteinDistance (a b : string) : nat :=
  List.last (levenshteinRows a b 1 (seq 0 (S (String.length a)))) 0%nat.

Definition nameSimilarity (name1 name2 : string) : float :=
  let n1 := normalizeName name1 in
  let n2 := normalizeName name2 in
  if n1 =? n2 then 1%float
  else
    let maxLen := Nat.max (String.length n1) (String.length n2) in
    if (maxLen =? 0)%nat then 1%float
    else
      let distance := levenshteinDistance n1 n2 in
      PrimFloat.sub 1 (PrimFloat.div (Number (Z.of_nat distance)) (Number (Z.of_nat maxLen))).

(** The argument type of [isFuzzyMatch]. *)
Record FuzzyLead := mkFuzzyLead {
  fuzzyName : string;
  fuzzyCity : option string;
  fuzzyPhone : option string
}.

Definition sameString (a b : option string) : bool :=
  match a, b with
  | Some x, Some y => x =? y
  | _, _ => false
  end.

Definition sameLowerCase (a b : option string) : bool :=
  match a, b with
  | Some x, Some y => toLowerCase x =? toLowerCase y
  | _, _ => false
  end.

Definition defaultThreshold : float := 0.85%float.

Definition isFuzzyMatch (lead1 lead2 : FuzzyLead) (threshold : float) : bool :=
  if truthy (fuzzyPhone lead1) && truthy (fuzzyPhone lead2)
     && sameString (fuzzyPhone lead1) (fuzzyPhone lead2)
  then true
  else if truthy (fuzzyCity lead1) && truthy (fuzzyCity lead2)
          && negb (sameLowerCase (fuzzyCity lead1) (fuzzyCity lead2))
  then false
  else
    let similarity := nameSimilarity (fuzzyName lead1) (fuzzyName lead2) in
    PrimFloat.leb threshold similarity.

End Normalize.

(* ===================================================================== *)
(** ** shared/schema.ts and server/storage.ts *)
(* ===================================================================== *)

(** A row of the [leads] table.  Identifiers ([gen_random_uuid()]) are
    modelled by [nat]: the n-th identifier the database generated.
    Timestamps are milliseconds. *)
Module Lead.
Record t := mk {
  id : nat;
  name : string;
  domain : option string;
  canonicalDomain : option string;
  normalizedPhone : option string;
  phone : option string;
  email : option string;
  address : option string;
  city : option string;
  state : option string;
  postalCode : option string;
  latitude : option string;
  longitude : option string;
  category : string;
  source : string;
  placeId : option string;
  status : string;
  createdAt : Z;
  updatedAt : Z
}.
End Lead.

(** [InsertLead]: a row without [id], [createdAt] and [updatedAt]; the
    nullable columns and the ones with a default are optional. *)
Module InsertLead.
Record t := mk {
  name : string;
  domain : option string;
  canonicalDomain : option string;
  normalizedPhone : option string;
  phone : option string;
  email : option string;
  address : option string;
  city : option string;
  state : option string;
  postalCode : option string;
  latitude : option string;
  longitude : option string;
  category : string;
  source : string;
  placeId : option string;
  status : option string
}.
End InsertLead.

(** The argument of [findExistingLead]. *)
Module Criteria.
Record t := mk {
  placeId : option string;
  domain : option string;
  phone : option string;
  name : option string;
  city : option string
}.
End Criteria.

(** Rows of [lead_metrics] and [scores], keyed by [leadId]. *)
Module Metrics.
Record t := mk {
  leadId : nat;
  httpsOk : option bool;
  mobileOk : option bool;
  schemaOk : option bool;
  hasBooking : option bool;
  lcpMs : option Z;
  cls : option string;
  analyticsPixels : option (list string);
  rating : option string;
  reviewCount : option Z;
  cmsHint : option string
}.
End Metrics.

Module Score.
Record t := mk {
  leadId : nat;
  need : Z;
  value : Z;
  reachability : Z;
  total : Z;
  reasons : list string
}.
End Score.

(** [InsertMissionEvent], with the payload [{ message }] flattened. *)
Module MissionEvent.
Record t := mk {
  missionId : string;
  eventType : string;
  toolName : option string;
  message : string
}.
End MissionEvent.

Module Storage.
Import JS Tools.

(** The database: each table is the list of its rows in the order an
    unordered [SELECT] returns them; a new row goes to the end and an
    updated row keeps its place.  A statement fails only by violating one
    of the two partial unique indexes of [leads]; connection failures are
    not modelled. *)
Record Database := mkDatabase {
  leads : list Lead.t;
  nextLeadId : nat;
  leadMetrics : list Metrics.t;
  scores : list Score.t;
  missionEvents : list MissionEvent.t
}.

Definition withLeads (db : Database) (rows : list Lead.t) (next : nat) : Database :=
  {| leads := rows; nextLeadId := next; leadMetrics := leadMetrics db;
     scores := scores db; missionEvents := missionEvents db |}.

Definition emptyDatabase : Database :=
  {| leads := []; nextLeadId := 0; leadMetrics := []; scores := [];
     missionEvents := [] |}.

Record UpsertResult := mkUpsertResult {
  lead : Lead.t;
  isNew : bool;
  wasUpdated : bool
}.

(** [eq(column, v)] on a nullable text column. *)
Definition eqCol (column : option string) (v : string) : bool :=
  match column with
  | Some x => x =? v
  | None => false
  end.

(** [inArray(column, vs)] *)
Definition inArray (column : option string) (vs : list string) : bool :=
  match column with
  | Some x => existsb (String.eqb x) vs
  | None => false
  end.

(** [SELECT ... WHERE p LIMIT n] *)
Definition selectWhere (p : Lead.t -> bool) (limit : nat) (rows : list Lead.t)
  : list Lead.t :=
  firstn limit (filter p rows).

Definition sameCI (a b : ascii) : bool := Ascii.eqb (lowerChar a) (lowerChar b).

Definition percent : ascii := "%"%char.
Definition underscore : ascii := "_"%char.
Definition backslash : ascii := "\"%char.

(** PostgreSQL's [text ILIKE pattern]: [%] matches any sequence, [_] any
    one character, a backslash makes the next pattern character literal,
    and characters are compared without regard to case.  (A pattern that
    ends in a lone backslash is an error in PostgreSQL; the patterns built
    below end in [%].) *)
Fixpoint likeCI (pattern : string) : string -> bool :=
  match pattern with
  | EmptyString => fun s => s =? ""
  | String c p =>
      if Ascii.eqb c percent then
        fix anySuffix (s : string) : bool :=
          likeCI p s
          || match s with
             | EmptyString => false
             | String _ t => anySuffix t
             end
      else if Ascii.eqb c underscore then
        fun s => match s with
                 | String _ t => likeCI p t
                 | EmptyString => false
                 end
      else if Ascii.eqb c backslash then
        match p with
        | String e p' =>
            fun s => match s with
                     | String x t => sameCI x e && likeCI p' t
                     | EmptyString => false
                     end
        | EmptyString => fun _ => false
        end
      else
        fun s => match s with
                 | String x t => sameCI x c && likeCI p t
                 | EmptyString => false
                 end
  end.

(** [ilike(column, pattern)] on a nullable text column. *)
Definition ilike (column : option string) (pattern : string) : bool :=
  match column with
  | Some x => likeCI pattern x
  | None => false
  end.

Definition fuzzyOfLead (l : Lead.t) : Normalize.FuzzyLead :=
  {| Normalize.fuzzyName := Lead.name l;
     Normalize.fuzzyCity := Lead.city l;
     Normalize.fuzzyPhone := Lead.normalizedPhone l |}.

(** The [for] loop over [candidates]: the first one that fuzzily matches. *)
Definition firstFuzzyMatch (me : Normalize.FuzzyLead) (candidates : list Lead.t)
  : option Lead.t :=
  find (fun candidate =>
          Normalize.isFuzzyMatch me (fuzzyOfLead candidate) Normalize.defaultThreshold)
       candidates.

Section WithPlatform.

Variable platform : string -> option string.

Definition findExistingLead (criteria : Criteria.t) (rows : list Lead.t)
  : option Lead.t :=
  let canonicalDomain := Normalize.normalizeDomain platform (Criteria.domain criteria) in
  let normalizedPhone := Normalize.normalizePhone (Criteria.phone criteria) in
  let byPlaceId :=
    match Criteria.placeId criteria with
    | Some placeId =>
        if truthy (Some placeId)
        then hd_error (selectWhere (fun l => eqCol (Lead.placeId l) placeId) 1 rows)
        else None
    | None => None
    end in
  match byPlaceId with
  | Some l => Some l
  | None =>
  let byDomain :=
    match canonicalDomain with
    | Some d =>
        if truthy (Some d)
        then hd_error (selectWhere (fun l => eqCol (Lead.canonicalDomain l) d) 1 rows)
        else None
    | None => None
    end in
  match byDomain with
  | Some l => Some l
  | None =>
  let byPhone :=
    match normalizedPhone, Criteria.name criteria with
    | Some p, Some name =>
        if truthy (Some p) && truthy (Some name) then
          let candidates :=
            selectWhere (fun l => eqCol (Lead.normalizedPhone l) p) 10 rows in
          firstFuzzyMatch
            {| Normalize.fuzzyName := name;
               Normalize.fuzzyCity := Criteria.city criteria;
               Normalize.fuzzyPhone := normalizedPhone |}
            candidates
        else None
    | _, _ => None
    end in
  match byPhone with
  | Some l => Some l
  | None =>
    match Criteria.name criteria, Criteria.city criteria with
    | Some name, Some city =>
        if truthy (Some name) && truthy (Some city) then
          let namePattern := substringTo (Nat.min 10 (String.length name)) name in
          let candidates :=
            selectWhere
              (fun l => ilike (Lead.city l) ("%" ++ city ++ "%")
                        && ilike (Some (Lead.name l)) ("%" ++ namePattern ++ "%"))
              20 rows in
          firstFuzzyMatch
            {| Normalize.fuzzyName := name;
               Normalize.fuzzyCity := Criteria.city criteria;
               Normalize.fuzzyPhone := normalizedPhone |}
            candidates
        else None
    | _, _ => None
    end
  end end end.

(** The partial unique indexes [leads_place_id_unique] and
    [leads_canonical_domain_unique]: the index a row with these values
    would violate, among the rows other than [self]. *)
Definition sameKey (a b : option string) : bool :=
  match a, b with
  | Some x, Some y => x =? y
  | _, _ => false
  end.

Definition uniqueViolation (self : option nat) (placeId canonicalDomain : option string)
    (rows : list Lead.t) : option string :=
  let others :=
    filter (fun l => match self with
                     | Some i => negb (Lead.id l =? i)%nat
                     | None => true
                     end) rows in
  if existsb (fun l => sameKey (Lead.placeId l) placeId) others
  then Some "duplicate key value violates unique constraint leads_place_id_unique"
  else if existsb (fun l => sameKey (Lead.canonicalDomain l) canonicalDomain) others
  then Some "duplicate key value violates unique constraint leads_canonical_domain_unique"
  else None.

Definition criteriaOf (insertLead : InsertLead.t) : Criteria.t :=
  {| Criteria.placeId := orUndefined (InsertLead.placeId insertLead);
     Criteria.domain := orUndefined (InsertLead.domain insertLead);
     Criteria.phone := orUndefined (InsertLead.phone insertLead);
     Criteria.name := Some (InsertLead.name insertLead);
     Criteria.city := orUndefined (InsertLead.city insertLead) |}.

(** The row [db.update(leads).set({...}).where(eq(leads.id, existing.id))]
    writes; [postalCode] and [createdAt] are not in the [set]. *)
Definition mergedRow (insertLead : InsertLead.t)
    (canonicalDomain normalizedPhone : option string) (existing : Lead.t) (now : Z)
  : Lead.t :=
  {| Lead.id := Lead.id existing;
     Lead.name := InsertLead.name insertLead;
     Lead.domain := nullish (InsertLead.domain insertLead) (Lead.domain existing);
     Lead.canonicalDomain := nullish canonicalDomain (Lead.canonicalDomain existing);
     Lead.normalizedPhone := nullish normalizedPhone (Lead.normalizedPhone existing);
     Lead.phone := nullish (InsertLead.phone insertLead) (Lead.phone existing);
     Lead.email := nullish (InsertLead.email insertLead) (Lead.email existing);
     Lead.address := nullish (InsertLead.address insertLead) (Lead.address existing);
     Lead.city := nullish (InsertLead.city insertLead) (Lead.city existing);
     Lead.state := nullish (InsertLead.state insertLead) (Lead.state existing);
     Lead.postalCode := Lead.postalCode existing;
     Lead.latitude := nullish (InsertLead.latitude insertLead) (Lead.latitude existing);
     Lead.longitude := nullish (InsertLead.longitude insertLead) (Lead.longitude existing);
     Lead.category := InsertLead.category insertLead;
     Lead.source := InsertLead.source insertLead;
     Lead.placeId := nullish (InsertLead.placeId insertLead) (Lead.placeId existing);
     Lead.status :=
       match InsertLead.status insertLead with
       | Some st => st
       | None => Lead.status existing
       end;
     Lead.createdAt := Lead.createdAt existing;
     Lead.updatedAt := now |}.

(** The row [db.insert(leads).values(leadWithNormalized)] creates. *)
Definition insertedRow (insertLead : InsertLead.t)
    (canonicalDomain normalizedPhone : option string) (newId : nat) (now : Z) : Lead.t :=
  {| Lead.id := newId;
     Lead.name := InsertLead.name insertLead;
     Lead.domain := InsertLead.domain insertLead;
     Lead.canonicalDomain := canonicalDomain;
     Lead.normalizedPhone := normalizedPhone;
     Lead.phone := InsertLead.phone insertLead;
     Lead.email := InsertLead.email insertLead;
     Lead.address := InsertLead.address insertLead;
     Lead.city := InsertLead.city insertLead;
     Lead.state := InsertLead.state insertLead;
     Lead.postalCode := InsertLead.postalCode insertLead;
     Lead.latitude := InsertLead.latitude insertLead;
     Lead.longitude := InsertLead.longitude insertLead;
     Lead.category := InsertLead.category insertLead;
     Lead.source := InsertLead.source insertLead;
     Lead.placeId := InsertLead.placeId insertLead;
     Lead.status :=
       match InsertLead.status insertLead with
       | Some st => st
       | None => "new"
       end;
     Lead.createdAt := now;
     Lead.updatedAt := now |}.

Definition replaceRow (row : Lead.t) (rows : list Lead.t) : list Lead.t :=
  map (fun l => if (Lead.id l =? Lead.id row)%nat then row else l) rows.

(** [upsertLead]; [now] is the reading of the clock ([new Date()] and the
    column default [now()]). *)
Definition upsertLead (insertLead : InsertLead.t) (now : Z) (db : Database)
  : result UpsertResult * Database :=
  let canonicalDomain := Normalize.normalizeDomain platform (InsertLead.domain insertLead) in
  let normalizedPhone := Normalize.normalizePhone (InsertLead.phone insertLead) in
  let existing := findExistingLead (criteriaOf insertLead) (leads db) in
  match existing with
  | Some existing =>
      let updated := mergedRow insertLead canonicalDomain normalizedPhone existing now in
      match uniqueViolation (Some (Lead.id existing)) (Lead.placeId updated)
                            (Lead.canonicalDomain updated) (leads db) with
      | Some msg => (Throws msg, db)
      | None =>
          (Returns {| lead := updated; isNew := false; wasUpdated := true |},
           withLeads db (replaceRow updated (leads db)) (nextLeadId db))
      end
  | None =>
      let created :=
        insertedRow insertLead canonicalDomain normalizedPhone (nextLeadId db) now in
      match uniqueViolation None (Lead.placeId created) (Lead.canonicalDomain created)
                            (leads db) with
      | Some msg => (Throws msg, db)
      | None =>
          (Returns {| lead := created; isNew := true; wasUpdated := false |},
           withLeads db (leads db ++ [created])%list (S (nextLeadId db)))
      end
  end.

End WithPlatform.

Definition getLeadsByPlaceIds (placeIds : list string) (db : Database) : list Lead.t :=
  if (List.length placeIds =? 0)%nat then []
  else filter (fun l => inArray (Lead.placeId l) placeIds) (leads db).

Definition getLeadsByDomainsOrPhones (domains phones : list string) (db : Database)
  : list Lead.t :=
  if (List.length domains =? 0)%nat && (List.length phones =? 0)%nat then []
  else
    let hasDomains := (0 <? List.length domains)%nat in
    let hasPhones := (0 <? List.length phones)%nat in
    if hasDomains && hasPhones then
      filter (fun l => inArray (Lead.canonicalDomain l) domains
                       || inArray (Lead.normalizedPhone l) phones) (leads db)
    else if hasDomains then
      filter (fun l => inArray (Lead.canonicalDomain l) domains) (leads db)
    else
      filter (fun l => inArray (Lead.normalizedPhone l) phones) (leads db).

(** [x !== undefined ? x : existing] *)
Definition definedOr {A : Type} (x existing : option A) : option A :=
  match x with
  | Some _ => x
  | None => existing
  end.

Definition mergeMetrics (m existing : Metrics.t) : Metrics.t :=
  {| Metrics.leadId := Metrics.leadId existing;
     Metrics.httpsOk := definedOr (Metrics.httpsOk m) (Metrics.httpsOk existing);
     Metrics.mobileOk := definedOr (Metrics.mobileOk m) (Metrics.mobileOk existing);
     Metrics.schemaOk := definedOr (Metrics.schemaOk m) (Metrics.schemaOk existing);
     Metrics.hasBooking := definedOr (Metrics.hasBooking m) (Metrics.hasBooking existing);
     Metrics.lcpMs := definedOr (Metrics.lcpMs m) (Metrics.lcpMs existing);
     Metrics.cls := definedOr (Metrics.cls m) (Metrics.cls existing);
     Metrics.analyticsPixels :=
       definedOr (Metrics.analyticsPixels m) (Metrics.analyticsPixels existing);
     Metrics.rating := definedOr (Metrics.rating m) (Metrics.rating existing);
     Metrics.reviewCount := definedOr (Metrics.reviewCount m) (Metrics.reviewCount existing);
     Metrics.cmsHint := definedOr (Metrics.cmsHint m) (Metrics.cmsHint existing) |}.

Definition upsertLeadMetrics (m : Metrics.t) (db : Database) : Database :=
  let rows := leadMetrics db in
  let rows' :=
    if existsb (fun r => (Metrics.leadId r =? Metrics.leadId m)%nat) rows
    then map (fun r => if (Metrics.leadId r =? Metrics.leadId m)%nat
                       then mergeMetrics m r else r) rows
    else (rows ++ [m])%list in
  {| leads := leads db; nextLeadId := nextLeadId db; leadMetrics := rows';
     scores := scores db; missionEvents := missionEvents db |}.

Definition upsertScore (sc : Score.t) (db : Database) : Database :=
  let rows := scores db in
  let rows' :=
    if existsb (fun r => (Score.leadId r =? Score.leadId sc)%nat) rows
    then map (fun r => if (Score.leadId r =? Score.leadId sc)%nat then sc else r) rows
    else (rows ++ [sc])%list in
  {| leads := leads db; nextLeadId := nextLeadId db; leadMetrics := leadMetrics db;
     scores := rows'; missionEvents := missionEvents db |}.

Definition createMissionEvent (e : MissionEvent.t) (db : Database) : Database :=
  {| leads := leads db; nextLeadId := nextLeadId db; leadMetrics := leadMetrics db;
     scores := scores db; missionEvents := (missionEvents db ++ [e])%list |}.

(** [getLeadById], [getLeadMetrics] and [getScore]: the first row of a
    [SELECT ... WHERE ... LIMIT 1]. *)
Definition getLeadById (id : nat) (db : Database) : option Lead.t :=
  hd_error (selectWhere (fun l => (Lead.id l =? id)%nat) 1 (leads db)).

Definition getLeadMetrics (leadId : nat) (db : Database) : option Metrics.t :=
  find (fun r => (Metrics.leadId r =? leadId)%nat) (leadMetrics db).

Definition getScore (leadId : nat) (db : Database) : option Score.t :=
  find (fun r => (Score.leadId r =? leadId)%nat) (scores db).

(** The row with another [status] and [updatedAt]. *)
Definition withStatus (status : string) (now : Z) (l : Lead.t) : Lead.t :=
  {| Lead.id := Lead.id l; Lead.name := Lead.name l; Lead.domain := Lead.domain l;
     Lead.canonicalDomain := Lead.canonicalDomain l;
     Lead.normalizedPhone := Lead.normalizedPhone l; Lead.phone := Lead.phone l;
     Lead.email := Lead.email l; Lead.address := Lead.address l; Lead.city := Lead.city l;
     Lead.state := Lead.state l; Lead.postalCode := Lead.postalCode l;
     Lead.latitude := Lead.latitude l; Lead.longitude := Lead.longitude l;
     Lead.category := Lead.category l; Lead.source := Lead.source l;
     Lead.placeId := Lead.placeId l; Lead.status := status;
     Lead.createdAt := Lead.createdAt l; Lead.updatedAt := now |}.

(** [updateLeadStatus]: the [UPDATE ... WHERE id = ... RETURNING], and the
    first row it returned. *)
Definition updateLeadStatus (id : nat) (status : string) (now : Z) (db : Database)
  : option Lead.t * Database :=
  let rows :=
    map (fun l => if (Lead.id l =? id)%nat then withStatus status now l else l) (leads db) in
  (hd_error (filter (fun l => (Lead.id l =? id)%nat) rows),
   withLeads db rows (nextLeadId db)).

(** [x !== undefined] *)
Definition isDefined {A : Type} (x : option A) : bool :=
  match x with
  | Some _ => true
  | None => false
  end.

(** [ListFilters]; the two score bounds are whole numbers here. *)
Record ListFilters := mkListFilters {
  filterMinScore : option Z;
  filterMaxScore : option Z;
  filterStatus : option (list string);
  filterCategories : option (list string);
  filterCity : option string;
  filterState : option string;
  filterHasWebsite : option bool;
  filterHasPhone : option bool
}.

(** [isNotNull(column)] *)
Definition isNotNull (column : option string) : bool :=
  match column with
  | Some _ => true
  | None => false
  end.

(** [if (values && values.length > 0) conditions.push(inArray(column, values))] *)
Definition inArrayCondition (column : Lead.t -> string) (values : option (list string))
  : list (Lead.t -> bool) :=
  match values with
  | Some vs =>
      if (0 <? List.length vs)%nat then [fun l => existsb (String.eqb (column l)) vs]
      else []
  | None => []
  end.

(** [if (text) conditions.push(ilike(column, `%${text}%`))] *)
Definition ilikeCondition (column : Lead.t -> option string) (text : option string)
  : list (Lead.t -> bool) :=
  match text with
  | Some t => if truthy (Some t) then [fun l => ilike (column l) ("%" ++ t ++ "%")] else []
  | None => []
  end.

(** [if (flag) conditions.push(isNotNull(column))] *)
Definition notNullCondition (column : Lead.t -> option string) (flag : option bool)
  : list (Lead.t -> bool) :=
  match flag with
  | Some true => [fun l => isNotNull (column l)]
  | _ => []
  end.

(** The [conditions] array of [getLeadsByFilters]. *)
Definition filterConditions (filters : ListFilters) : list (Lead.t -> bool) :=
  (inArrayCondition Lead.status (filterStatus filters)
   ++ inArrayCondition Lead.category (filterCategories filters)
   ++ ilikeCondition Lead.city (filterCity filters)
   ++ ilikeCondition Lead.state (filterState filters)
   ++ notNullCondition Lead.domain (filterHasWebsite filters)
   ++ notNullCondition Lead.phone (filterHasPhone filters))%list.

(** The callback of the [.filter] on the leads paired with their scores. *)
Definition scoreWithin (filters : ListFilters) (score : option Score.t) : bool :=
  match score with
  | None => false
  | Some sc =>
      if match filterMinScore filters with
         | Some lo => (Score.total sc <? lo)%Z
         | None => false
         end
      then false
      else if match filterMaxScore filters with
              | Some hi => (hi <? Score.total sc)%Z
              | None => false
              end
      then false
      else true
  end.

Definition getLeadsByFilters (filters : ListFilters) (db : Database) : list Lead.t :=
  let conditions := filterConditions filters in
  let leadsData :=
    if (0 <? List.length conditions)%nat
    then filter (fun l => forallb (fun condition => condition l) conditions) (leads db)
    else leads db in
  if isDefined (filterMinScore filters) || isDefined (filterMaxScore filters)
  then filter (fun lead => scoreWithin filters (getScore (Lead.id lead) db)) leadsData
  else leadsData.

End Storage.

(* ===================================================================== *)
(** ** server/agent/loop.ts *)
(* ===================================================================== *)

Module Loop.
Import JS Tools Storage.

Record AgentConfig := mkAgentConfig {
  provider : string;
  llmApiKey : string;
  placesApiKey : string;
  strictScoring : option bool
}.

Record MissionGoal := mkMissionGoal {
  query : string;
  location : string;
  maxLeads : option Z;
  minScore : option Z
}.

(** An entry of [savedLeads] and of [topLeads]. *)
Record SavedLead := mkSavedLead {
  savedId : nat;
  savedName : string;
  savedScore : Z;
  savedStatus : string
}.

Record AgentResult := mkAgentResult {
  leadsConsidered : nat;
  leadsSaved : nat;
  qualifiedCount : nat;
  junkCount : nat;
  topLeads : list SavedLead;
  completed : bool;
  resultMessage : string
}.

(** The fields of an [Agent] instance, the database, and the list of the
    URLs handed to [auditSite] so far (kept to state what was audited). *)
Record World := mkWorld {
  config : AgentConfig;
  missionId : string;
  savedLeads : list SavedLead;
  processedPlaceIds : list string;
  processedDomains : list string;
  processedPhones : list string;
  skippedDuplicates : Z;
  updatedLeads : Z;
  database : Database;
  audited : list string
}.

(** [new Agent(config, missionId)] over a database. *)
Definition newAgent (cfg : AgentConfig) (mission : string) (db : Database) : World :=
  {| config := cfg; missionId := mission; savedLeads := [];
     processedPlaceIds := []; processedDomains := []; processedPhones := [];
     skippedDuplicates := 0; updatedLeads := 0; database := db; audited := [] |}.

(** An asynchronous method: it runs on the world and returns or throws. *)
Definition M (A : Type) : Type := World -> result A * World.

Definition ret {A : Type} (a : A) : M A := fun w => (Returns a, w).
Definition throw {A : Type} (msg : string) : M A := fun w => (Throws msg, w).
Definition bind {A B : Type} (m : M A) (k : A -> M B) : M B :=
  fun w =>
    match m w with
    | (Returns a, w') => k a w'
    | (Throws msg, w') => (Throws msg, w')
    end.
Definition tryCatch {A : Type} (m : M A) (handler : string -> M A) : M A :=
  fun w =>
    match m w with
    | (Returns a, w') => (Returns a, w')
    | (Throws msg, w') => handler msg w'
    end.
Definition gets {A : Type} (f : World -> A) : M A := fun w => (Returns (f w), w).
Definition modify (f : World -> World) : M unit := fun w => (Returns tt, f w).

Declare Scope mission_scope.
Delimit Scope mission_scope with mission.
Notation "x <- m ;; k" := (bind m (fun x => k))
  (at level 61, m at next level, right associativity) : mission_scope.
Notation "m ;;; k" := (bind m (fun _ => k))
  (at level 61, right associativity) : mission_scope.
Local Open Scope mission_scope.
Local Open Scope Z_scope.

Definition setDatabase (db : Database) (w : World) : World :=
  {| config := config w; missionId := missionId w; savedLeads := savedLeads w;
     processedPlaceIds := processedPlaceIds w; processedDomains := processedDomains w;
     processedPhones := processedPhones w; skippedDuplicates := skippedDuplicates w;
     updatedLeads := updatedLeads w; database := db; audited := audited w |}.

Definition setSavedLeads (l : list SavedLead) (w : World) : World :=
  {| config := config w; missionId := missionId w; savedLeads := l;
     processedPlaceIds := processedPlaceIds w; processedDomains := processedDomains w;
     processedPhones := processedPhones w; skippedDuplicates := skippedDuplicates w;
     updatedLeads := updatedLeads w; database := database w; audited := audited w |}.

Definition setProcessed (ids domains phones : list string) (w : World) : World :=
  {| config := config w; missionId := missionId w; savedLeads := savedLeads w;
     processedPlaceIds := ids; processedDomains := domains;
     processedPhones := phones; skippedDuplicates := skippedDuplicates w;
     updatedLeads := updatedLeads w; database := database w; audited := audited w |}.

Definition setCounters (skipped updated : Z) (w : World) : World :=
  {| config := config w; missionId := missionId w; savedLeads := savedLeads w;
     processedPlaceIds := processedPlaceIds w; processedDomains := processedDomains w;
     processedPhones := processedPhones w; skippedDuplicates := skipped;
     updatedLeads := updated; database := database w; audited := audited w |}.

Definition setAudited (l : list string) (w : World) : World :=
  {| config := config w; missionId := missionId w; savedLeads := savedLeads w;
     processedPlaceIds := processedPlaceIds w; processedDomains := processedDomains w;
     processedPhones := processedPhones w; skippedDuplicates := skippedDuplicates w;
     updatedLeads := updatedLeads w; database := database w; audited := l |}.

(** A JavaScript [Set] of strings, in insertion order. *)
Definition setHas (s : list string) (x : string) : bool := existsb (String.eqb x) s.
Definition setAdd (s : list string) (x : string) : list string :=
  if setHas s x then s else (s ++ [x])%list.

(** [if (v) set.add(v)] *)
Definition addIfTruthy (s : list string) (v : option string) : list string :=
  match v with
  | Some x => if truthy (Some x) then setAdd s x else s
  | None => s
  end.

(** [v && set.has(v)] *)
Definition knownIfTruthy (s : list string) (v : option string) : bool :=
  match v with
  | Some x => truthy (Some x) && setHas s x
  | None => false
  end.

(** A number inside a template literal. *)
Definition showZ (z : Z) : string := NilEmpty.string_of_int (Z.to_int z).
Definition showNat (n : nat) : string := showZ (Z.of_nat n).

Definition logEvent (type message : string) (tool : option string) : M unit :=
  fun w =>
    let e := {| MissionEvent.missionId := missionId w;
                MissionEvent.eventType := type;
                MissionEvent.toolName := tool;
                MissionEvent.message := message |} in
    (Returns tt, setDatabase (createMissionEvent e (database w)) w).

(** What the network gives [getPlaceDetails]: a body with the two fields, a
    response that is not [ok] (the function returns [{}]), or a rejected
    request. *)
Inductive DetailsOutcome : Type :=
| Details (phone website : option string)
| NoDetails
| DetailsRejected.

(** What happens inside the [try] of [auditSite]: the page was fetched and
    analysed, the request was aborted by the timer, or something threw an
    error with the given [message]. *)
Inductive AuditOutcome : Type :=
| Audited (r : AuditResult)
| Aborted
| Errored (message : option string).

Definition auditSite (outcome : AuditOutcome) : AuditResult :=
  match outcome with
  | Audited r => r
  | Aborted => auditSiteFailure "timeout"
  | Errored message =>
      auditSiteFailure
        (match message with
         | Some m => if includes m "Timeout" then "timeout" else "error"
         | None => "error"
         end)
  end.

(** The audit used for a place without a website. *)
Definition noWebsiteAudit : AuditResult :=
  {| httpsOk := false; mobileOk := false; hasBooking := false; schemaOk := false;
     cmsHint := Some "none"; lcpMs := None; cls := None; analyticsPixels := None |}.

Definition withDetails (place : PlaceResult) (d : DetailsOutcome) : PlaceResult :=
  match d with
  | Details p w =>
      {| placeId := placeId place; name := name place; address := address place;
         phone := p; website := w; rating := rating place;
         reviewCount := reviewCount place; category := category place;
         latitude := latitude place; longitude := longitude place |}
  | NoDetails => place
  | DetailsRejected => place
  end.

(** The argument of [saveLead]. *)
Record SaveData := mkSaveData {
  dataPlace : PlaceResult;
  dataAudit : AuditResult;
  dataScore : ScoreResult;
  dataStatus : string
}.

Definition isStatus (st : string) (l : SavedLead) : bool := (savedStatus l =? st)%string.

Definition createResult (considered : nat) (message : string) : M AgentResult :=
  fun w =>
    let qualifiedLeads := filter (isStatus "qualified") (savedLeads w) in
    let junkLeads := filter (isStatus "junk") (savedLeads w) in
    (Returns {| leadsConsidered := considered;
                leadsSaved := List.length (savedLeads w);
                qualifiedCount := List.length qualifiedLeads;
                junkCount := List.length junkLeads;
                topLeads := firstn 5 qualifiedLeads;
                completed := true;
                resultMessage := message |}, w).

Section Mission.

(** The world outside the process: the unmodelled part of the URL parser,
    the Places text search (after the credential guard), the Places details
    request, what happens to the n-th site audit of the mission, and the
    clock at the n-th save. *)
Variable platform : string -> option string.
Variable fetchPlaces : string -> string -> string -> result (list PlaceResult).
Variable fetchDetails : string -> string -> DetailsOutcome.
Variable fetchSite : nat -> string -> AuditOutcome.
Variable clock : nat -> Z.

Definition saveLead (data : SaveData) : M (nat * bool) :=
  fun w =>
    let place := dataPlace data in
    let leadData :=
      {| InsertLead.name := name place;
         InsertLead.domain := website place;
         InsertLead.canonicalDomain := None;
         InsertLead.normalizedPhone := None;
         InsertLead.phone := phone place;
         InsertLead.email := None;
         InsertLead.address := Some (address place);
         InsertLead.city := None;
         InsertLead.state := None;
         InsertLead.postalCode := None;
         InsertLead.latitude := latitude place;
         InsertLead.longitude := longitude place;
         InsertLead.category := category place;
         InsertLead.source := "google_places";
         InsertLead.placeId := Some (placeId place);
         InsertLead.status :=
           Some (if truthy (Some (dataStatus data)) then dataStatus data
                 else if 75 <=? total (dataScore data) then "qualified" else "new") |} in
    match upsertLead platform leadData (clock (List.length (savedLeads w))) (database w) with
    | (Throws msg, db) => (Throws msg, setDatabase db w)
    | (Returns r, db) =>
        let l := lead r in
        let w := setDatabase db w in
        let w := setProcessed (addIfTruthy (processedPlaceIds w) (Lead.placeId l))
                              (addIfTruthy (processedDomains w) (Lead.canonicalDomain l))
                              (addIfTruthy (processedPhones w) (Lead.normalizedPhone l)) w in
        let w := if wasUpdated r
                 then setCounters (skippedDuplicates w) (updatedLeads w + 1) w else w in
        let a := dataAudit data in
        let metricsData :=
          {| Metrics.leadId := Lead.id l;
             Metrics.httpsOk := Some (httpsOk a);
             Metrics.mobileOk := Some (mobileOk a);
             Metrics.schemaOk := Some (schemaOk a);
             Metrics.hasBooking := Some (hasBooking a);
             Metrics.lcpMs := lcpMs a;
             Metrics.cls :=
               match cls a with
               | Some c => if c =? 0 then None else Some (showZ c)
               | None => None
               end;
             Metrics.analyticsPixels := analyticsPixels a;
             Metrics.rating := rating place;
             Metrics.reviewCount := reviewCount place;
             Metrics.cmsHint := cmsHint a |} in
        let w := setDatabase (upsertLeadMetrics metricsData (database w)) w in
        let sc := dataScore data in
        let scoreData :=
          {| Score.leadId := Lead.id l; Score.need := need sc; Score.value := value sc;
             Score.reachability := reachability sc; Score.total := total sc;
             Score.reasons := reasons sc |} in
        let w := setDatabase (upsertScore scoreData (database w)) w in
        (Returns (Lead.id l, isNew r), w)
    end.

(** [await auditSite(url)] inside the loop: the call is recorded. *)
Definition runAudit (url : string) : M AuditResult :=
  fun w =>
    (Returns (auditSite (fetchSite (List.length (audited w)) url)),
     setAudited (audited w ++ [url])%list w).

Definition skipDuplicate : M unit :=
  modify (fun w => setCounters (skippedDuplicates w + 1) (updatedLeads w) w).

Definition issuesOf (a : AuditResult) : list string :=
  ((if negb (httpsOk a) then ["No HTTPS"] else [])
   ++ (if negb (mobileOk a) then ["Not mobile-friendly"] else [])
   ++ (if negb (hasBooking a) then ["No booking system"] else [])
   ++ (if negb (schemaOk a) then ["Missing SEO schema"] else []))%list.

(** The audit step of one iteration.  [auditSite] catches every error
    itself, so the [catch] around the call in the loop is never entered. *)
Definition auditPlace (place : PlaceResult) : M AuditResult :=
  match website place with
  | Some url =>
      if truthy (Some url) then
        logEvent "tool" ("Auditing website: " ++ url) (Some "audit_site") ;;;
        auditResults <- runAudit url ;;
        (if sameText (cmsHint auditResults) "timeout" then
           logEvent "warning" "Website audit timed out - site may be slow" None
         else if sameText (cmsHint auditResults) "error" then
           logEvent "warning" "Website audit failed - site may be unreachable" None
         else
           let issues := issuesOf auditResults in
           if (0 <? List.length issues)%nat
           then logEvent "info" ("Issues found: " ++ String.concat ", " issues) None
           else logEvent "info" "Website looks well-optimized" None) ;;;
        ret auditResults
      else
        logEvent "warning" (name place ++ " has no website - using default audit") None ;;;
        ret noWebsiteAudit
  | None =>
      logEvent "warning" (name place ++ " has no website - using default audit") None ;;;
      ret noWebsiteAudit
  end.

(** The bullet of the message (U+2022) is beyond the 8-bit code units
    of the model; the literal keeps its UTF-8 bytes. *)
Fixpoint logReasons (topReasons : list string) : M unit :=
  match topReasons with
  | [] => ret tt
  | reason :: rest => logEvent "info" ("  • " ++ reason) None ;;; logReasons rest
  end.

(** The [for (const place of placesWithDetails)] loop from a given value
    of [qualifiedCount]; it returns the final value. *)
Fixpoint processPlaces (maxLeads minScore : Z) (places : list PlaceResult)
    (qualifiedCount : Z) : M Z :=
  match places with
  | [] => ret qualifiedCount
  | place :: rest =>
      if maxLeads <=? qualifiedCount then
        logEvent "success"
          ("Reached target of " ++ showZ maxLeads ++ " qualified leads!") None ;;;
        ret qualifiedCount
      else
        let placeDomain := Normalize.normalizeDomain platform (website place) in
        let placePhone := Normalize.normalizePhone (phone place) in
        known <- gets (fun w =>
                   knownIfTruthy (processedPlaceIds w) (Some (placeId place))
                   || knownIfTruthy (processedDomains w) placeDomain
                   || knownIfTruthy (processedPhones w) placePhone) ;;
        if known : bool then
          skipDuplicate ;;; processPlaces maxLeads minScore rest qualifiedCount
        else
          logEvent "info" ("Analyzing: " ++ name place) None ;;;
          auditResults <- auditPlace place ;;
          let contactInfo :=
            {| contactPhone := phone place; contactEmail := None;
               contactWebsite := website place |} in
          let score := scoreLead (name place) auditResults contactInfo (category place) in
          let isQualified := 75 <=? total score in
          let meetsThreshold := (minScore =? 0) || (minScore <=? total score) in
          if meetsThreshold then
            let status := if isQualified then "qualified" else "junk" in
            logEvent (if isQualified then "success" else "info")
              ((if isQualified then "QUALIFIED" else "SAVED (low score)")
               ++ ": " ++ name place ++ " - Score: " ++ showZ (total score) ++ "/100")
              None ;;;
            logEvent "info"
              ("  Need: " ++ showZ (need score) ++ " | Value: " ++ showZ (value score)
               ++ " | Reachability: " ++ showZ (reachability score)) None ;;;
            logReasons (firstn 3 (reasons score)) ;;;
            saved <- saveLead {| dataPlace := place; dataAudit := auditResults;
                                 dataScore := score; dataStatus := status |} ;;
            (if negb (snd saved) then logEvent "info" "  (Updated existing lead)" None
             else ret tt) ;;;
            modify (fun w =>
              setSavedLeads
                (savedLeads w ++ [{| savedId := fst saved; savedName := name place;
                                     savedScore := total score;
                                     savedStatus := status |}])%list w) ;;;
            processPlaces maxLeads minScore rest
              (if isQualified then qualifiedCount + 1 else qualifiedCount)
          else
            logEvent "info"
              ("Skipped: " ++ name place ++ " - Score " ++ showZ (total score)
               ++ " below threshold " ++ showZ minScore) None ;;;
            processPlaces maxLeads minScore rest qualifiedCount
  end.

(** [places.slice(0, 15)] with the details of each place spread over it. *)
Definition enrich (apiKey : string) (places : list PlaceResult) : list PlaceResult :=
  map (fun place => withDetails place (fetchDetails (placeId place) apiKey))
      (firstn 15 places).

(** The truthy values of [f] over the places, in order. *)
Definition collect (f : PlaceResult -> option string) (places : list PlaceResult)
  : list string :=
  flat_map (fun place =>
              match f place with
              | Some v => if truthy (Some v) then [v] else []
              | None => []
              end) places.

(** [allExistingLeads]: the leads found by place id, then the ones found by
    domain or phone whose id was not seen yet. *)
Fixpoint addUnseen (seenIds : list nat) (acc more : list Lead.t) : list Lead.t :=
  match more with
  | [] => acc
  | l :: rest =>
      if existsb (Nat.eqb (Lead.id l)) seenIds then addUnseen seenIds acc rest
      else addUnseen (Lead.id l :: seenIds) (acc ++ [l])%list rest
  end.

Definition markKnown (w : World) (l : Lead.t) : World :=
  setProcessed (addIfTruthy (processedPlaceIds w) (Lead.placeId l))
               (addIfTruthy (processedDomains w) (Lead.canonicalDomain l))
               (addIfTruthy (processedPhones w) (Lead.normalizedPhone l)) w.

Fixpoint logLeads (ls : list SavedLead) : M unit :=
  match ls with
  | [] => ret tt
  | l :: rest =>
      logEvent "info" ("  • " ++ savedName l ++ " (Score: " ++ showZ (savedScore l) ++ ")")
        None ;;;
      logLeads rest
  end.

(** The end of the [try] block, after the loop. *)
Definition summarize (minScore qualifiedCount : Z) (considered : nat) : M AgentResult :=
  saved <- gets savedLeads ;;
  updated <- gets updatedLeads ;;
  skipped <- gets skippedDuplicates ;;
  let junkCount := Z.of_nat (List.length saved) - qualifiedCount in
  let dedupeInfo := if 0 <? updated then ", " ++ showZ updated ++ " updated" else "" in
  let skipInfo :=
    if 0 <? skipped then " (" ++ showZ skipped ++ " duplicates skipped)" else "" in
  let summaryMsg :=
    if (List.length saved =? 0)%nat then
      if 0 <? minScore
      then "Mission complete. No leads met the qualification threshold of "
           ++ showZ minScore ++ "." ++ skipInfo
      else "Mission complete. No businesses found to save." ++ skipInfo
    else if minScore =? 0 then
      "Mission complete! Saved " ++ showNat (List.length saved) ++ " leads ("
      ++ showZ qualifiedCount ++ " qualified, " ++ showZ junkCount ++ " low-score"
      ++ dedupeInfo ++ ")." ++ skipInfo
    else
      "Mission complete! Found " ++ showZ qualifiedCount ++ " qualified leads"
      ++ dedupeInfo ++ "." ++ skipInfo in
  logEvent "success" summaryMsg None ;;;
  (if (0 <? List.length saved)%nat then
     let qualifiedLeads := filter (fun l => 75 <=? savedScore l) saved in
     let junkLeads := filter (fun l => savedScore l <? 75) saved in
     (if (0 <? List.length qualifiedLeads)%nat then
        logEvent "info" "Qualified leads:" None ;;;
        logLeads (firstn 5 qualifiedLeads)
      else ret tt) ;;;
     (if (0 <? List.length junkLeads)%nat && (minScore =? 0) then
        logEvent "info" "Low-score leads (for review):" None ;;;
        logLeads (firstn 3 junkLeads)
      else ret tt)
   else ret tt) ;;;
  createResult considered summaryMsg.

(** The [try] block of [executeMission]. *)
Definition runMission (goal : MissionGoal) (minScore maxLeads : Z) : M AgentResult :=
  logEvent "tool" "Searching for businesses..." (Some "search_places") ;;;
  apiKey <- gets (fun w => placesApiKey (config w)) ;;
  places <- (fun w => (searchPlaces fetchPlaces (query goal) (location goal) apiKey, w)) ;;
  if (List.length places =? 0)%nat then
    logEvent "warning" "No businesses found matching your criteria" None ;;;
    createResult 0 "No businesses found"
  else
    logEvent "success"
      ("Found " ++ showNat (List.length places) ++ " potential businesses") None ;;;
    let placesWithDetails := enrich apiKey places in
    logEvent "info"
      ("Retrieved contact details for " ++ showNat (List.length placesWithDetails)
       ++ " businesses") None ;;;
    let placeIds := collect (fun p => Some (placeId p)) placesWithDetails in
    let domains :=
      collect (fun p => Normalize.normalizeDomain platform (website p)) placesWithDetails in
    let phones :=
      collect (fun p => Normalize.normalizePhone (phone p)) placesWithDetails in
    db <- gets database ;;
    let existingByPlaceId := getLeadsByPlaceIds placeIds db in
    let existingByDomainOrPhone := getLeadsByDomainsOrPhones domains phones db in
    let allExistingLeads :=
      addUnseen (map Lead.id existingByPlaceId) existingByPlaceId existingByDomainOrPhone in
    modify (fun w => fold_left markKnown allExistingLeads w) ;;;
    (if (0 <? List.length allExistingLeads)%nat then
       logEvent "info"
         ("Found " ++ showNat (List.length allExistingLeads)
          ++ " leads already in database - will skip duplicates") None
     else ret tt) ;;;
    qualifiedCount <- processPlaces maxLeads minScore placesWithDetails 0 ;;
    summarize minScore qualifiedCount (List.length placesWithDetails).

(** The [catch] block: the diagnostic events, then [throw error]. *)
Definition missionFailed (message : string) : M AgentResult :=
  let errorMsg := if truthy (Some message) then message else "Unknown error occurred" in
  (if includes errorMsg "REQUEST_DENIED" then
     logEvent "error" "Google Places API access denied. Please check:" None ;;;
     logEvent "error" "  1. Places API is enabled in Google Cloud Console" None ;;;
     logEvent "error" "  2. Billing is set up on your Google Cloud project" None ;;;
     logEvent "error"
       "  3. API key has no IP/referrer restrictions blocking this server" None
   else logEvent "error" ("Mission failed: " ++ errorMsg) None) ;;;
  throw message.

Definition defaultMinScore : Z := 75.
Definition defaultMaxLeads : Z := 10.

Definition minScoreOf (goal : MissionGoal) : Z :=
  match minScore goal with Some v => v | None => defaultMinScore end.
Definition maxLeadsOf (goal : MissionGoal) : Z :=
  match maxLeads goal with Some v => v | None => defaultMaxLeads end.

Definition executeMission (goal : MissionGoal) : M AgentResult :=
  let minScore := minScoreOf goal in
  let maxLeads := maxLeadsOf goal in
  logEvent "info" ("Starting mission: " ++ query goal ++ " in " ++ location goal) None ;;;
  logEvent "info"
    ("Target: Find " ++ showZ maxLeads ++ " leads with score >= " ++ showZ minScore)
    None ;;;
  tryCatch (runMission goal minScore maxLeads) missionFailed.

End Mission.

(** The saved leads of a world that are qualified, and the events logged. *)
Definition qualifiedSaved (w : World) : list SavedLead :=
  filter (isStatus "qualified") (savedLeads w).

Definition eventsOf (w : World) : list MissionEvent.t := missionEvents (database w).

End Loop.

(* ===================================================================== *)
(** * Vocabulary of the properties, and sample data *)
(* ===================================================================== *)

(** ** Scoring *)

Section ScoringVocabulary.
Import JS Tools.
Local Open Scope Z_scope.

(** [Math.round] of the binary64 mean of a sum [n] is the exact
    round-half-up of [n / 3]. *)
Definition meanRoundsExactly (n : Z) : bool :=
  Math_round (PrimFloat.div (Number n) (Number 3)) =? roundHalfUp n 3.

(** What one [if] of [scoreLead] adds to a score. *)
Definition points (cond : bool) (k : Z) : Z := if cond then k else 0.

(** Every technical flag is false and no analytics pixel is recorded. *)
Definition allFlagsFalse (a : AuditResult) : bool :=
  negb (httpsOk a) && negb (mobileOk a) && negb (hasBooking a)
  && negb (schemaOk a) && noAnalytics a.

(** The reasons of the five technical deficiencies, in the order pushed. *)
Definition deficiencyReasons : list string :=
  ["Missing HTTPS security"; "Not mobile optimized"; "No online booking system";
   "Missing structured data"; "No analytics tracking"].

End ScoringVocabulary.

(** ** Fuzzy matching *)

Section FuzzyVocabulary.
Import JS Normalize.

(** Both leads carry the same phone, and it is not the empty string. *)
Definition equalPhones (lead1 lead2 : FuzzyLead) : Prop :=
  exists p, p <> "" /\ fuzzyPhone lead1 = Some p /\ fuzzyPhone lead2 = Some p.

(** Both leads carry a non-empty city and the two differ when lower-cased. *)
Definition differentCities (lead1 lead2 : FuzzyLead) : Prop :=
  exists c1 c2,
    c1 <> "" /\ c2 <> "" /\ fuzzyCity lead1 = Some c1 /\ fuzzyCity lead2 = Some c2
    /\ toLowerCase c1 <> toLowerCase c2.

End FuzzyVocabulary.

(** ** Domains *)

(** The part of the URL parser that is not modelled, when an example never
    reaches it. *)
Definition unmodelled : string -> option string := fun _ => None.

(** A host name that the URL parser leaves as it is: lower-case ASCII without
    forbidden domain code points. *)
Definition hostChar (c : ascii) : bool :=
  (JS.code c <? 128)%N && negb (Url.forbiddenDomainCodePoint c) && negb (JS.isUpper c).

(** A plain host name: made of such characters, not starting with [www.],
    not ending in a number (so not read as an IPv4 address) and without an
    [xn--] label. *)
Definition plainHost (d : string) : bool :=
  JS.allChars hostChar d && negb (JS.startsWith d "www.")
  && negb (Url.endsInNumber d) && negb (Url.hasAceLabel d).

(** Every 8-bit character. *)
Definition allAscii : list ascii := map ascii_of_nat (seq 0 256).

(** ** Missions *)

(** The world after the given events were appended to the mission event
    log and nothing else changed. *)
Definition withEvents (es : list MissionEvent.t) (w : Loop.World) : Loop.World :=
  Loop.setDatabase
    {| Storage.leads := Storage.leads (Loop.database w);
       Storage.nextLeadId := Storage.nextLeadId (Loop.database w);
       Storage.leadMetrics := Storage.leadMetrics (Loop.database w);
       Storage.scores := Storage.scores (Loop.database w);
       Storage.missionEvents := (Storage.missionEvents (Loop.database w) ++ es)%list |}
    w.

(** The event [logEvent] appends in the world [w]. *)
Definition eventOf (w : Loop.World) (type message : string) (tool : option string)
  : MissionEvent.t :=
  {| MissionEvent.missionId := Loop.missionId w;
     MissionEvent.eventType := type;
     MissionEvent.toolName := tool;
     MissionEvent.message := message |}.

(** The four events of a mission whose Places key is rejected by the guard
    of [searchPlaces]. *)
Definition invalidKeyEvents (goal : Loop.MissionGoal) (w : Loop.World)
  : list MissionEvent.t :=
  [ eventOf w "info"
      ("Starting mission: " ++ Loop.query goal ++ " in " ++ Loop.location goal) None;
    eventOf w "info"
      ("Target: Find " ++ Loop.showZ (Loop.maxLeadsOf goal) ++ " leads with score >= "
       ++ Loop.showZ (Loop.minScoreOf goal)) None;
    eventOf w "tool" "Searching for businesses..." (Some "search_places");
    eventOf w "error" ("Mission failed: " ++ Tools.invalidKeyMessage) None ].

(** A method that adds at most [n] qualified leads to [savedLeads],
    whether it returns or throws. *)
Definition savesAtMost {A : Type} (n : nat) (m : Loop.M A) : Prop :=
  forall w,
    (List.length (Loop.qualifiedSaved (snd (m w)))
     <= List.length (Loop.qualifiedSaved w) + n)%nat.

(** A method that leaves [savedLeads] alone. *)
Definition savedStable {A : Type} (m : Loop.M A) : Prop :=
  forall w, Loop.savedLeads (snd (m w)) = Loop.savedLeads w.

(** Oracles for examples: no place, no details, every audit aborted. *)
Definition noPlaces : string -> string -> string -> Tools.result (list Tools.PlaceResult) :=
  fun _ _ _ => Tools.Returns [].
Definition noDetails : string -> string -> Loop.DetailsOutcome :=
  fun _ _ => Loop.NoDetails.
Definition abortedSite : nat -> string -> Loop.AuditOutcome := fun _ _ => Loop.Aborted.
Definition clockZero : nat -> Z := fun _ => 0%Z.

(** A configuration with the given Places key, and a goal. *)
Definition sampleConfig (placesKey : string) : Loop.AgentConfig :=
  {| Loop.provider := "openai"; Loop.llmApiKey := "sk-test";
     Loop.placesApiKey := placesKey; Loop.strictScoring := None |}.

Definition sampleGoal (maxLeads minScore : option Z) : Loop.MissionGoal :=
  {| Loop.query := "dentists"; Loop.location := "San Diego";
     Loop.maxLeads := maxLeads; Loop.minScore := minScore |}.

(** A search result, before the details request. *)
Definition dentist (id name : string) : Tools.PlaceResult :=
  {| Tools.placeId := id; Tools.name := name; Tools.address := "1 Main St";
     Tools.phone := None; Tools.website := None; Tools.rating := None;
     Tools.reviewCount := None; Tools.category := "dentist";
     Tools.latitude := None; Tools.longitude := None |}.

(** Two dentists, each with a phone and a website of its own. *)
Definition twoDentists : string -> string -> string -> Tools.result (list Tools.PlaceResult) :=
  fun _ _ _ => Tools.Returns [dentist "p1" "Smile One"; dentist "p2" "Smile Two"].

(** The details of the places [p1] and [p2]. *)
Definition phoneAndSite : string -> string -> Loop.DetailsOutcome :=
  fun placeId _ =>
    if placeId =? "p1" then Loop.Details (Some "619-555-0001") (Some "https://one.example")
    else Loop.Details (Some "619-555-0002") (Some "https://two.example").

Section MissionSamples.
Import JS Tools Storage Loop.

(** Two audited sites: the first without HTTPS, mobile viewport and
    booking, the second with all three. *)
Definition scenarioSite : nat -> string -> Loop.AuditOutcome :=
  fun _ url =>
    Loop.Audited
      {| httpsOk := negb (url =? "https://one.example");
         mobileOk := negb (url =? "https://one.example");
         hasBooking := negb (url =? "https://one.example");
         schemaOk := true; cmsHint := Some "unknown"; lcpMs := Some 120%Z;
         cls := Some 0%Z; analyticsPixels := Some ["google_analytics"] |}.

(** Two restaurants, A and B. *)
Definition plainPlaces : string -> string -> string -> Tools.result (list Tools.PlaceResult) :=
  fun _ _ _ =>
    Tools.Returns
      [ {| Tools.placeId := "p1"; Tools.name := "A"; Tools.address := "1 Main St";
           Tools.phone := None; Tools.website := None; Tools.rating := None;
           Tools.reviewCount := None; Tools.category := "restaurant";
           Tools.latitude := None; Tools.longitude := None |};
        {| Tools.placeId := "p2"; Tools.name := "B"; Tools.address := "2 Main St";
           Tools.phone := None; Tools.website := None; Tools.rating := None;
           Tools.reviewCount := None; Tools.category := "restaurant";
           Tools.latitude := None; Tools.longitude := None |} ].

End MissionSamples.

(** ** Resolution in the words of the specification *)

Module Resolution.
Import JS.

(** [text] contains [needle], compared case-insensitively. *)
Definition containsCI (text needle : string) : bool :=
  includes (toLowerCase text) (toLowerCase needle).

(** The stored lead's city contains the candidate's city. *)
Definition cityMatches (city : string) (l : Lead.t) : bool :=
  match Lead.city l with
  | Some c => containsCI c city
  | None => false
  end.

(** The stored lead's name contains the first ten characters of the
    candidate's name. *)
Definition sharesNamePrefix (name : string) (l : Lead.t) : bool :=
  containsCI (Lead.name l) (substringTo 10 name).

(** The stored lead has the given place id, canonical domain, phone. *)
Definition hasPlaceId (p : string) (l : Lead.t) : bool := Storage.eqCol (Lead.placeId l) p.
Definition hasDomain (d : string) (l : Lead.t) : bool :=
  Storage.eqCol (Lead.canonicalDomain l) d.
Definition hasPhone (p : string) (l : Lead.t) : bool :=
  Storage.eqCol (Lead.normalizedPhone l) p.

(** The candidate as [isFuzzyMatch] sees it. *)
Definition candidateOf (name : string) (c : Criteria.t) : Normalize.FuzzyLead :=
  {| Normalize.fuzzyName := name;
     Normalize.fuzzyCity := Criteria.city c;
     Normalize.fuzzyPhone := Normalize.normalizePhone (Criteria.phone c) |}.

(** The stored lead satisfies [isFuzzyMatch] against the candidate. *)
Definition fuzzyMatches (me : Normalize.FuzzyLead) (l : Lead.t) : bool :=
  Normalize.isFuzzyMatch me (Storage.fuzzyOfLead l) Normalize.defaultThreshold.

(** A value that is present: neither null nor the empty string. *)
Definition present (o : option string) : option string :=
  match o with
  | Some (String c t) => Some (String c t)
  | _ => None
  end.

Section WithPlatform.
Variable platform : string -> option string.

(** (1) exact match on the place id, when the candidate supplies one *)
Definition byPlaceId (c : Criteria.t) (rows : list Lead.t) : option Lead.t :=
  match present (Criteria.placeId c) with
  | Some p => find (hasPlaceId p) rows
  | None => None
  end.

(** (2) exact match on the canonical domain of the candidate's website *)
Definition byDomain (c : Criteria.t) (rows : list Lead.t) : option Lead.t :=
  match Normalize.normalizeDomain platform (Criteria.domain c) with
  | Some d => find (hasDomain d) rows
  | None => None
  end.

(** (3) with a normalized phone and a name: the first fuzzy match among at
    most 10 stored leads with that phone *)
Definition byPhone (c : Criteria.t) (rows : list Lead.t) : option Lead.t :=
  match Normalize.normalizePhone (Criteria.phone c), present (Criteria.name c) with
  | Some p, Some name =>
      find (fuzzyMatches (candidateOf name c)) (firstn 10 (filter (hasPhone p) rows))
  | _, _ => None
  end.

(** (4) with a name and a city: the first fuzzy match among at most 20
    stored leads selected by [selects name city] *)
Definition byNameAndCity (selects : string -> string -> Lead.t -> bool)
    (c : Criteria.t) (rows : list Lead.t) : option Lead.t :=
  match present (Criteria.name c), present (Criteria.city c) with
  | Some name, Some city =>
      find (fuzzyMatches (candidateOf name c)) (firstn 20 (filter (selects name city) rows))
  | _, _ => None
  end.

(** The first of the steps that finds a lead. *)
Fixpoint firstFound (steps : list (option Lead.t)) : option Lead.t :=
  match steps with
  | [] => None
  | Some l :: _ => Some l
  | None :: rest => firstFound rest
  end.

(** The selection of step (4) as the claim words it: a case-insensitive
    city substring match and a shared name prefix. *)
Definition selectsBySubstring (name city : string) (l : Lead.t) : bool :=
  cityMatches city l && sharesNamePrefix name l.

(** The selection of step (4) as the query words it: two [ILIKE]
    patterns built from the candidate's text. *)
Definition selectsByPattern (name city : string) (l : Lead.t) : bool :=
  Storage.ilike (Lead.city l) ("%" ++ city ++ "%")
  && Storage.ilike (Some (Lead.name l))
       ("%" ++ substringTo (Nat.min 10 (String.length name)) name ++ "%").

(** The four steps in order, the fourth with the given selection. *)
Definition resolveWith (selects : string -> string -> Lead.t -> bool)
    (c : Criteria.t) (rows : list Lead.t) : option Lead.t :=
  firstFound [byPlaceId c rows; byDomain c rows; byPhone c rows;
              byNameAndCity selects c rows].

(** [resolve(candidate)] as the claim states it. *)
Definition resolve (c : Criteria.t) (rows : list Lead.t) : option Lead.t :=
  resolveWith selectsBySubstring c rows.

End WithPlatform.

(** No [LIKE] metacharacter: [%], [_] or the escape character. *)
Definition likeFree (s : string) : bool :=
  allChars (fun ch => negb (Ascii.eqb ch Storage.percent || Ascii.eqb ch Storage.underscore
                            || Ascii.eqb ch Storage.backslash)) s.

Definition likeFreeOpt (o : option string) : bool :=
  match o with
  | Some s => likeFree s
  | None => true
  end.

(** The candidate's city and name carry no [LIKE] metacharacter. *)
Definition wildcardFree (c : Criteria.t) : bool :=
  likeFreeOpt (Criteria.city c) && likeFreeOpt (Criteria.name c).

End Resolution.

(** ** Upserts *)

(** The candidate carries an identity the resolver can find again: a place
    id, a website with a canonical domain, or a phone that normalizes
    together with a name. *)
Definition hasIdentity (platform : string -> option string) (insertLead : InsertLead.t)
  : bool :=
  JS.truthy (InsertLead.placeId insertLead)
  || match Normalize.normalizeDomain platform (InsertLead.domain insertLead) with
     | Some _ => true
     | None => false
     end
  || (match Normalize.normalizePhone (InsertLead.phone insertLead) with
      | Some _ => true
      | None => false
      end && JS.truthy (Some (InsertLead.name insertLead))).

(** The row with another [updatedAt]. *)
Definition withUpdatedAt (now : Z) (l : Lead.t) : Lead.t :=
  {| Lead.id := Lead.id l; Lead.name := Lead.name l; Lead.domain := Lead.domain l;
     Lead.canonicalDomain := Lead.canonicalDomain l;
     Lead.normalizedPhone := Lead.normalizedPhone l; Lead.phone := Lead.phone l;
     Lead.email := Lead.email l; Lead.address := Lead.address l; Lead.city := Lead.city l;
     Lead.state := Lead.state l; Lead.postalCode := Lead.postalCode l;
     Lead.latitude := Lead.latitude l; Lead.longitude := Lead.longitude l;
     Lead.category := Lead.category l; Lead.source := Lead.source l;
     Lead.placeId := Lead.placeId l; Lead.status := Lead.status l;
     Lead.createdAt := Lead.createdAt l; Lead.updatedAt := now |}.

(** A candidate as the mission builds it, and a bare one. *)
Definition candidate (name : string) (placeId website phone city : option string)
  : InsertLead.t :=
  {| InsertLead.name := name; InsertLead.domain := website;
     InsertLead.canonicalDomain := None; InsertLead.normalizedPhone := None;
     InsertLead.phone := phone; InsertLead.email := None; InsertLead.address := None;
     InsertLead.city := city; InsertLead.state := None; InsertLead.postalCode := None;
     InsertLead.latitude := None; InsertLead.longitude := None;
     InsertLead.category := "dentist"; InsertLead.source := "google_places";
     InsertLead.placeId := placeId; InsertLead.status := None |}.

(** A stored lead with the given name and city and nothing else. *)
Definition storedLead (id : nat) (name : string) (city : option string) : Lead.t :=
  {| Lead.id := id; Lead.name := name; Lead.domain := None;
     Lead.canonicalDomain := None; Lead.normalizedPhone := None; Lead.phone := None;
     Lead.email := None; Lead.address := None; Lead.city := city; Lead.state := None;
     Lead.postalCode := None; Lead.latitude := None; Lead.longitude := None;
     Lead.category := "cleaning"; Lead.source := "manual"; Lead.placeId := None;
     Lead.status := "new"; Lead.createdAt := 0%Z; Lead.updatedAt := 0%Z |}.

(** A candidate known by name and city only. *)
Definition criteriaByNameAndCity (name city : string) : Criteria.t :=
  {| Criteria.placeId := None; Criteria.domain := None; Criteria.phone := None;
     Criteria.name := Some name; Criteria.city := Some city |}.

(** The two flags of a result, when the call returned. *)
Definition flagsOf (r : Tools.result Storage.UpsertResult) : option (bool * bool) :=
  match r with
  | Tools.Returns u => Some (Storage.isNew u, Storage.wasUpdated u)
  | Tools.Throws _ => None
  end.

(** The id of the lead of a result, when the call returned. *)
Definition idOf (r : Tools.result Storage.UpsertResult) : option nat :=
  match r with
  | Tools.Returns u => Some (Lead.id (Storage.lead u))
  | Tools.Throws _ => None
  end.

(** ** Phones and names *)

Definition digitsOf (phone : string) : string := JS.filterChars JS.isDigit phone.

Definition isE164 (p : string) : bool :=
  match p with
  | String c d =>
      Ascii.eqb c "+"%char && JS.allChars JS.isDigit d
      && (11 <=? String.length d)%nat && (String.length d <=? 15)%nat
  | EmptyString => false
  end.

(** A character of a normalized name other than the space: [[a-z0-9_]]. *)
Definition nameChar (c : ascii) : bool :=
  JS.isLower c || JS.isDigit c || (JS.code c =? 95)%N.

Definition isBlank (c : ascii) : bool := Ascii.eqb c " "%char.

(** Name characters separated by single spaces; [afterSpace] says that the
    previous character was a space. *)
Fixpoint spaced (afterSpace : bool) (s : string) : bool :=
  match s with
  | EmptyString => true
  | String c t =>
      if isBlank c then negb afterSpace && spaced true t
      else nameChar c && spaced false t
  end.

(** ** The matrix of [levenshteinDistance] *)

(** The entry [matrix[i][j]] of [levenshteinDistance] as a function of the
    two prefixes it stands for, each read backwards: [x] is
    [b.substring(0, i)] and [y] is [a.substring(0, j)], last character
    first.  The equations are the three assignments of the source. *)
Fixpoint matrixEntry (x : list ascii) : list ascii -> nat :=
  match x with
  | [] => fun y => List.length y
  | bc :: x' =>
      fix inRow (y : list ascii) : nat :=
        match y with
        | [] => S (List.length x')
        | ac :: y' =>
            if Ascii.eqb bc ac then matrixEntry x' y'
            else Nat.min (matrixEntry x' y' + 1) (Nat.min (inRow y' + 1) (matrixEntry x' y + 1))
        end
  end.

(** The entries of the row of [x] to the right of the column of [y], along
    the rest [a] of the first string. *)
Fixpoint matrixRow (x y : list ascii) (a : string) : list nat :=
  match a with
  | EmptyString => []
  | String c a' => matrixEntry x (c :: y) :: matrixRow x (c :: y) a'
  end.

Definition backwards (s : string) : list ascii := rev (list_ascii_of_string s).

(** ** URLs *)

(** A character that neither [trim] nor the URL parser's preprocessing
    removes: no C0 control, no white space. *)
Definition visible (c : ascii) : bool := negb (Url.isC0OrSpace c) && negb (JS.isSpace c).

(** What may follow the host in a URL: nothing, or a path, query or
    fragment made of visible characters. *)
Definition urlTail (rest : string) : bool :=
  match rest with
  | EmptyString => true
  | String c _ => Url.endsAuthority c && JS.allChars visible rest
  end.

(** Neither a character that ends the authority nor a colon. *)
Definition inHostPort (c : ascii) : bool := negb (Url.endsAuthority c) && negb (Url.isChar 58 c).

(** ** The store *)

(** Every stored lead's id was generated before [nextLeadId]. *)
Definition idsBelow (db : Storage.Database) : bool :=
  forallb (fun l => (Lead.id l <? Storage.nextLeadId db)%nat) (Storage.leads db).

(** The rows other than the one with the given id. *)
Definition otherLeads (id : nat) (rows : list Lead.t) : list Lead.t :=
  filter (fun l => negb (Lead.id l =? id)%nat) rows.

(** The column [among] the keys asked for. *)
Definition keyAmong (column : option string) (keys : list string) : Prop :=
  exists k, column = Some k /\ In k keys.

(** The row of [scores] that [saveLead] writes for a lead. *)
Definition scoreRow (leadId : nat) (score : Tools.ScoreResult) : Score.t :=
  {| Score.leadId := leadId; Score.need := Tools.need score;
     Score.value := Tools.value score; Score.reachability := Tools.reachability score;
     Score.total := Tools.total score; Score.reasons := Tools.reasons score |}.

(** The four flags of a stored metrics row are those of the audit. *)
Definition flagsStored (m : Metrics.t) (a : Tools.AuditResult) : Prop :=
  Metrics.httpsOk m = Some (Tools.httpsOk a)
  /\ Metrics.mobileOk m = Some (Tools.mobileOk a)
  /\ Metrics.schemaOk m = Some (Tools.schemaOk a)
  /\ Metrics.hasBooking m = Some (Tools.hasBooking a).

(** ** Invariants of the mission *)

(** [m] takes every world to one related to it by [R], whether it returns
    or throws. *)
Definition always {A : Type} (R : Loop.World -> Loop.World -> Prop) (m : Loop.M A) : Prop :=
  forall w, R w (snd (m w)).

(** The entry the loop pushes on [savedLeads] for a lead with this score. *)
Definition savedEntry (id : nat) (name : string) (score : Z) : Loop.SavedLead :=
  {| Loop.savedId := id; Loop.savedName := name; Loop.savedScore := score;
     Loop.savedStatus := if (75 <=? score)%Z then "qualified" else "junk" |}.

(** [l'] is [l] with items added at its end. *)
Definition extends {A : Type} (l l' : list A) : Prop := exists more, l' = (l ++ more)%list.

(** Between two worlds: the event log, the ids of the stored leads, the
    saved leads and the audited URLs were only added to. *)
Definition appendOnly (w w' : Loop.World) : Prop :=
  extends (Loop.eventsOf w) (Loop.eventsOf w')
  /\ extends (map Lead.id (Storage.leads (Loop.database w)))
             (map Lead.id (Storage.leads (Loop.database w')))
  /\ extends (Loop.savedLeads w) (Loop.savedLeads w')
  /\ extends (Loop.audited w) (Loop.audited w').

(** At most [n] more URLs were handed to [auditSite]. *)
Definition auditsWithin (n : nat) (w w' : Loop.World) : Prop :=
  (List.length (Loop.audited w') <= List.length (Loop.audited w) + n)%nat.

(** The [AgentResult] that [createResult] builds from [savedLeads]. *)
Definition summaryOf (considered : nat) (message : string) (saved : list Loop.SavedLead)
  : Loop.AgentResult :=
  {| Loop.leadsConsidered := considered;
     Loop.leadsSaved := List.length saved;
     Loop.qualifiedCount := List.length (filter (Loop.isStatus "qualified") saved);
     Loop.junkCount := List.length (filter (Loop.isStatus "junk") saved);
     Loop.topLeads := firstn 5 (filter (Loop.isStatus "qualified") saved);
     Loop.completed := true;
     Loop.resultMessage := message |}.

(** The status of a saved lead is the one its score commands. *)
Definition statusFollowsScore (l : Loop.SavedLead) : Prop :=
  Loop.savedStatus l = if (75 <=? Loop.savedScore l)%Z then "qualified" else "junk".

(** When [m] returns, it returns the summary of the saved leads, with at
    most 15 places considered. *)
Definition returnsSummary (m : Loop.M Loop.AgentResult) : Prop :=
  forall w r w',
    m w = (Tools.Returns r, w') ->
    exists considered message,
      (considered <= 15)%nat /\ r = summaryOf considered message (Loop.savedLeads w').

(** The three events every mission starts with. *)
Definition openingEvents (goal : Loop.MissionGoal) (w : Loop.World) : list MissionEvent.t :=
  [ eventOf w "info"
      ("Starting mission: " ++ Loop.query goal ++ " in " ++ Loop.location goal) None;
    eventOf w "info"
      ("Target: Find " ++ Loop.showZ (Loop.maxLeadsOf goal) ++ " leads with score >= "
       ++ Loop.showZ (Loop.minScoreOf goal)) None;
    eventOf w "tool" "Searching for businesses..." (Some "search_places") ].

(** The place carries a non-empty place id under which a lead is stored. *)
Definition storedPlace (db : Storage.Database) (place : Tools.PlaceResult) : Prop :=
  Tools.placeId place <> ""
  /\ exists l, In l (Storage.leads db) /\ Lead.placeId l = Some (Tools.placeId place).

(** Between two worlds: the three tables of the leads, the saved leads and
    the audited URLs are the same. *)
Definition sameStore (w w' : Loop.World) : Prop :=
  Storage.leads (Loop.database w') = Storage.leads (Loop.database w)
  /\ Storage.leadMetrics (Loop.database w') = Storage.leadMetrics (Loop.database w)
  /\ Storage.scores (Loop.database w') = Storage.scores (Loop.database w)
  /\ Loop.savedLeads w' = Loop.savedLeads w
  /\ Loop.audited w' = Loop.audited w.

(** The place ids known in [w] are known in [w']. *)
Definition keepsKnown (w w' : Loop.World) : Prop :=
  forall p, Loop.setHas (Loop.processedPlaceIds w) p = true ->
            Loop.setHas (Loop.processedPlaceIds w') p = true.

(** From a world satisfying [P], [m] returns and leaves the store as it
    was, forgetting no place id. *)
Definition quietFrom {A : Type} (P : Loop.World -> Prop) (m : Loop.M A) : Prop :=
  forall w, P w ->
    (exists a, fst (m w) = Tools.Returns a)
    /\ sameStore w (snd (m w)) /\ keepsKnown w (snd (m w)).

Definition anyWorld : Loop.World -> Prop := fun _ => True.

(** Every place of the list is known by its place id. *)
Definition allKnown (places : list Tools.PlaceResult) (w : Loop.World) : Prop :=
  Forall (fun place =>
            Loop.knownIfTruthy (Loop.processedPlaceIds w) (Some (Tools.placeId place)) = true)
         places.

(** ** Sample data of the store and the mission *)

Definition storedWithPlace (id : nat) (name placeId : string) : Lead.t :=
  {| Lead.id := id; Lead.name := name; Lead.domain := None;
     Lead.canonicalDomain := None; Lead.normalizedPhone := None; Lead.phone := None;
     Lead.email := None; Lead.address := None; Lead.city := None; Lead.state := None;
     Lead.postalCode := None; Lead.latitude := None; Lead.longitude := None;
     Lead.category := "dentist"; Lead.source := "google_places";
     Lead.placeId := Some placeId; Lead.status := "qualified";
     Lead.createdAt := 0%Z; Lead.updatedAt := 0%Z |}.

Definition knownDentists : Storage.Database :=
  {| Storage.leads := [storedWithPlace 0 "Smile One" "p1"; storedWithPlace 1 "Smile Two" "p2"];
     Storage.nextLeadId := 2;
     Storage.leadMetrics := [];
     Storage.scores :=
       [ {| Score.leadId := 0; Score.need := 100%Z; Score.value := 80%Z;
            Score.reachability := 70%Z; Score.total := 83%Z; Score.reasons := [] |} ];
     Storage.missionEvents := [] |}.

Definition deniedPlaces : string -> string -> string -> Tools.result (list Tools.PlaceResult) :=
  fun _ _ _ => Tools.Throws "Google Places API REQUEST_DENIED: The provided API key is invalid.".

Definition phoneOnly (phone : string) : Tools.ContactInfo :=
  {| Tools.contactPhone := Some phone; Tools.contactEmail := None;
     Tools.contactWebsite := None |}.

Definition scoreAtLeast (lo : Z) : Storage.ListFilters :=
  {| Storage.filterMinScore := Some lo; Storage.filterMaxScore := None;
     Storage.filterStatus := None; Storage.filterCategories := None;
     Storage.filterCity := None; Storage.filterState := None;
     Storage.filterHasWebsite := None; Storage.filterHasPhone := None |}.

Definition saveOf (place : Tools.PlaceResult) (contact : Tools.ContactInfo) : Loop.SaveData :=
  {| Loop.dataPlace := place; Loop.dataAudit := Loop.noWebsiteAudit;
     Loop.dataScore := Tools.scoreLead (Tools.name place) Loop.noWebsiteAudit contact
                         (Tools.category place);
     Loop.dataStatus := "junk" |}.

(* ===================================================================== *)
(** * Properties *)
(* ===================================================================== *)

(** ** Scoring engine ([scoreLead]) *)

Section ScoringFacts.
Import JS Tools.
Local Open Scope Z_scope.

(** [roundHalfUp p q] is the integer nearest to [p / q], the upper one of
    the two when [p / q] lies halfway. *)
Lemma roundHalfUp_nearest (p q : Z) :
  0 < q ->
  2 * q * roundHalfUp p q - q <= 2 * p < 2 * q * roundHalfUp p q + q.
Proof.
  intros Hq. unfold roundHalfUp.
  pose proof (Z.div_mod (2 * p + q) (2 * q) ltac:(lia)) as Hdm.
  pose proof (Z.mod_pos_bound (2 * p + q) (2 * q) ltac:(lia)) as Hb.
  lia.
Qed.

Lemma meanRoundsExactly_upto_300 :
  forallb meanRoundsExactly (map Z.of_nat (seq 0 301)) = true.
Proof. vm_compute. reflexivity. Qed.

(** The binary64 quotient by 3, rounded by [Math.round], is the exact
    round-half-up of the mean for every sum the three scores can reach. *)
Lemma Math_round_third (n : Z) :
  0 <= n <= 300 ->
  Math_round (PrimFloat.div (Number n) (Number 3)) = roundHalfUp n 3.
Proof.
  intros Hn.
  pose proof meanRoundsExactly_upto_300 as H.
  rewrite forallb_forall in H.
  specialize (H n).
  apply Z.eqb_eq. apply H.
  apply in_map_iff. exists (Z.to_nat n). split; [lia|].
  apply in_seq. lia.
Qed.

Lemma fst_pushIf cond k reason acc :
  fst (pushIf cond k reason acc) = fst acc + points cond k.
Proof. destruct cond; cbn; lia. Qed.

Lemma snd_pushIf cond k reason acc :
  snd (pushIf cond k reason acc) = (snd acc ++ if cond then [reason] else [])%list.
Proof. destruct cond; cbn; [reflexivity | now rewrite app_nil_r]. Qed.

Lemma points_range cond k : 0 <= k -> 0 <= points cond k <= k.
Proof. destruct cond; cbn; lia. Qed.

Lemma scoreLead_need businessName auditResults contactInfo category :
  need (scoreLead businessName auditResults contactInfo category)
  = points (negb (httpsOk auditResults)) 25
    + points (negb (mobileOk auditResults)) 25
    + points (negb (hasBooking auditResults)) 30
    + points (negb (schemaOk auditResults)) 10
    + points (noAnalytics auditResults) 10.
Proof. unfold scoreLead. cbn [need]. rewrite !fst_pushIf. cbn [fst]. lia. Qed.

Lemma scoreLead_value businessName auditResults contactInfo category :
  value (scoreLead businessName auditResults contactInfo category)
  = 50
    + points (existsb (fun cat => includes (toLowerCase category) cat)
                      highValueCategories) 30
    + points (cmsRecognised auditResults) 20.
Proof. unfold scoreLead. cbn [value]. rewrite !fst_pushIf. cbn [fst]. lia. Qed.

Lemma scoreLead_reachability businessName auditResults contactInfo category :
  reachability (scoreLead businessName auditResults contactInfo category)
  = points (truthy (contactPhone contactInfo)) 40
    + points (truthy (contactEmail contactInfo)) 30
    + points (truthy (contactWebsite contactInfo)) 30.
Proof. unfold scoreLead. cbn [reachability]. rewrite !fst_pushIf. cbn [fst]. lia. Qed.

Lemma scoreLead_total_eq businessName auditResults contactInfo category :
  let r := scoreLead businessName auditResults contactInfo category in
  total r =
  Math_round (PrimFloat.div (Number (need r + value r + reachability r)) (Number 3)).
Proof. reflexivity. Qed.

(** Each dimension stays within its range. *)
Lemma scoreLead_ranges businessName auditResults contactInfo category :
  let r := scoreLead businessName auditResults contactInfo category in
  0 <= need r <= 100 /\ 50 <= value r <= 100 /\ 0 <= reachability r <= 100.
Proof.
  cbv zeta. rewrite scoreLead_need, scoreLead_value, scoreLead_reachability.
  pose proof (points_range (negb (httpsOk auditResults)) 25).
  pose proof (points_range (negb (mobileOk auditResults)) 25).
  pose proof (points_range (negb (hasBooking auditResults)) 30).
  pose proof (points_range (negb (schemaOk auditResults)) 10).
  pose proof (points_range (noAnalytics auditResults) 10).
  pose proof (points_range
    (existsb (fun cat => includes (toLowerCase category) cat) highValueCategories) 30).
  pose proof (points_range (cmsRecognised auditResults) 20).
  pose proof (points_range (truthy (contactPhone contactInfo)) 40).
  pose proof (points_range (truthy (contactEmail contactInfo)) 30).
  pose proof (points_range (truthy (contactWebsite contactInfo)) 30).
  lia.
Qed.

(** C1. For every audit result, contact record and category, the total
    that [scoreLead] returns is the round-half-up of
    (need + value + reachability) / 3, and it is an integer between 0 and
    100. *)
Theorem scoreLead_total_is_rounded_mean :
  forall (businessName : string) (auditResults : AuditResult)
         (contactInfo : ContactInfo) (category : string),
    let r := scoreLead businessName auditResults contactInfo category in
    total r = roundHalfUp (need r + value r + reachability r) 3
    /\ 0 <= total r <= 100.
Proof.
  intros businessName auditResults contactInfo category r.
  pose proof (scoreLead_ranges businessName auditResults contactInfo category) as Hr.
  pose proof (scoreLead_total_eq businessName auditResults contactInfo category) as Ht.
  cbv zeta in Hr, Ht. fold r in Hr, Ht.
  destruct Hr as (Hn & Hv & Hre).
  assert (Hsum : 0 <= need r + value r + reachability r <= 300) by lia.
  rewrite Ht, (Math_round_third _ Hsum).
  split; [reflexivity|].
  pose proof (roundHalfUp_nearest (need r + value r + reachability r) 3 ltac:(lia)).
  lia.
Qed.

(** The audit of a place without a website, and the audit [auditSite]
    returns when the request is aborted or fails, have no flag set. *)
Lemma noWebsiteAudit_allFlagsFalse : allFlagsFalse Loop.noWebsiteAudit = true.
Proof. reflexivity. Qed.

Lemma auditSite_failure_allFlagsFalse (outcome : Loop.AuditOutcome) :
  (forall r, outcome <> Loop.Audited r) ->
  allFlagsFalse (Loop.auditSite outcome) = true.
Proof.
  intros H. destruct outcome as [r | | message]; [now elim (H r) | reflexivity | reflexivity].
Qed.

(** C8. When every audit flag is false and no analytics pixel is recorded
    (the audit of a place without a website, of a timed-out and of a failed
    site audit), [scoreLead] gives a need score of exactly 100 and the five
    deficiency reasons come first in its reasons, in order. *)
Theorem degraded_audit_need_is_100 :
  forall (businessName : string) (auditResults : AuditResult)
         (contactInfo : ContactInfo) (category : string),
    allFlagsFalse auditResults = true ->
    let r := scoreLead businessName auditResults contactInfo category in
    need r = 100 /\ firstn 5 (reasons r) = deficiencyReasons.
Proof.
  intros businessName auditResults contactInfo category H.
  unfold allFlagsFalse in H.
  repeat (apply andb_prop in H; destruct H as [H ?]).
  cbv zeta. split.
  - rewrite scoreLead_need.
    repeat match goal with [ E : _ = true |- _ ] => rewrite E; clear E end.
    reflexivity.
  - unfold scoreLead. cbn [reasons]. rewrite !snd_pushIf. cbn [snd].
    repeat match goal with [ E : _ = true |- _ ] => rewrite E; clear E end.
    cbn [app]. reflexivity.
Qed.

Lemma degraded_audit_need_is_100_witness :
  allFlagsFalse Loop.noWebsiteAudit = true
  /\ need (scoreLead "Acme" Loop.noWebsiteAudit (mkContactInfo None None None) "bar") = 100
  /\ firstn 5 (reasons (scoreLead "Acme" Loop.noWebsiteAudit
                          (mkContactInfo None None None) "bar")) = deficiencyReasons.
Proof.
  split; [reflexivity|].
  exact (degraded_audit_need_is_100 "Acme" Loop.noWebsiteAudit
           (mkContactInfo None None None) "bar" eq_refl).
Defined.

(** C9. [scoreLead] does not look at [businessName]: two calls that differ
    only in it return the same need, value, reachability, total and
    reasons. *)
Theorem scoreLead_ignores_businessName :
  forall (businessName1 businessName2 : string) (auditResults : AuditResult)
         (contactInfo : ContactInfo) (category : string),
    scoreLead businessName1 auditResults contactInfo category
    = scoreLead businessName2 auditResults contactInfo category.
Proof. intros. reflexivity. Qed.

End ScoringFacts.

(** ** Identity normaliser: phones and fuzzy matching *)

Section StringFacts.
Import JS.

Lemma allChars_filterChars (p : ascii -> bool) (s : string) :
  allChars p (filterChars p s) = true.
Proof.
  induction s as [|c t IH]; cbn; [reflexivity|].
  destruct (p c) eqn:E; cbn; [rewrite E|]; exact IH.
Qed.

Lemma filterChars_all (p : ascii -> bool) (s : string) :
  allChars p s = true -> filterChars p s = s.
Proof.
  induction s as [|c t IH]; cbn; [reflexivity|].
  intros H. apply andb_prop in H. destruct H as [Hc Ht].
  rewrite Hc, (IH Ht). reflexivity.
Qed.

Lemma trimEnd_nonempty (c : ascii) (t : string) :
  isSpace c = false -> trimEnd (String c t) <> EmptyString.
Proof.
  intros Hc. cbn. destruct (trimEnd t); [rewrite Hc|]; discriminate.
Qed.

Lemma trim_nonempty (c : ascii) (t : string) :
  isSpace c = false -> (trim (String c t) =? "") = false.
Proof.
  intros Hc. unfold trim. cbn [trimStart]. rewrite Hc.
  apply String.eqb_neq. now apply trimEnd_nonempty.
Qed.

End StringFacts.

Section PhoneFacts.
Import JS Normalize.

Lemma normalizePhone_digits (d : string) :
  allChars isDigit d = true ->
  normalizePhone (Some (String "+"%char d)) =
    if (String.length d =? 10)%nat then Some (String "+"%char (String "1"%char d))
    else if (String.length d =? 11)%nat && startsWith d "1" then Some (String "+"%char d)
    else if (10 <=? String.length d)%nat && (String.length d <=? 15)%nat
    then Some (String "+"%char d) else None.
Proof.
  intros H. unfold normalizePhone.
  replace (truthy (Some (String "+"%char d))) with true by reflexivity.
  rewrite trim_nonempty by reflexivity.
  cbn [negb orb].
  change (filterChars isDigit (String "+"%char d)) with (filterChars isDigit d).
  rewrite (filterChars_all isDigit d H). reflexivity.
Qed.

(** C10. [normalizePhone] is idempotent on its non-null outputs: when
    [normalizePhone(p)] is not null, normalising it again returns it
    unchanged. *)
Theorem normalizePhone_idempotent :
  forall (phone : option string) (normalized : string),
    normalizePhone phone = Some normalized ->
    normalizePhone (normalizePhone phone) = normalizePhone phone.
Proof.
  intros phone normalized H. rewrite H.
  unfold normalizePhone in H.
  destruct phone as [p|]; [|discriminate].
  destruct (negb (truthy (Some p)) || (trim p =? "")); [discriminate|].
  pose proof (allChars_filterChars isDigit p) as Hd.
  set (digits := filterChars isDigit p) in *.
  cbn [append] in H.
  destruct (String.length digits =? 10)%nat eqn:E10.
  - injection H as <-.
    rewrite normalizePhone_digits by (cbn; exact Hd).
    cbn [String.length]. apply Nat.eqb_eq in E10. rewrite E10.
    clearbody digits. destruct digits; [discriminate E10 | reflexivity].
  - destruct ((String.length digits =? 11)%nat && startsWith digits "1") eqn:E11.
    + injection H as <-.
      rewrite (normalizePhone_digits digits Hd), E10, E11. reflexivity.
    + destruct ((10 <=? String.length digits)%nat && (String.length digits <=? 15)%nat)
        eqn:E15; [|discriminate].
      injection H as <-.
      rewrite (normalizePhone_digits digits Hd), E10, E11, E15. reflexivity.
Qed.

Lemma normalizePhone_idempotent_witness :
  normalizePhone (Some "619-233-3338") = Some "+16192333338"
  /\ normalizePhone (normalizePhone (Some "619-233-3338"))
     = normalizePhone (Some "619-233-3338").
Proof.
  split; [reflexivity|].
  exact (normalizePhone_idempotent (Some "619-233-3338") "+16192333338" eq_refl).
Defined.

(** The examples of the specification. *)
Example normalizePhone_examples :
  normalizePhone (Some "619-233-3338") = Some "+16192333338"
  /\ normalizePhone (Some "1-619-233-3338") = Some "+16192333338"
  /\ normalizePhone (Some "abc") = None.
Proof. repeat split. Qed.

End PhoneFacts.

Section FuzzyFacts.
Import JS Normalize.

Lemma truthy_nonempty (o : option string) :
  truthy o = true <-> exists s, s <> "" /\ o = Some s.
Proof.
  split.
  - destruct o as [[|c t]|]; cbn; try discriminate.
    intros _. exists (String c t). split; [discriminate | reflexivity].
  - intros (s & Hs & ->). destruct s; [now elim Hs | reflexivity].
Qed.

Lemma phones_test_iff (lead1 lead2 : FuzzyLead) :
  truthy (fuzzyPhone lead1) && truthy (fuzzyPhone lead2)
  && sameString (fuzzyPhone lead1) (fuzzyPhone lead2) = true
  <-> equalPhones lead1 lead2.
Proof.
  unfold equalPhones. split.
  - intros H. apply andb_prop in H. destruct H as [H Hs].
    apply andb_prop in H. destruct H as [H1 H2].
    apply truthy_nonempty in H1. destruct H1 as (p & Hp & E1).
    rewrite E1 in Hs. destruct (fuzzyPhone lead2) as [q|]; [|discriminate].
    cbn in Hs. apply String.eqb_eq in Hs. subst q. now exists p.
  - intros (p & Hp & -> & ->).
    assert (Ht : truthy (Some p) = true) by (apply truthy_nonempty; now exists p).
    rewrite Ht. cbn. apply String.eqb_refl.
Qed.

Lemma cities_test_iff (lead1 lead2 : FuzzyLead) :
  truthy (fuzzyCity lead1) && truthy (fuzzyCity lead2)
  && negb (sameLowerCase (fuzzyCity lead1) (fuzzyCity lead2)) = true
  <-> differentCities lead1 lead2.
Proof.
  unfold differentCities. split.
  - intros H. apply andb_prop in H. destruct H as [H Hs].
    apply andb_prop in H. destruct H as [H1 H2].
    apply truthy_nonempty in H1. destruct H1 as (c1 & Hc1 & E1).
    apply truthy_nonempty in H2. destruct H2 as (c2 & Hc2 & E2).
    exists c1, c2. rewrite E1, E2 in Hs. cbn in Hs.
    apply negb_true_iff, String.eqb_neq in Hs. now repeat split.
  - intros (c1 & c2 & Hc1 & Hc2 & -> & -> & Hne).
    assert (Ht1 : truthy (Some c1) = true) by (apply truthy_nonempty; now exists c1).
    assert (Ht2 : truthy (Some c2) = true) by (apply truthy_nonempty; now exists c2).
    rewrite Ht1, Ht2. cbn. apply negb_true_iff, String.eqb_neq. exact Hne.
Qed.

(** C5 (as amended). For every pair of leads and every threshold,
    [isFuzzyMatch] is true at once when both leads have the same non-empty
    normalized phone; otherwise it is false at once when both have a
    non-empty city and the two differ case-insensitively; otherwise it is
    true exactly when the similarity of the names is at least the
    threshold. *)
Theorem isFuzzyMatch_precedence :
  forall (lead1 lead2 : FuzzyLead) (threshold : float),
    (equalPhones lead1 lead2 -> isFuzzyMatch lead1 lead2 threshold = true)
    /\ (~ equalPhones lead1 lead2 -> differentCities lead1 lead2 ->
        isFuzzyMatch lead1 lead2 threshold = false)
    /\ (~ equalPhones lead1 lead2 -> ~ differentCities lead1 lead2 ->
        isFuzzyMatch lead1 lead2 threshold
        = PrimFloat.leb threshold (nameSimilarity (fuzzyName lead1) (fuzzyName lead2))).
Proof.
  intros lead1 lead2 threshold.
  pose proof (phones_test_iff lead1 lead2) as Hp.
  pose proof (cities_test_iff lead1 lead2) as Hc.
  unfold isFuzzyMatch.
  destruct (truthy (fuzzyPhone lead1) && truthy (fuzzyPhone lead2)
            && sameString (fuzzyPhone lead1) (fuzzyPhone lead2)).
  - split; [reflexivity|]. split; intros Hn; elim Hn; now apply Hp.
  - split; [intros H; apply Hp in H; discriminate|].
    destruct (truthy (fuzzyCity lead1) && truthy (fuzzyCity lead2)
              && negb (sameLowerCase (fuzzyCity lead1) (fuzzyCity lead2))).
    + split; [reflexivity|]. intros _ Hn. elim Hn. now apply Hc.
    + split; [intros _ H; apply Hc in H; discriminate | reflexivity].
Qed.

Lemma isFuzzyMatch_precedence_witness :
  let a := mkFuzzyLead "Smile Dental" (Some "Reno") (Some "+16195550001") in
  let b := mkFuzzyLead "Other Name" (Some "Austin") (Some "+16195550001") in
  equalPhones a b /\ isFuzzyMatch a b defaultThreshold = true.
Proof.
  assert (H : equalPhones
                (mkFuzzyLead "Smile Dental" (Some "Reno") (Some "+16195550001"))
                (mkFuzzyLead "Other Name" (Some "Austin") (Some "+16195550001"))).
  { exists "+16195550001". repeat split. discriminate. }
  split; [exact H|].
  exact (proj1 (isFuzzyMatch_precedence _ _ defaultThreshold) H).
Defined.

(** C5 as stated fails: two leads whose normalized phones are equal and
    not null (both the empty string) are not matched at once; the names
    decide, and these differ. *)
Lemma isFuzzyMatch_empty_phones_not_immediate :
  let a := mkFuzzyLead "a" None (Some "") in
  let b := mkFuzzyLead "zzzz" None (Some "") in
  fuzzyPhone a = fuzzyPhone b /\ fuzzyPhone a <> None
  /\ isFuzzyMatch a b defaultThreshold = false.
Proof. cbv zeta. split; [reflexivity|]. split; [discriminate|]. vm_compute. reflexivity. Qed.

End FuzzyFacts.

(** ** Identity normaliser: domains *)

Section CharFacts.
Import JS.

Lemma forall_ascii (P : ascii -> bool) :
  forallb P allAscii = true -> forall c, P c = true.
Proof.
  intros H c. rewrite forallb_forall in H. apply H.
  unfold allAscii. apply in_map_iff. exists (nat_of_ascii c). split.
  - apply ascii_nat_embedding.
  - apply in_seq. pose proof (nat_ascii_bounded c). lia.
Qed.

(** [p c] implies [q c] for every character, by enumeration. *)
Lemma char_implies (p q : ascii -> bool) :
  forallb (fun c => implb (p c) (q c)) allAscii = true ->
  forall c, p c = true -> q c = true.
Proof.
  intros H c Hp. pose proof (forall_ascii _ H c) as Hc. cbv beta in Hc.
  now rewrite Hp in Hc.
Qed.

Lemma hostChar_not_space : forall c, hostChar c = true -> negb (isSpace c) = true.
Proof.
  apply (char_implies hostChar (fun c => negb (isSpace c))).
  vm_compute. reflexivity.
Qed.

Lemma hostChar_not_C0 : forall c, hostChar c = true -> negb (Url.isC0OrSpace c) = true.
Proof.
  apply (char_implies hostChar (fun c => negb (Url.isC0OrSpace c))).
  vm_compute. reflexivity.
Qed.

Lemma hostChar_not_tab : forall c, hostChar c = true -> negb (Url.isTabOrNewline c) = true.
Proof.
  apply (char_implies hostChar (fun c => negb (Url.isTabOrNewline c))).
  vm_compute. reflexivity.
Qed.

Lemma hostChar_not_slash : forall c, hostChar c = true -> negb (Url.isSlash c) = true.
Proof.
  apply (char_implies hostChar (fun c => negb (Url.isSlash c))).
  vm_compute. reflexivity.
Qed.

Lemma hostChar_in_authority :
  forall c, hostChar c = true -> negb (Url.endsAuthority c) = true.
Proof.
  apply (char_implies hostChar (fun c => negb (Url.endsAuthority c))).
  vm_compute. reflexivity.
Qed.

Lemma hostChar_no_credentials :
  forall c, hostChar c = true ->
    negb (Url.isChar 64 c || Url.isChar 91 c || Url.isChar 93 c) = true.
Proof.
  apply (char_implies hostChar (fun c => negb (Url.isChar 64 c || Url.isChar 91 c || Url.isChar 93 c))).
  vm_compute. reflexivity.
Qed.

Lemma hostChar_not_colon : forall c, hostChar c = true -> negb (Url.isChar 58 c) = true.
Proof.
  apply (char_implies hostChar (fun c => negb (Url.isChar 58 c))).
  vm_compute. reflexivity.
Qed.

Lemma hostChar_simple :
  forall c, hostChar c = true -> (code c <? 128)%N && negb (Url.isChar 37 c) = true.
Proof.
  apply (char_implies hostChar (fun c => (code c <? 128)%N && negb (Url.isChar 37 c))).
  vm_compute. reflexivity.
Qed.

Lemma hostChar_allowed :
  forall c, hostChar c = true -> negb (Url.forbiddenDomainCodePoint c) = true.
Proof.
  apply (char_implies hostChar (fun c => negb (Url.forbiddenDomainCodePoint c))).
  vm_compute. reflexivity.
Qed.

Lemma hostChar_lower : forall c, hostChar c = true -> Ascii.eqb (lowerChar c) c = true.
Proof.
  apply (char_implies hostChar (fun c => Ascii.eqb (lowerChar c) c)).
  vm_compute. reflexivity.
Qed.

Lemma lowerChar_dot : forall c, Ascii.eqb (lowerChar c) Url.dot = Ascii.eqb c Url.dot.
Proof.
  intros c.
  pose proof (forall_ascii
                (fun c => Bool.eqb (Ascii.eqb (lowerChar c) Url.dot) (Ascii.eqb c Url.dot))
                ltac:(vm_compute; reflexivity) c) as H.
  cbv beta in H. now apply Bool.eqb_prop in H.
Qed.

End CharFacts.

Section DomainFacts.
Import JS Url Normalize.

Lemma allChars_impl (p q : ascii -> bool) (s : string) :
  (forall c, p c = true -> q c = true) ->
  allChars p s = true -> allChars q s = true.
Proof.
  intros Hpq. induction s as [|c t IH]; cbn; [reflexivity|].
  intros H. apply andb_prop in H. destruct H as [Hc Ht].
  now rewrite (Hpq c Hc), (IH Ht).
Qed.

Lemma allChars_app (p : ascii -> bool) (s t : string) :
  allChars p (s ++ t) = allChars p s && allChars p t.
Proof.
  induction s as [|c s IH]; cbn; [reflexivity|].
  now rewrite IH, andb_assoc.
Qed.

Lemma prefix_allChars (p : ascii -> bool) (pre s : string) :
  String.prefix pre s = true -> allChars p s = true -> allChars p pre = true.
Proof.
  revert s. induction pre as [|a pre IH]; intros s; [reflexivity|].
  destruct s as [|b s]; cbn; [discriminate|].
  destruct (ascii_dec a b) as [->|]; [|discriminate].
  intros Hpre H. apply andb_prop in H. destruct H as [Hb Hs].
  now rewrite Hb, (IH s Hpre Hs).
Qed.

Lemma toLowerCase_plain (s : string) :
  allChars hostChar s = true -> toLowerCase s = s.
Proof.
  induction s as [|c t IH]; cbn; [reflexivity|].
  intros H. apply andb_prop in H. destruct H as [Hc Ht].
  apply hostChar_lower, Ascii.eqb_eq in Hc. now rewrite Hc, (IH Ht).
Qed.

Lemma trimStart_plain (s : string) :
  allChars (fun c => negb (isSpace c)) s = true -> trimStart s = s.
Proof.
  destruct s as [|c t]; cbn; [reflexivity|].
  intros H. apply andb_prop in H. destruct H as [Hc _].
  apply negb_true_iff in Hc. now rewrite Hc.
Qed.

Lemma trimEnd_plain (s : string) :
  allChars (fun c => negb (isSpace c)) s = true -> trimEnd s = s.
Proof.
  induction s as [|c t IH]; cbn; [reflexivity|].
  intros H. apply andb_prop in H. destruct H as [Hc Ht].
  apply negb_true_iff in Hc. rewrite (IH Ht), Hc. now destruct t.
Qed.

Lemma trim_plain (s : string) : allChars hostChar s = true -> trim s = s.
Proof.
  intros H. apply (allChars_impl _ _ _ hostChar_not_space) in H.
  unfold trim. now rewrite trimStart_plain, trimEnd_plain.
Qed.

Lemma stripTrailing_plain (s : string) :
  allChars (fun c => negb (isC0OrSpace c)) s = true -> stripTrailing s = s.
Proof.
  induction s as [|c t IH]; cbn; [reflexivity|].
  intros H. apply andb_prop in H. destruct H as [Hc Ht].
  apply negb_true_iff in Hc. rewrite (IH Ht), Hc. now destruct t.
Qed.

Lemma takeUntil_all (stop : ascii -> bool) (s : string) :
  allChars (fun c => negb (stop c)) s = true -> takeUntil stop s = s.
Proof.
  induction s as [|c t IH]; cbn; [reflexivity|].
  intros H. apply andb_prop in H. destruct H as [Hc Ht].
  apply negb_true_iff in Hc. now rewrite Hc, (IH Ht).
Qed.

Lemma afterFirst_all (stop : ascii -> bool) (s : string) :
  allChars (fun c => negb (stop c)) s = true -> afterFirst stop s = None.
Proof.
  induction s as [|c t IH]; cbn; [reflexivity|].
  intros H. apply andb_prop in H. destruct H as [Hc Ht].
  apply negb_true_iff in Hc. now rewrite Hc, (IH Ht).
Qed.

Lemma dropWhile_all (p : ascii -> bool) (s : string) :
  allChars (fun c => negb (p c)) s = true -> dropWhile p s = s.
Proof.
  destruct s as [|c t]; cbn; [reflexivity|].
  intros H. apply andb_prop in H. destruct H as [Hc _].
  apply negb_true_iff in Hc. now rewrite Hc.
Qed.

(** A plain host does not start with a scheme. *)
Lemma hasHttpScheme_plain (d : string) :
  allChars hostChar d = true -> hasHttpScheme d = false.
Proof.
  intros H. unfold hasHttpScheme, afterScheme, afterPrefixCI, startsWith.
  rewrite (toLowerCase_plain d H).
  destruct (String.prefix "https://" d) eqn:E1.
  - now pose proof (prefix_allChars hostChar _ _ E1 H).
  - destruct (String.prefix "http://" d) eqn:E2; [|reflexivity].
    now pose proof (prefix_allChars hostChar _ _ E2 H).
Qed.

(** The URL parser returns a plain host name unchanged. *)
Lemma URL_hostname_plain (platform : string -> option string) (d : string) :
  allChars hostChar d = true -> d <> "" ->
  endsInNumber d = false -> hasAceLabel d = false ->
  URL_hostname platform ("https://" ++ d) = Some d.
Proof.
  intros H Hne Hnum Hace.
  assert (Hpre : preprocess ("https://" ++ d) = "https://" ++ d).
  { unfold preprocess. change (stripLeading ("https://" ++ d)) with ("https://" ++ d).
    rewrite stripTrailing_plain, filterChars_all; try reflexivity.
    - rewrite allChars_app. apply andb_true_intro. split; [reflexivity|].
      exact (allChars_impl _ _ _ hostChar_not_tab H).
    - rewrite allChars_app. apply andb_true_intro. split; [reflexivity|].
      exact (allChars_impl _ _ _ hostChar_not_C0 H). }
  unfold URL_hostname. rewrite Hpre.
  replace (startsWith (toLowerCase ("https://" ++ d)) "https:") with true by reflexivity.
  change (substringFrom 6 ("https://" ++ d)) with ("//" ++ d).
  unfold hostnameAfterScheme.
  change (dropWhile isSlash ("//" ++ d)) with (dropWhile isSlash d).
  rewrite (dropWhile_all isSlash d) by exact (allChars_impl _ _ _ hostChar_not_slash H).
  rewrite (takeUntil_all endsAuthority d)
    by exact (allChars_impl _ _ _ hostChar_in_authority H).
  rewrite (allChars_impl _ _ _ hostChar_no_credentials H). cbn [negb].
  rewrite (takeUntil_all (isChar 58) d) by exact (allChars_impl _ _ _ hostChar_not_colon H).
  rewrite (afterFirst_all (isChar 58) d) by exact (allChars_impl _ _ _ hostChar_not_colon H).
  apply String.eqb_neq in Hne. rewrite Hne.
  unfold simpleHost. rewrite (allChars_impl _ _ _ hostChar_simple H), Hace. cbn [negb andb].
  unfold parseHost. rewrite (toLowerCase_plain d H).
  rewrite (allChars_impl _ _ _ hostChar_allowed H), Hnum. reflexivity.
Qed.

(** A plain host name other than [localhost] is a fixed point of
    [normalizeDomain]. *)
Lemma normalizeDomain_plain (platform : string -> option string) (d : string) :
  plainHost d = true -> d <> "" -> d <> "localhost" ->
  normalizeDomain platform (Some d) = Some d.
Proof.
  intros H Hne Hlocal. unfold plainHost in H.
  apply andb_prop in H. destruct H as [H Hace].
  apply andb_prop in H. destruct H as [H Hnum].
  apply andb_prop in H. destruct H as [H Hwww].
  apply negb_true_iff in Hace, Hnum, Hwww.
  unfold normalizeDomain.
  rewrite (trim_plain d H).
  assert (Ht : truthy (Some d) = true) by (destruct d; [now elim Hne | reflexivity]).
  rewrite Ht. apply String.eqb_neq in Hne. rewrite Hne. cbn [negb orb].
  rewrite (hasHttpScheme_plain d H). cbn [negb].
  apply String.eqb_neq in Hne.
  rewrite (URL_hostname_plain platform d H Hne Hnum Hace).
  rewrite (toLowerCase_plain d H), Hwww, Ht.
  apply String.eqb_neq in Hlocal. now rewrite Hlocal.
Qed.

Lemma hasDot_toLowerCase (s : string) : hasDot (toLowerCase s) = hasDot s.
Proof.
  unfold hasDot. f_equal.
  induction s as [|c t IH]; cbn; [reflexivity|].
  now rewrite lowerChar_dot, IH.
Qed.

Lemma matchGroup_hasDot (s m : string) : matchGroup s = Some m -> hasDot m = true.
Proof.
  unfold matchGroup. destruct s as [|c t]; [discriminate|].
  destruct (isAlnum c); [|discriminate].
  destruct (hasDot (String c (matchLabels t))) eqn:E; [|discriminate].
  now intros [= <-].
Qed.

Lemma matchWwwGroup_hasDot (s m : string) : matchWwwGroup s = Some m -> hasDot m = true.
Proof.
  unfold matchWwwGroup.
  destruct (afterPrefixCI "www." s) as [r|].
  - destruct (matchGroup r) eqn:E.
    + intros [= <-]. exact (matchGroup_hasDot _ _ E).
    + apply matchGroup_hasDot.
  - apply matchGroup_hasDot.
Qed.

Lemma domainPatternMatch_hasDot (s m : string) :
  domainPatternMatch s = Some m -> hasDot m = true.
Proof.
  induction s as [|c t IH]; cbn [domainPatternMatch].
  - destruct (matchHere "") eqn:E; [|discriminate].
    intros [= <-]. revert E. unfold matchHere.
    destruct (afterScheme "") as [r|]; [destruct (matchWwwGroup r) eqn:E'|].
    + intros [= <-]. exact (matchWwwGroup_hasDot _ _ E').
    + apply matchWwwGroup_hasDot.
    + apply matchWwwGroup_hasDot.
  - destruct (matchHere (String c t)) eqn:E; [|exact IH].
    intros [= <-]. revert E. unfold matchHere.
    destruct (afterScheme (String c t)) as [r|]; [destruct (matchWwwGroup r) eqn:E'|].
    + intros [= <-]. exact (matchWwwGroup_hasDot _ _ E').
    + apply matchWwwGroup_hasDot.
    + apply matchWwwGroup_hasDot.
Qed.

(** What [normalizeDomain] returns is never empty and never [localhost]. *)
Lemma normalizeDomain_output (platform : string -> option string)
    (url : option string) (d : string) :
  normalizeDomain platform url = Some d -> d <> "" /\ d <> "localhost".
Proof.
  unfold normalizeDomain. destruct url as [u|]; [|discriminate].
  destruct (negb (truthy (Some u)) || (trim u =? "")); [discriminate|].
  destruct (URL_hostname platform _) as [h|].
  - set (hostname := if startsWith (toLowerCase h) "www."
                     then substringFrom 4 (toLowerCase h) else toLowerCase h).
    destruct (negb (truthy (Some hostname)) || (hostname =? "localhost")) eqn:E;
      [discriminate|].
    intros [= <-]. apply orb_false_elim in E. destruct E as [E1 E2].
    split.
    + intros ->. discriminate E1.
    + now apply String.eqb_neq.
  - destruct (domainPatternMatch u) as [m|] eqn:E; [|discriminate].
    intros [= <-]. apply domainPatternMatch_hasDot in E.
    rewrite <- hasDot_toLowerCase in E.
    split; intros Heq; rewrite Heq in E; discriminate E.
Qed.

(** C6 (as amended). [normalizeDomain] applied to its own output returns
    that output whenever the output is a plain host name: lower-case ASCII
    without forbidden host characters, not starting with [www.], not ending
    in a numeric label and without an [xn--] label. *)
Theorem normalizeDomain_idempotent_on_plain_hosts :
  forall (platform : string -> option string) (url : option string) (d : string),
    normalizeDomain platform url = Some d ->
    plainHost d = true ->
    normalizeDomain platform (normalizeDomain platform url)
    = normalizeDomain platform url.
Proof.
  intros platform url d H Hplain.
  destruct (normalizeDomain_output platform url d H) as [Hne Hlocal].
  rewrite H. now apply normalizeDomain_plain.
Qed.

Lemma normalizeDomain_idempotent_on_plain_hosts_witness :
  normalizeDomain unmodelled (Some "https://www.acme.com/") = Some "acme.com"
  /\ plainHost "acme.com" = true
  /\ normalizeDomain unmodelled (normalizeDomain unmodelled (Some "https://www.acme.com/"))
     = normalizeDomain unmodelled (Some "https://www.acme.com/").
Proof.
  split; [reflexivity|]. split; [reflexivity|].
  exact (normalizeDomain_idempotent_on_plain_hosts unmodelled
           (Some "https://www.acme.com/") "acme.com" eq_refl eq_refl).
Defined.

(** C6 as stated fails: only one leading [www.] is removed, so the output
    for [www.www.example.com] still starts with [www.] and normalising it
    again gives a different domain. *)
Lemma normalizeDomain_not_idempotent :
  normalizeDomain unmodelled (Some "www.www.example.com") = Some "www.example.com"
  /\ normalizeDomain unmodelled (normalizeDomain unmodelled (Some "www.www.example.com"))
     = Some "example.com"
  /\ normalizeDomain unmodelled (normalizeDomain unmodelled (Some "www.www.example.com"))
     <> normalizeDomain unmodelled (Some "www.www.example.com").
Proof. split; [reflexivity|]. split; [reflexivity|]. vm_compute. discriminate. Qed.

(** The same inputs never reach the unmodelled part of the parser. *)
Lemma normalizeDomain_www_www (platform : string -> option string) :
  normalizeDomain platform (Some "www.www.example.com") = Some "www.example.com"
  /\ normalizeDomain platform (Some "www.example.com") = Some "example.com".
Proof. split; reflexivity. Qed.

(** Why the amended claim leaves out hosts that end in a number and hosts
    that start with [www.]: the fallback pattern returns [1.2.3] for
    [www.1.2.3], which the URL parser then reads as the IPv4 address
    [1.2.0.3]; and [www.www.localhost] gives [www.localhost], for which the
    result is null. *)
Example normalizeDomain_numeric_host (platform : string -> option string) :
  normalizeDomain platform (Some "www.1.2.3") = Some "1.2.3"
  /\ normalizeDomain platform (Some "1.2.3") = Some "1.2.0.3".
Proof. split; reflexivity. Qed.

Example normalizeDomain_www_localhost (platform : string -> option string) :
  normalizeDomain platform (Some "www.www.localhost") = Some "www.localhost"
  /\ normalizeDomain platform (Some "www.localhost") = None.
Proof. split; reflexivity. Qed.

(** Duplicate suppression in the specification's example: the website
    [https://www.acme.com/] has the canonical domain [acme.com]. *)
Example normalizeDomain_acme (platform : string -> option string) :
  normalizeDomain platform (Some "https://www.acme.com/") = Some "acme.com".
Proof. reflexivity. Qed.

End DomainFacts.

(** ** Mission orchestrator *)

Section MissionFacts.
Import JS Tools Storage Loop.
Local Open Scope mission_scope.

Variable platform : string -> option string.
Variable fetchPlaces : string -> string -> string -> result (list PlaceResult).
Variable fetchDetails : string -> string -> DetailsOutcome.
Variable fetchSite : nat -> string -> AuditOutcome.
Variable clock : nat -> Z.

Lemma withEvents_logEvent (es : list MissionEvent.t) (w : World) type message tool :
  logEvent type message tool (withEvents es w)
  = (Returns tt, withEvents (es ++ [eventOf w type message tool]) w).
Proof.
  unfold logEvent, withEvents, setDatabase, createMissionEvent, eventOf. cbn.
  now rewrite <- app_assoc.
Qed.

Lemma withEvents_nil (w : World) : withEvents [] w = w.
Proof.
  destruct w as [c m s p1 p2 p3 sk up [l n lm sc ev] au].
  unfold withEvents, setDatabase. cbn. now rewrite app_nil_r.
Qed.

Lemma searchPlaces_invalid_key (query location apiKey : string) :
  (String.length apiKey < 10)%nat ->
  searchPlaces fetchPlaces query location apiKey = Throws invalidKeyMessage.
Proof.
  intros H. unfold searchPlaces.
  apply Nat.ltb_lt in H. rewrite H. now rewrite orb_true_r.
Qed.

(** C7 (as amended). When the Places key is missing or shorter than ten
    characters, [executeMission] throws the configuration error after
    logging exactly four events: two [info] events and one [tool] event, then
    the single [error] diagnostic.  Nothing else changes: no lead is saved,
    audited or persisted. *)
Theorem executeMission_invalid_key :
  forall (goal : MissionGoal) (w : World),
    (String.length (placesApiKey (config w)) < 10)%nat ->
    executeMission platform fetchPlaces fetchDetails fetchSite clock goal w
    = (Throws invalidKeyMessage, withEvents (invalidKeyEvents goal w) w).
Proof.
  intros goal w Hkey.
  rewrite <- (withEvents_nil w) at 1.
  unfold executeMission, runMission, tryCatch.
  unfold bind at 1. rewrite withEvents_logEvent.
  unfold bind at 1. rewrite withEvents_logEvent.
  unfold bind at 1. rewrite withEvents_logEvent.
  unfold bind at 1. unfold gets at 1.
  unfold bind at 1.
  change (placesApiKey (config (withEvents _ w))) with (placesApiKey (config w)).
  rewrite (searchPlaces_invalid_key _ _ _ Hkey).
  unfold missionFailed.
  replace (truthy (Some invalidKeyMessage)) with true by reflexivity.
  replace (includes invalidKeyMessage "REQUEST_DENIED") with false
    by (vm_compute; reflexivity).
  unfold bind at 1. rewrite withEvents_logEvent.
  reflexivity.
Qed.

(** *** What each step does to [savedLeads] *)

Lemma qualifiedSaved_stable (w w' : World) :
  savedLeads w' = savedLeads w -> qualifiedSaved w' = qualifiedSaved w.
Proof. unfold qualifiedSaved. now intros ->. Qed.

Lemma savedStable_ret {A : Type} (a : A) : savedStable (ret a).
Proof. intros w. reflexivity. Qed.

Lemma savedStable_throw {A : Type} (msg : string) : savedStable (@throw A msg).
Proof. intros w. reflexivity. Qed.

Lemma savedStable_gets {A : Type} (f : World -> A) : savedStable (gets f).
Proof. intros w. reflexivity. Qed.

Lemma savedStable_logEvent type message tool : savedStable (logEvent type message tool).
Proof. intros w. reflexivity. Qed.

Lemma savedStable_bind {A B : Type} (m : M A) (k : A -> M B) :
  savedStable m -> (forall a, savedStable (k a)) -> savedStable (bind m k).
Proof.
  intros Hm Hk w. unfold bind. specialize (Hm w).
  destruct (m w) as [[a|msg] w1]; cbn in *; [|exact Hm].
  now rewrite (Hk a w1).
Qed.

Lemma savedStable_tryCatch {A : Type} (m : M A) (handler : string -> M A) :
  savedStable m -> (forall msg, savedStable (handler msg)) ->
  savedStable (tryCatch m handler).
Proof.
  intros Hm Hh w. unfold tryCatch. specialize (Hm w).
  destruct (m w) as [[a|msg] w1]; cbn in *; [exact Hm|].
  now rewrite (Hh msg w1).
Qed.

Lemma savedStable_skipDuplicate : savedStable skipDuplicate.
Proof. intros w. reflexivity. Qed.

Lemma savedStable_runAudit url : savedStable (runAudit fetchSite url).
Proof. intros w. reflexivity. Qed.

Lemma savedStable_auditPlace place : savedStable (auditPlace fetchSite place).
Proof.
  unfold auditPlace.
  destruct (website place) as [url|].
  - destruct (truthy (Some url)).
    + apply savedStable_bind; [apply savedStable_logEvent|intros _].
      apply savedStable_bind; [apply savedStable_runAudit|intros a].
      apply savedStable_bind; [|intros _; apply savedStable_ret].
      destruct (sameText (cmsHint a) "timeout"); [apply savedStable_logEvent|].
      destruct (sameText (cmsHint a) "error"); [apply savedStable_logEvent|].
      cbv zeta. destruct (0 <? _)%nat; apply savedStable_logEvent.
    + apply savedStable_bind; [apply savedStable_logEvent|intros _; apply savedStable_ret].
  - apply savedStable_bind; [apply savedStable_logEvent|intros _; apply savedStable_ret].
Qed.

Lemma savedStable_logReasons rs : savedStable (logReasons rs).
Proof.
  induction rs as [|r rs IH]; cbn [logReasons]; [apply savedStable_ret|].
  apply savedStable_bind; [apply savedStable_logEvent | intros _; exact IH].
Qed.

Lemma savedStable_logLeads ls : savedStable (logLeads ls).
Proof.
  induction ls as [|l ls IH]; cbn [logLeads]; [apply savedStable_ret|].
  apply savedStable_bind; [apply savedStable_logEvent | intros _; exact IH].
Qed.

Lemma savedStable_saveLead data : savedStable (saveLead platform clock data).
Proof.
  intros w. unfold saveLead.
  destruct (upsertLead platform _ _ (database w)) as [[r|msg] db]; [|reflexivity].
  cbv zeta. destruct (wasUpdated r); reflexivity.
Qed.

Lemma savedStable_createResult n message : savedStable (createResult n message).
Proof. intros w. reflexivity. Qed.

(** *** Counting the qualified leads saved *)

Lemma savesAtMost_stable {A : Type} (n : nat) (m : M A) :
  savedStable m -> savesAtMost n m.
Proof. intros H w. rewrite (qualifiedSaved_stable _ _ (H w)). lia. Qed.

Lemma savesAtMost_after {A B : Type} (n : nat) (m : M A) (k : A -> M B) :
  savedStable m -> (forall a, savesAtMost n (k a)) -> savesAtMost n (bind m k).
Proof.
  intros Hm Hk w. unfold bind. specialize (Hm w).
  destruct (m w) as [[a|msg] w1]; cbn in *.
  - rewrite <- (qualifiedSaved_stable _ _ Hm). apply Hk.
  - rewrite (qualifiedSaved_stable _ _ Hm). lia.
Qed.

Lemma savesAtMost_before {A B : Type} (n : nat) (m : M A) (k : A -> M B) :
  savesAtMost n m -> (forall a, savedStable (k a)) -> savesAtMost n (bind m k).
Proof.
  intros Hm Hk w. unfold bind. specialize (Hm w).
  destruct (m w) as [[a|msg] w1]; cbn in *; [|exact Hm].
  now rewrite (qualifiedSaved_stable _ _ (Hk a w1)).
Qed.

Lemma savesAtMost_tryCatch {A : Type} (n : nat) (m : M A) (handler : string -> M A) :
  savesAtMost n m -> (forall msg, savedStable (handler msg)) ->
  savesAtMost n (tryCatch m handler).
Proof.
  intros Hm Hh w. unfold tryCatch. specialize (Hm w).
  destruct (m w) as [[a|msg] w1]; cbn in *; [exact Hm|].
  now rewrite (qualifiedSaved_stable _ _ (Hh msg w1)).
Qed.

(** [this.savedLeads.push(entry)], then [k]. *)
Lemma savesAtMost_push {B : Type} (n : nat) (entry : SavedLead) (k : M B) :
  savesAtMost n k ->
  savesAtMost (n + if isStatus "qualified" entry then 1 else 0)
    (modify (fun w => setSavedLeads (savedLeads w ++ [entry])%list w) ;;; k).
Proof.
  intros Hk w. unfold bind, modify.
  specialize (Hk (setSavedLeads (savedLeads w ++ [entry])%list w)).
  unfold qualifiedSaved at 2 in Hk. cbn [savedLeads setSavedLeads] in Hk.
  rewrite filter_app, length_app in Hk. cbn [filter] in Hk.
  fold (qualifiedSaved w) in Hk.
  destruct (isStatus "qualified" entry); cbn [List.length] in Hk; lia.
Qed.

(** The loop adds at most [maxLeads - qualifiedCount] qualified leads. *)
Lemma processPlaces_savesAtMost (maxLeads minScore : Z) (places : list PlaceResult) :
  forall qualifiedCount : Z,
    savesAtMost (Z.to_nat (maxLeads - qualifiedCount))
      (processPlaces platform fetchSite clock maxLeads minScore places qualifiedCount).
Proof.
  induction places as [|place rest IH]; intros q; cbn [processPlaces].
  - apply savesAtMost_stable, savedStable_ret.
  - destruct (Z.leb_spec maxLeads q) as [Hstop|Hgo].
    + apply savesAtMost_stable.
      apply savedStable_bind; [apply savedStable_logEvent | intros _; apply savedStable_ret].
    + apply savesAtMost_after; [apply savedStable_gets|intros known].
      destruct known.
      * apply savesAtMost_after; [apply savedStable_skipDuplicate | intros _; apply IH].
      * apply savesAtMost_after; [apply savedStable_logEvent|intros _].
        apply savesAtMost_after; [apply savedStable_auditPlace|intros auditResults].
        cbv zeta.
        set (score := scoreLead (name place) auditResults _ (category place)).
        destruct ((minScore =? 0)%Z || (minScore <=? total score)%Z).
        -- apply savesAtMost_after; [apply savedStable_logEvent|intros _].
           apply savesAtMost_after; [apply savedStable_logEvent|intros _].
           apply savesAtMost_after; [apply savedStable_logReasons|intros _].
           apply savesAtMost_after; [apply savedStable_saveLead|intros saved].
           apply savesAtMost_after;
             [destruct (negb (snd saved));
              [apply savedStable_logEvent | apply savedStable_ret] | intros _].
           destruct (75 <=? total score)%Z.
           ++ pose proof (savesAtMost_push _
                 {| savedId := fst saved; savedName := name place;
                    savedScore := total score; savedStatus := "qualified" |}
                 _ (IH (q + 1)%Z)) as Hpush.
              cbn [isStatus savedStatus] in Hpush.
              replace (Z.to_nat (maxLeads - q))
                with (Z.to_nat (maxLeads - (q + 1)) + 1)%nat by lia.
              exact Hpush.
           ++ pose proof (savesAtMost_push _
                 {| savedId := fst saved; savedName := name place;
                    savedScore := total score; savedStatus := "junk" |}
                 _ (IH q)) as Hpush.
              cbn [isStatus savedStatus] in Hpush.
              replace (Z.to_nat (maxLeads - q))
                with (Z.to_nat (maxLeads - q) + 0)%nat by lia.
              exact Hpush.
        -- apply savesAtMost_after; [apply savedStable_logEvent | intros _; apply IH].
Qed.

Lemma savedLeads_markKnown (ls : list Lead.t) (w : World) :
  savedLeads (fold_left markKnown ls w) = savedLeads w.
Proof.
  revert w. induction ls as [|l ls IH]; intros w; cbn [fold_left]; [reflexivity|].
  now rewrite IH.
Qed.

Lemma savedStable_summarize minScore qualifiedCount considered :
  savedStable (summarize minScore qualifiedCount considered).
Proof.
  unfold summarize.
  apply savedStable_bind; [apply savedStable_gets|intros saved].
  apply savedStable_bind; [apply savedStable_gets|intros updated].
  apply savedStable_bind; [apply savedStable_gets|intros skipped].
  cbv zeta.
  apply savedStable_bind; [apply savedStable_logEvent|intros _].
  apply savedStable_bind; [|intros _; apply savedStable_createResult].
  destruct (0 <? List.length saved)%nat; [|apply savedStable_ret].
  apply savedStable_bind.
  - destruct (0 <? List.length (filter _ saved))%nat; [|apply savedStable_ret].
    apply savedStable_bind; [apply savedStable_logEvent|intros _].
    apply savedStable_logLeads.
  - intros _.
    destruct ((0 <? List.length (filter _ saved))%nat && (minScore =? 0)%Z);
      [|apply savedStable_ret].
    apply savedStable_bind; [apply savedStable_logEvent|intros _].
    apply savedStable_logLeads.
Qed.

Lemma savedStable_missionFailed message : savedStable (missionFailed message).
Proof.
  unfold missionFailed. cbv zeta.
  apply savedStable_bind; [|intros _; apply savedStable_throw].
  destruct (includes _ "REQUEST_DENIED"); [|apply savedStable_logEvent].
  repeat (apply savedStable_bind; [apply savedStable_logEvent|intros _]).
  apply savedStable_logEvent.
Qed.

Lemma runMission_savesAtMost (goal : MissionGoal) (minScore maxLeads : Z) :
  savesAtMost (Z.to_nat maxLeads)
    (runMission platform fetchPlaces fetchDetails fetchSite clock goal minScore maxLeads).
Proof.
  unfold runMission.
  apply savesAtMost_after; [apply savedStable_logEvent|intros _].
  apply savesAtMost_after; [apply savedStable_gets|intros apiKey].
  apply savesAtMost_after; [intros w; reflexivity|intros places].
  destruct (List.length places =? 0)%nat.
  - apply savesAtMost_stable.
    apply savedStable_bind; [apply savedStable_logEvent|intros _].
    apply savedStable_createResult.
  - apply savesAtMost_after; [apply savedStable_logEvent|intros _].
    cbv zeta.
    apply savesAtMost_after; [apply savedStable_logEvent|intros _].
    apply savesAtMost_after; [apply savedStable_gets|intros db].
    apply savesAtMost_after; [intros w; apply savedLeads_markKnown|intros _].
    apply savesAtMost_after;
      [destruct (0 <? _)%nat; [apply savedStable_logEvent | apply savedStable_ret]
      |intros _].
    apply savesAtMost_before; [|intros q; apply savedStable_summarize].
    pose proof (processPlaces_savesAtMost maxLeads minScore
                  (enrich fetchDetails apiKey places) 0%Z) as H.
    now rewrite Z.sub_0_r in H.
Qed.

Lemma executeMission_savesAtMost (goal : MissionGoal) :
  savesAtMost (Z.to_nat (maxLeadsOf goal))
    (executeMission platform fetchPlaces fetchDetails fetchSite clock goal).
Proof.
  unfold executeMission. cbv zeta.
  apply savesAtMost_after; [apply savedStable_logEvent|intros _].
  apply savesAtMost_after; [apply savedStable_logEvent|intros _].
  apply savesAtMost_tryCatch; [apply runMission_savesAtMost|].
  apply savedStable_missionFailed.
Qed.

(** From a count at or above the target, the loop only logs that the
    target is reached. *)
Lemma processPlaces_stops (maxLeads minScore : Z) (place : PlaceResult)
    (rest : list PlaceResult) (qualifiedCount : Z) (w : World) :
  (maxLeads <= qualifiedCount)%Z ->
  processPlaces platform fetchSite clock maxLeads minScore (place :: rest) qualifiedCount w
  = (Returns qualifiedCount,
     withEvents
       [eventOf w "success"
          ("Reached target of " ++ showZ maxLeads ++ " qualified leads!") None] w).
Proof.
  intros H. cbn [processPlaces].
  apply Z.leb_le in H. rewrite H.
  rewrite <- (withEvents_nil w) at 1.
  unfold bind at 1. rewrite withEvents_logEvent. reflexivity.
Qed.

(** C4. A mission saves at most [maxLeads] qualified leads (10 when the
    goal gives none): whatever the search, the audits and the store answer,
    [executeMission] adds at most that many qualified entries to
    [savedLeads]; and from the moment the count of qualified leads has
    reached the target, the loop over the remaining candidates only logs
    that the target is reached: no further candidate is audited, scored or
    persisted. *)
Theorem mission_stops_at_maxLeads :
  forall (goal : MissionGoal) (w : World),
    (List.length
       (qualifiedSaved
          (snd (executeMission platform fetchPlaces fetchDetails fetchSite clock goal w)))
     <= List.length (qualifiedSaved w) + Z.to_nat (maxLeadsOf goal))%nat
    /\ (forall (minScore : Z) (place : PlaceResult) (rest : list PlaceResult)
               (qualifiedCount : Z) (w0 : World),
          (maxLeadsOf goal <= qualifiedCount)%Z ->
          processPlaces platform fetchSite clock (maxLeadsOf goal) minScore
                        (place :: rest) qualifiedCount w0
          = (Returns qualifiedCount,
             withEvents
               [eventOf w0 "success"
                  ("Reached target of " ++ showZ (maxLeadsOf goal) ++ " qualified leads!")
                  None] w0))
    /\ (maxLeads goal = None -> maxLeadsOf goal = 10%Z).
Proof.
  intros goal w. split; [apply executeMission_savesAtMost|]. split.
  - intros minScore place rest q w0 H. now apply processPlaces_stops.
  - unfold maxLeadsOf. now intros ->.
Qed.

End MissionFacts.

(** *** Concrete runs *)

Section MissionRuns.
Import JS Tools Storage Loop.

Lemma executeMission_invalid_key_witness :
  let goal := sampleGoal None None in
  let w := newAgent (sampleConfig "abc") "m1" emptyDatabase in
  (String.length (placesApiKey (config w)) < 10)%nat
  /\ executeMission unmodelled noPlaces noDetails abortedSite clockZero goal w
     = (Throws invalidKeyMessage, withEvents (invalidKeyEvents goal w) w).
Proof.
  cbv zeta. split.
  - cbn. lia.
  - apply (executeMission_invalid_key unmodelled noPlaces noDetails abortedSite clockZero).
    cbn. lia.
Defined.

(** C7 as stated fails: with the invalid key ["abc"] the mission fails, and
    the event log holds two [info] events and one [tool] event before the
    error diagnostic. *)
Lemma invalid_key_logs_three_events_before_error :
  let w := newAgent (sampleConfig "abc") "m1" emptyDatabase in
  let run := executeMission unmodelled noPlaces noDetails abortedSite clockZero
               (sampleGoal None None) w in
  fst run = Throws invalidKeyMessage
  /\ map MissionEvent.eventType (eventsOf (snd run)) = ["info"; "info"; "tool"; "error"]
  /\ List.length (eventsOf (snd run)) <> 1%nat.
Proof.
  cbv zeta. split; [vm_compute; reflexivity|]. split; [vm_compute; reflexivity|].
  vm_compute. discriminate.
Qed.

Lemma mission_stops_at_maxLeads_witness :
  let goal := sampleGoal (Some 1%Z) (Some 0%Z) in
  let w := newAgent (sampleConfig "0123456789abcdef") "m1" emptyDatabase in
  (List.length
     (qualifiedSaved
        (snd (executeMission unmodelled twoDentists phoneAndSite abortedSite clockZero goal w)))
   <= List.length (qualifiedSaved w) + Z.to_nat (maxLeadsOf goal))%nat
  /\ (maxLeadsOf goal <= 1)%Z
  /\ processPlaces unmodelled abortedSite clockZero (maxLeadsOf goal) 0
       [dentist "p2" "Smile Two"] 1 w
     = (Returns 1%Z,
        withEvents
          [eventOf w "success"
             ("Reached target of " ++ showZ (maxLeadsOf goal) ++ " qualified leads!") None]
          w).
Proof.
  cbv zeta.
  pose proof (mission_stops_at_maxLeads unmodelled twoDentists phoneAndSite abortedSite
                clockZero (sampleGoal (Some 1%Z) (Some 0%Z))
                (newAgent (sampleConfig "0123456789abcdef") "m1" emptyDatabase)) as H.
  destruct H as (Hbound & Hstop & _).
  split; [exact Hbound|]. split; [apply Z.le_refl|].
  apply Hstop. apply Z.le_refl.
Defined.

(** With a target of one lead and two dentists that both qualify (their
    audits time out, so need is 100), the first is saved, the loop stops at
    the second: one saved lead, one audit, one row. *)
Example mission_with_target_one :
  let w := newAgent (sampleConfig "0123456789abcdef") "m1" emptyDatabase in
  let run := executeMission unmodelled twoDentists phoneAndSite abortedSite clockZero
               (sampleGoal (Some 1%Z) (Some 0%Z)) w in
  map savedName (savedLeads (snd run)) = ["Smile One"]
  /\ audited (snd run) = ["https://one.example"]
  /\ map Lead.name (leads (database (snd run))) = ["Smile One"]
  /\ map Score.total (scores (database (snd run))) = [83%Z]
  /\ In "Reached target of 1 qualified leads!"
        (map MissionEvent.message (eventsOf (snd run))).
Proof.
  cbv zeta.
  split; [vm_compute; reflexivity|]. split; [vm_compute; reflexivity|].
  split; [vm_compute; reflexivity|]. split; [vm_compute; reflexivity|].
  vm_compute. tauto.
Qed.

(** Threshold rejection, in the manner of the specification's end-to-end
    scenarios: A lacks HTTPS, a mobile viewport and booking (total 67), B
    has all three (total 40).  With a minimum of 75 neither is saved; with
    a minimum of 0 both are saved as junk. *)
Example mission_strict_and_relaxed :
  let w := newAgent (sampleConfig "0123456789abcdef") "m1" emptyDatabase in
  let strict := executeMission unmodelled plainPlaces phoneAndSite scenarioSite clockZero
                  (sampleGoal None (Some 75%Z)) w in
  let relaxed := executeMission unmodelled plainPlaces phoneAndSite scenarioSite clockZero
                   (sampleGoal None (Some 0%Z)) w in
  savedLeads (snd strict) = []
  /\ map (fun l => (savedName l, savedScore l, savedStatus l)) (savedLeads (snd relaxed))
     = [("A", 67%Z, "junk"); ("B", 40%Z, "junk")].
Proof. cbv zeta. split; vm_compute; reflexivity. Qed.

End MissionRuns.

(** ** Entity resolver *)

Section LikeFacts.
Import JS Storage Resolution.

Lemma prefix_empty (s : string) : String.prefix "" s = true.
Proof. now destruct s. Qed.

Lemma likeCI_percent (p s : string) :
  likeCI (String percent p) s
  = likeCI p s || match s with
                  | EmptyString => false
                  | String _ t => likeCI (String percent p) t
                  end.
Proof. destruct s; reflexivity. Qed.

Lemma likeCI_percent_only (s : string) : likeCI "%" s = true.
Proof.
  induction s as [|c t IH].
  - reflexivity.
  - change "%" with (String percent "") in *. rewrite likeCI_percent.
    rewrite IH. apply orb_true_r.
Qed.

Lemma likeCI_literal (c : ascii) (p s : string) :
  Ascii.eqb c percent || Ascii.eqb c underscore || Ascii.eqb c backslash = false ->
  likeCI (String c p) s
  = match s with
    | String x t => sameCI x c && likeCI p t
    | EmptyString => false
    end.
Proof.
  intros H. apply orb_false_elim in H. destruct H as [H Hb].
  apply orb_false_elim in H. destruct H as [Hp Hu].
  cbn [likeCI]. rewrite Hp, Hu, Hb. reflexivity.
Qed.

(** A pattern without metacharacters followed by [%] matches the strings
    that start with it, case-insensitively. *)
Lemma likeCI_prefix (t s : string) :
  likeFree t = true ->
  likeCI (t ++ "%") s = String.prefix (toLowerCase t) (toLowerCase s).
Proof.
  revert s. induction t as [|c t IH]; intros s Hfree.
  - cbn [append toLowerCase]. now rewrite likeCI_percent_only, prefix_empty.
  - cbn [likeFree allChars] in Hfree. apply andb_prop in Hfree.
    destruct Hfree as [Hc Ht]. apply negb_true_iff in Hc.
    cbn [append]. rewrite (likeCI_literal c _ s Hc).
    destruct s as [|x s]; [reflexivity|].
    cbn [toLowerCase String.prefix]. rewrite (IH s Ht). unfold sameCI.
    destruct (ascii_dec (lowerChar c) (lowerChar x)) as [E|E].
    + rewrite E, Ascii.eqb_refl. reflexivity.
    + apply not_eq_sym, Ascii.eqb_neq in E. now rewrite E.
Qed.

(** [%text%] without metacharacters in [text] is a case-insensitive
    substring test. *)
Lemma likeCI_contains (t s : string) :
  likeFree t = true ->
  likeCI ("%" ++ t ++ "%") s = containsCI s t.
Proof.
  intros Hfree. unfold containsCI.
  change ("%" ++ t ++ "%") with (String percent (t ++ "%")).
  induction s as [|x s IH].
  - rewrite likeCI_percent, (likeCI_prefix t "" Hfree). cbn [toLowerCase includes].
    now destruct (String.prefix (toLowerCase t) "").
  - rewrite likeCI_percent, (likeCI_prefix t _ Hfree), IH.
    cbn [toLowerCase includes].
    now destruct (String.prefix (toLowerCase t) _).
Qed.

Lemma substringTo_min (n : nat) (s : string) :
  substringTo (Nat.min n (String.length s)) s = substringTo n s.
Proof.
  revert s. induction n as [|n IH]; intros s; [reflexivity|].
  destruct s as [|c t]; [reflexivity|].
  cbn [String.length Nat.min substringTo]. now rewrite IH.
Qed.

Lemma likeFree_substringTo (n : nat) (s : string) :
  likeFree s = true -> likeFree (substringTo n s) = true.
Proof.
  unfold likeFree. revert s. induction n as [|n IH]; intros s H; [reflexivity|].
  destruct s as [|c t]; [reflexivity|].
  cbn [substringTo allChars] in *. apply andb_prop in H. destruct H as [Hc Ht].
  now rewrite Hc, (IH t Ht).
Qed.

(** For a candidate without metacharacters the query selects exactly the
    leads of the claim. *)
Lemma selectsByPattern_substring (name city : string) (l : Lead.t) :
  likeFree name = true -> likeFree city = true ->
  selectsByPattern name city l = selectsBySubstring name city l.
Proof.
  intros Hn Hc. unfold selectsByPattern, selectsBySubstring, cityMatches,
    sharesNamePrefix, ilike.
  rewrite substringTo_min.
  rewrite (likeCI_contains _ (Lead.name l) (likeFree_substringTo 10 name Hn)).
  destruct (Lead.city l) as [c|]; [|reflexivity].
  now rewrite (likeCI_contains city c Hc).
Qed.

End LikeFacts.

Section ResolverFacts.
Import JS Storage Resolution.

Variable platform : string -> option string.

Lemma hd_error_selectWhere (p : Lead.t -> bool) (rows : list Lead.t) :
  hd_error (selectWhere p 1 rows) = find p rows.
Proof.
  unfold selectWhere. induction rows as [|l rows IH]; [reflexivity|].
  cbn [filter find]. destruct (p l); [reflexivity | exact IH].
Qed.

Lemma truthy_present (o : option string) :
  present o = if truthy o then o else None.
Proof. now destruct o as [[|c t]|]. Qed.

Lemma normalizePhone_truthy (phone : option string) (p : string) :
  Normalize.normalizePhone phone = Some p -> truthy (Some p) = true.
Proof.
  unfold Normalize.normalizePhone. destruct phone as [x|]; [|discriminate].
  destruct (negb (truthy (Some x)) || (trim x =? "")); [discriminate|].
  destruct (_ =? 10)%nat; [now intros [= <-]|].
  destruct (_ && _); [now intros [= <-]|].
  destruct (_ && _); [now intros [= <-] | discriminate].
Qed.

Lemma normalizeDomain_truthy (url : option string) (d : string) :
  Normalize.normalizeDomain platform url = Some d -> truthy (Some d) = true.
Proof.
  intros H. destruct (normalizeDomain_output platform url d H) as [Hne _].
  destruct d; [now elim Hne | reflexivity].
Qed.

(** [findExistingLead] runs the four steps in order and returns what the
    first successful one finds; its fourth step selects by pattern. *)
Lemma findExistingLead_steps (c : Criteria.t) (rows : list Lead.t) :
  findExistingLead platform c rows = resolveWith platform selectsByPattern c rows.
Proof.
  destruct c as [pid dom ph nm ci].
  unfold findExistingLead, resolveWith, byPlaceId, byDomain, byPhone, byNameAndCity,
    firstFound, firstFuzzyMatch, selectsByPattern, candidateOf, fuzzyMatches,
    hasPlaceId, hasDomain, hasPhone.
  cbn [Criteria.placeId Criteria.domain Criteria.phone Criteria.name Criteria.city].
  destruct (Normalize.normalizeDomain platform dom) as [d|] eqn:Ed;
    [pose proof (normalizeDomain_truthy _ _ Ed) as Hd;
     destruct d as [|dc dt]; [discriminate Hd|]; clear Hd|];
    (destruct (Normalize.normalizePhone ph) as [p|] eqn:Ep;
     [pose proof (normalizePhone_truthy _ _ Ep) as Hp;
      destruct p as [|pc pt]; [discriminate Hp|]; clear Hp|]);
    destruct pid as [[|a0 t0]|], nm as [[|a1 t1]|], ci as [[|a2 t2]|];
    cbn [present truthy andb];
    rewrite ?hd_error_selectWhere; unfold selectWhere;
    repeat match goal with
           | |- context [find ?q ?l] => destruct (find q l)
           end; reflexivity.
Qed.

Lemma present_likeFree (o : option string) (s : string) :
  likeFreeOpt o = true -> present o = Some s -> likeFree s = true.
Proof. destruct o as [[|c t]|]; cbn [present]; try discriminate. now intros H [= <-]. Qed.

(** C2 (as amended). For every candidate whose name and city contain no
    [LIKE] metacharacter ([%], [_], backslash), [findExistingLead] checks
    the identity criteria in strict order, the first match winning:
    (1) the place id, when the candidate supplies one; (2) the canonical
    domain of its website; (3) with a normalized phone and a name, the first
    of at most 10 stored leads with that phone that satisfies
    [isFuzzyMatch]; (4) with a name and a city, the first of at most 20
    stored leads whose city contains the candidate's city and whose name
    contains the first ten characters of the candidate's name, both
    case-insensitively, that satisfies [isFuzzyMatch]; (5) otherwise no
    match. *)
Theorem findExistingLead_resolution_order :
  forall (c : Criteria.t) (rows : list Lead.t),
    wildcardFree c = true ->
    findExistingLead platform c rows = resolve platform c rows.
Proof.
  intros c rows Hfree. rewrite findExistingLead_steps.
  unfold resolve, resolveWith. do 3 f_equal.
  unfold byNameAndCity.
  destruct (present (Criteria.name c)) as [name|] eqn:En; [|reflexivity].
  destruct (present (Criteria.city c)) as [city|] eqn:Ec; [|reflexivity].
  unfold wildcardFree in Hfree. apply andb_prop in Hfree. destruct Hfree as [Hc Hn].
  pose proof (present_likeFree _ _ Hn En) as Hname.
  pose proof (present_likeFree _ _ Hc Ec) as Hcity.
  rewrite (filter_ext (selectsByPattern name city) (selectsBySubstring name city)
             (fun l => selectsByPattern_substring name city l Hname Hcity) rows).
  reflexivity.
Qed.

End ResolverFacts.

(** *** Upserts *)

Section ResolverRuns.
Import JS Storage Resolution.

Lemma findExistingLead_resolution_order_witness :
  let c := {| Criteria.placeId := None; Criteria.domain := Some "https://www.acme.com/";
              Criteria.phone := None; Criteria.name := Some "Acme Dental";
              Criteria.city := Some "Reno" |} in
  let rows := [storedLead 0 "Other" (Some "Reno")] in
  wildcardFree c = true
  /\ findExistingLead unmodelled c rows = resolve unmodelled c rows.
Proof.
  cbv zeta. split; [reflexivity|].
  apply (findExistingLead_resolution_order unmodelled). reflexivity.
Defined.

(** C2 as stated fails, because the candidate's text is used as an [ILIKE]
    pattern.  A candidate in the city ["%"] is resolved to a stored lead
    whose city (the empty string) does not contain ["%"]; and a candidate
    named ["100% Clean"] is resolved to the stored lead ["100 Clean"], whose
    name does not contain the candidate's first ten characters. *)
Lemma findExistingLead_pattern_not_substring :
  let l1 := storedLead 0 "Joe" (Some "") in
  let c1 := criteriaByNameAndCity "Joe" "%" in
  let l2 := storedLead 1 "100 Clean" (Some "Reno") in
  let c2 := criteriaByNameAndCity "100% Clean" "Reno" in
  (findExistingLead unmodelled c1 [l1] = Some l1
   /\ cityMatches "%" l1 = false
   /\ resolve unmodelled c1 [l1] = None)
  /\ (findExistingLead unmodelled c2 [l2] = Some l2
      /\ sharesNamePrefix "100% Clean" l2 = false
      /\ resolve unmodelled c2 [l2] = None).
Proof.
  cbv zeta.
  split; (split; [vm_compute; reflexivity|]; split; vm_compute; reflexivity).
Qed.

(** Duplicate suppression: with a stored lead whose canonical domain is
    [acme.com], a candidate with the website [https://www.acme.com/]
    resolves to that lead. *)
Example findExistingLead_by_domain :
  let acme :=
    {| Lead.id := 7; Lead.name := "Acme"; Lead.domain := Some "acme.com";
       Lead.canonicalDomain := Some "acme.com"; Lead.normalizedPhone := None;
       Lead.phone := None; Lead.email := None; Lead.address := None;
       Lead.city := None; Lead.state := None; Lead.postalCode := None;
       Lead.latitude := None; Lead.longitude := None; Lead.category := "shop";
       Lead.source := "manual"; Lead.placeId := None; Lead.status := "new";
       Lead.createdAt := 0%Z; Lead.updatedAt := 0%Z |} in
  findExistingLead unmodelled
    {| Criteria.placeId := None; Criteria.domain := Some "https://www.acme.com/";
       Criteria.phone := None; Criteria.name := Some "ACME Inc"; Criteria.city := None |}
    [storedLead 0 "Other" None; acme]
  = Some acme.
Proof. vm_compute. reflexivity. Qed.

End ResolverRuns.

Section UpsertFacts.
Import JS Tools Storage Resolution.

Variable platform : string -> option string.

Lemma find_none_existsb {A : Type} (p : A -> bool) (l : list A) :
  find p l = None -> existsb p l = false.
Proof.
  induction l as [|x l IH]; cbn; [reflexivity|].
  destruct (p x); [discriminate | exact IH].
Qed.

Lemma find_app_none {A : Type} (p : A -> bool) (l l' : list A) :
  find p l = None -> find p (l ++ l') = find p l'.
Proof.
  induction l as [|x l IH]; cbn; [reflexivity|].
  destruct (p x); [discriminate | exact IH].
Qed.

Lemma existsb_filter_false {A : Type} (p f : A -> bool) (l : list A) :
  existsb p l = false -> existsb p (filter f l) = false.
Proof.
  induction l as [|x l IH]; cbn; [reflexivity|].
  intros H. apply orb_false_elim in H. destruct H as [Hx Hl].
  destruct (f x); cbn; [rewrite Hx|]; now apply IH.
Qed.

Lemma existsb_pointwise {A : Type} (p q : A -> bool) (l : list A) :
  (forall x, p x = q x) -> existsb p l = existsb q l.
Proof. intros H. induction l as [|x l IH]; cbn; [reflexivity | now rewrite H, IH]. Qed.

Lemma existsb_never {A : Type} (p : A -> bool) (l : list A) :
  (forall x, p x = false) -> existsb p l = false.
Proof. intros H. induction l as [|x l IH]; cbn; [reflexivity | now rewrite H, IH]. Qed.

Lemma firstFound_none (a b c d : option Lead.t) :
  firstFound [a; b; c; d] = None -> a = None /\ b = None /\ c = None /\ d = None.
Proof. destruct a, b, c, d; cbn; intros H; try discriminate H; now repeat split. Qed.

Lemma present_orUndefined (o : option string) : present (orUndefined o) = present o.
Proof. now destruct o as [[|c t]|]. Qed.

Lemma normalizeDomain_orUndefined (o : option string) :
  Normalize.normalizeDomain platform (orUndefined o)
  = Normalize.normalizeDomain platform o.
Proof. now destruct o as [[|c t]|]. Qed.

Lemma normalizePhone_orUndefined (o : option string) :
  Normalize.normalizePhone (orUndefined o) = Normalize.normalizePhone o.
Proof. now destruct o as [[|c t]|]. Qed.

Lemma nullish_same {A : Type} (a : option A) : nullish a a = a.
Proof. now destruct a. Qed.

(** Updating the row a candidate created with the same candidate rewrites
    [updatedAt] and nothing else. *)
Lemma mergedRow_insertedRow (il : InsertLead.t) (cd np : option string)
    (newId : nat) (now1 now2 : Z) :
  mergedRow il cd np (insertedRow il cd np newId now1) now2
  = withUpdatedAt now2 (insertedRow il cd np newId now1).
Proof.
  unfold mergedRow, insertedRow, withUpdatedAt. cbn.
  rewrite !nullish_same. now destruct (InsertLead.status il).
Qed.

(** A stored lead with the candidate's normalized phone matches it. *)
Lemma fuzzyMatches_same_phone (name : string) (c : Criteria.t) (p : string) (l : Lead.t) :
  Normalize.normalizePhone (Criteria.phone c) = Some p ->
  hasPhone p l = true ->
  fuzzyMatches (candidateOf name c) l = true.
Proof.
  intros Hp Hl. unfold fuzzyMatches, Normalize.isFuzzyMatch, candidateOf, fuzzyOfLead.
  cbn [Normalize.fuzzyPhone]. rewrite Hp.
  unfold hasPhone, eqCol in Hl.
  destruct (Lead.normalizedPhone l) as [q|]; [|discriminate].
  apply String.eqb_eq in Hl. subst q.
  rewrite (normalizePhone_truthy _ _ Hp). cbn [andb Normalize.sameString].
  now rewrite String.eqb_refl.
Qed.

Lemma byPhone_none_no_row (c : Criteria.t) (rows : list Lead.t) (p name : string) :
  Normalize.normalizePhone (Criteria.phone c) = Some p ->
  present (Criteria.name c) = Some name ->
  byPhone c rows = None ->
  filter (hasPhone p) rows = [].
Proof.
  intros Hp Hn. unfold byPhone. rewrite Hp, Hn.
  destruct (filter (hasPhone p) rows) as [|l ls] eqn:E; [reflexivity|].
  assert (Hl : hasPhone p l = true).
  { assert (In l (filter (hasPhone p) rows)) as Hin by (rewrite E; now left).
    now apply filter_In in Hin. }
  cbn [firstn find]. now rewrite (fuzzyMatches_same_phone name c p l Hp Hl).
Qed.

(** After the candidate was inserted, the resolver finds the new row. *)
Lemma findExistingLead_after_insert (il : InsertLead.t) (rows : list Lead.t)
    (newId : nat) (now : Z) :
  findExistingLead platform (criteriaOf il) rows = None ->
  hasIdentity platform il = true ->
  let created :=
    insertedRow il (Normalize.normalizeDomain platform (InsertLead.domain il))
                (Normalize.normalizePhone (InsertLead.phone il)) newId now in
  findExistingLead platform (criteriaOf il) (rows ++ [created]) = Some created.
Proof.
  intros Hnone Hid created.
  rewrite findExistingLead_steps in *.
  unfold resolveWith in *. apply firstFound_none in Hnone.
  destruct Hnone as (H1 & H2 & H3 & _).
  unfold byPlaceId, byDomain in *.
  cbn [criteriaOf Criteria.placeId Criteria.domain] in *.
  rewrite present_orUndefined in *. rewrite normalizeDomain_orUndefined in *.
  unfold hasIdentity in Hid.
  destruct (present (InsertLead.placeId il)) as [p|] eqn:Ep.
  - (* found by place id *)
    rewrite (find_app_none _ _ _ H1). cbn [find firstFound].
    assert (Hc : hasPlaceId p created = true).
    { unfold hasPlaceId, eqCol, created. cbn [insertedRow Lead.placeId].
      destruct (InsertLead.placeId il) as [[|a t]|]; try discriminate Ep.
      injection Ep as <-. apply String.eqb_refl. }
    now rewrite Hc.
  - assert (Ht : truthy (InsertLead.placeId il) = false)
      by (destruct (InsertLead.placeId il) as [[|a t]|]; [reflexivity|discriminate Ep|reflexivity]).
    rewrite Ht in Hid. cbn [orb firstFound] in *.
    destruct (Normalize.normalizeDomain platform (InsertLead.domain il)) as [d|] eqn:Ed.
    + (* found by canonical domain *)
      rewrite (find_app_none _ _ _ H2). cbn [find].
      assert (Hc : hasDomain d created = true).
      { unfold hasDomain, eqCol, created. cbn [insertedRow Lead.canonicalDomain].
        apply String.eqb_refl. }
      now rewrite Hc.
    + (* found by phone *)
      cbn [orb] in Hid.
      destruct (Normalize.normalizePhone (InsertLead.phone il)) as [ph|] eqn:Eph;
        [|discriminate Hid].
      cbn [andb] in Hid.
      assert (Hphone : Normalize.normalizePhone (Criteria.phone (criteriaOf il)) = Some ph).
      { cbn [criteriaOf Criteria.phone]. now rewrite normalizePhone_orUndefined. }
      assert (Hname : present (Criteria.name (criteriaOf il))
                      = Some (InsertLead.name il)).
      { cbn [criteriaOf Criteria.name].
        destruct (InsertLead.name il); [discriminate Hid | reflexivity]. }
      pose proof (byPhone_none_no_row _ _ _ _ Hphone Hname H3) as Hrows.
      assert (Hc : hasPhone ph created = true).
      { unfold hasPhone, eqCol, created. cbn [insertedRow Lead.normalizedPhone].
        apply String.eqb_refl. }
      unfold byPhone. rewrite Hphone, Hname, filter_app, Hrows.
      cbn [filter app]. rewrite Hc. cbn [firstn find].
      now rewrite (fuzzyMatches_same_phone _ _ _ _ Hphone Hc).
Qed.

Lemma sameKey_None (a : option string) : sameKey a None = false.
Proof. now destruct a. Qed.

(** The insert of an unmatched candidate violates no unique index. *)
Lemma uniqueViolation_unmatched (il : InsertLead.t) (rows : list Lead.t)
    (self : option nat) :
  findExistingLead platform (criteriaOf il) rows = None ->
  InsertLead.placeId il <> Some "" ->
  uniqueViolation self (InsertLead.placeId il)
    (Normalize.normalizeDomain platform (InsertLead.domain il)) rows = None.
Proof.
  intros Hnone Hpid.
  rewrite findExistingLead_steps in Hnone.
  unfold resolveWith in Hnone. apply firstFound_none in Hnone.
  destruct Hnone as (H1 & H2 & _ & _).
  unfold byPlaceId, byDomain in *.
  cbn [criteriaOf Criteria.placeId Criteria.domain] in *.
  rewrite present_orUndefined in H1. rewrite normalizeDomain_orUndefined in H2.
  unfold uniqueViolation.
  set (others := filter _ rows).
  assert (Hp : existsb (fun l => sameKey (Lead.placeId l) (InsertLead.placeId il)) others
               = false).
  { apply existsb_filter_false.
    destruct (InsertLead.placeId il) as [[|a t]|].
    - now elim Hpid.
    - cbn [present] in H1. apply find_none_existsb in H1.
      rewrite <- H1. apply existsb_pointwise.
      intros l. unfold hasPlaceId, eqCol, sameKey. now destruct (Lead.placeId l).
    - apply existsb_never. intros l. apply sameKey_None. }
  assert (Hd : existsb (fun l => sameKey (Lead.canonicalDomain l)
                                   (Normalize.normalizeDomain platform (InsertLead.domain il)))
                 others = false).
  { apply existsb_filter_false.
    destruct (Normalize.normalizeDomain platform (InsertLead.domain il)) as [d|].
    - apply find_none_existsb in H2.
      rewrite <- H2. apply existsb_pointwise.
      intros l. unfold hasDomain, eqCol, sameKey. now destruct (Lead.canonicalDomain l).
    - apply existsb_never. intros l. apply sameKey_None. }
  now rewrite Hp, Hd.
Qed.

Lemma uniqueViolation_app_self (self : Lead.t) (pid cd : option string)
    (rows : list Lead.t) :
  uniqueViolation (Some (Lead.id self)) pid cd rows = None ->
  uniqueViolation (Some (Lead.id self)) pid cd (rows ++ [self]) = None.
Proof.
  unfold uniqueViolation. rewrite filter_app. cbn [filter].
  rewrite Nat.eqb_refl. cbn [negb]. now rewrite app_nil_r.
Qed.

(** C3 (as amended). Upserting twice the same candidate, one that no
    stored lead matches and that carries an identity (a place id, a website
    with a canonical domain, or a normalizable phone with a name), creates
    a row on the first call ([isNew = true], [wasUpdated = false]) and finds
    it again on the second ([isNew = false]) with the identical lead id.
    The second call reports [wasUpdated = true] unconditionally: the row it
    writes differs from the stored one in nothing but [updatedAt]. *)
Theorem upsertLead_twice :
  forall (insertLead : InsertLead.t) (now1 now2 : Z) (db : Database),
    findExistingLead platform (criteriaOf insertLead) (leads db) = None ->
    hasIdentity platform insertLead = true ->
    InsertLead.placeId insertLead <> Some "" ->
    let first := upsertLead platform insertLead now1 db in
    let second := upsertLead platform insertLead now2 (snd first) in
    exists created : Lead.t,
      fst first = Returns {| lead := created; isNew := true; wasUpdated := false |}
      /\ fst second
         = Returns {| lead := withUpdatedAt now2 created; isNew := false;
                      wasUpdated := true |}
      /\ Lead.id (withUpdatedAt now2 created) = Lead.id created.
Proof.
  intros il now1 now2 db Hnone Hid Hpid first second.
  set (cd := Normalize.normalizeDomain platform (InsertLead.domain il)).
  set (np := Normalize.normalizePhone (InsertLead.phone il)).
  set (created := insertedRow il cd np (nextLeadId db) now1).
  assert (Hfirst : first
            = (Returns {| lead := created; isNew := true; wasUpdated := false |},
               withLeads db (leads db ++ [created])%list (S (nextLeadId db)))).
  { unfold first, upsertLead. rewrite Hnone. cbv zeta.
    fold cd np created.
    cbn [insertedRow Lead.placeId Lead.canonicalDomain created].
    unfold cd. now rewrite (uniqueViolation_unmatched il (leads db) None Hnone Hpid). }
  exists created. split; [now rewrite Hfirst|]. split; [|reflexivity].
  unfold second. rewrite Hfirst. cbn [snd]. unfold upsertLead.
  cbn [leads withLeads].
  pose proof (findExistingLead_after_insert il (leads db) (nextLeadId db) now1 Hnone Hid)
    as Hfound.
  cbv zeta in Hfound. fold cd np created in Hfound. rewrite Hfound. cbv zeta.
  assert (Hm : mergedRow il (Normalize.normalizeDomain platform (InsertLead.domain il))
                 (Normalize.normalizePhone (InsertLead.phone il)) created now2
               = withUpdatedAt now2 created) by apply mergedRow_insertedRow.
  rewrite Hm.
  change (Lead.placeId (withUpdatedAt now2 created)) with (InsertLead.placeId il).
  change (Lead.canonicalDomain (withUpdatedAt now2 created))
    with (Normalize.normalizeDomain platform (InsertLead.domain il)).
  rewrite (uniqueViolation_app_self created _ _ (leads db)
             (uniqueViolation_unmatched il (leads db) (Some (Lead.id created)) Hnone Hpid)).
  reflexivity.
Qed.

(** Whatever the candidate, the two flags are complementary: [wasUpdated]
    is set on every call that finds an existing lead. *)
Lemma upsertLead_flags (insertLead : InsertLead.t) (now : Z) (db : Database)
    (r : UpsertResult) :
  fst (upsertLead platform insertLead now db) = Returns r ->
  wasUpdated r = negb (isNew r).
Proof.
  unfold upsertLead.
  destruct (findExistingLead platform _ _) as [existing|]; cbv zeta;
    destruct (uniqueViolation _ _ _ _); cbn [fst]; try discriminate;
    now intros [= <-].
Qed.

End UpsertFacts.

Section UpsertRuns.
Import JS Tools Storage.

Lemma upsertLead_twice_witness :
  let il := candidate "Acme Dental" (Some "p1") (Some "https://www.acme.com/")
                      (Some "619-233-3338") None in
  let first := upsertLead unmodelled il 1000 emptyDatabase in
  let second := upsertLead unmodelled il 2000 (snd first) in
  findExistingLead unmodelled (criteriaOf il) (leads emptyDatabase) = None
  /\ hasIdentity unmodelled il = true
  /\ InsertLead.placeId il <> Some ""
  /\ exists created : Lead.t,
       fst first = Returns {| lead := created; isNew := true; wasUpdated := false |}
       /\ fst second
          = Returns {| lead := withUpdatedAt 2000 created; isNew := false;
                       wasUpdated := true |}
       /\ Lead.id (withUpdatedAt 2000 created) = Lead.id created.
Proof.
  cbv zeta. split; [reflexivity|]. split; [reflexivity|]. split; [discriminate|].
  apply (upsertLead_twice unmodelled
           (candidate "Acme Dental" (Some "p1") (Some "https://www.acme.com/")
                      (Some "619-233-3338") None) 1000 2000 emptyDatabase).
  - reflexivity.
  - reflexivity.
  - discriminate.
Defined.

(** C3 as stated fails: the second upsert of the same candidate, at the
    same instant, leaves the database exactly as it was, no stored field
    changes, and still reports [wasUpdated = true]. *)
Lemma upsertLead_wasUpdated_without_change :
  let il := candidate "Acme Dental" (Some "p1") (Some "https://www.acme.com/")
                      (Some "619-233-3338") None in
  let first := upsertLead unmodelled il 1000 emptyDatabase in
  let second := upsertLead unmodelled il 1000 (snd first) in
  flagsOf (fst first) = Some (true, false)
  /\ snd second = snd first
  /\ flagsOf (fst second) = Some (false, true).
Proof.
  cbv zeta. split; [vm_compute; reflexivity|].
  split; vm_compute; reflexivity.
Qed.

(** The other way the claim fails: a candidate without place id, website,
    phone and city matches nothing, not even the row it created, so the
    second upsert creates a second row with another id. *)
Example upsertLead_without_identity :
  let il := candidate "Acme Dental" None None None None in
  let first := upsertLead unmodelled il 1000 emptyDatabase in
  let second := upsertLead unmodelled il 2000 (snd first) in
  flagsOf (fst first) = Some (true, false)
  /\ flagsOf (fst second) = Some (true, false)
  /\ idOf (fst first) = Some 0 /\ idOf (fst second) = Some 1
  /\ List.length (leads (snd second)) = 2.
Proof.
  cbv zeta. split; [vm_compute; reflexivity|]. split; [vm_compute; reflexivity|].
  split; [vm_compute; reflexivity|]. split; vm_compute; reflexivity.
Qed.

End UpsertRuns.

(** ** Identity normaliser: the shape of phones and names *)

Section PhoneShape.
Import JS Normalize.

Lemma trimStart_empty (s : string) : trimStart s = "" -> allChars isSpace s = true.
Proof.
  induction s as [|c t IH]; cbn; [reflexivity|].
  destruct (isSpace c); [exact IH | discriminate].
Qed.

Lemma trim_empty (s : string) : trim s = "" -> allChars isSpace s = true.
Proof.
  unfold trim. intros H. apply trimStart_empty.
  destruct (trimStart s) as [|c t] eqn:E; [reflexivity|].
  assert (Hc : isSpace c = false).
  { destruct s as [|a s']; [discriminate E|].
    revert E. clear. revert a. induction s' as [|b s' IH]; intros a; cbn.
    - destruct (isSpace a) eqn:Ea; [discriminate|]. now intros [= <- <-].
    - destruct (isSpace a) eqn:Ea.
      + intros E. apply (IH b). exact E.
      + now intros [= <- <-]. }
  now apply trimEnd_nonempty in H.
Qed.

Lemma space_not_digit : forall c, isSpace c = true -> negb (isDigit c) = true.
Proof.
  apply (char_implies isSpace (fun c => negb (isDigit c))). vm_compute. reflexivity.
Qed.

Lemma filterChars_none (p : ascii -> bool) (s : string) :
  allChars (fun c => negb (p c)) s = true -> filterChars p s = "".
Proof.
  induction s as [|c t IH]; cbn; [reflexivity|].
  intros H. apply andb_prop in H. destruct H as [Hc Ht].
  apply negb_true_iff in Hc. now rewrite Hc, (IH Ht).
Qed.

Lemma blank_no_digits (s : string) : trim s = "" -> digitsOf s = "".
Proof.
  intros H. apply filterChars_none.
  apply (allChars_impl isSpace); [exact space_not_digit|]. now apply trim_empty.
Qed.

(** What [normalizePhone] does as a function of the digits alone. *)
Lemma normalizePhone_by_digits (phone : string) :
  normalizePhone (Some phone) =
    let digits := digitsOf phone in
    if (String.length digits =? 10)%nat then Some (String "+"%char (String "1"%char digits))
    else if (String.length digits =? 11)%nat && startsWith digits "1"
    then Some (String "+"%char digits)
    else if (10 <=? String.length digits)%nat && (String.length digits <=? 15)%nat
    then Some (String "+"%char digits) else None.
Proof.
  unfold normalizePhone. fold (digitsOf phone).
  destruct (negb (truthy (Some phone)) || (trim phone =? "")) eqn:E; [|reflexivity].
  assert (Hd : digitsOf phone = "").
  { apply orb_prop in E. destruct E as [E|E].
    - destruct phone; [reflexivity | discriminate E].
    - apply String.eqb_eq in E. now apply blank_no_digits. }
  rewrite Hd. reflexivity.
Qed.

(** X1. Whatever the input, a phone that [normalizePhone] returns has the
    E.164 shape: a plus sign followed by 11 to 15 decimal digits. *)
Theorem normalizePhone_format :
  forall (phone : option string) (normalized : string),
    normalizePhone phone = Some normalized -> isE164 normalized = true.
Proof.
  intros [phone|] normalized; [|discriminate].
  rewrite normalizePhone_by_digits. cbv zeta.
  pose proof (allChars_filterChars isDigit phone) as Hd. fold (digitsOf phone) in Hd.
  set (digits := digitsOf phone) in *.
  destruct (String.length digits =? 10)%nat eqn:E10.
  - intros [= <-]. apply Nat.eqb_eq in E10. cbn. now rewrite Hd, E10.
  - destruct ((String.length digits =? 11)%nat && startsWith digits "1") eqn:E11.
    + intros [= <-]. apply andb_prop in E11. destruct E11 as [E11 _].
      apply Nat.eqb_eq in E11. cbn. now rewrite Hd, E11.
    + destruct ((10 <=? String.length digits)%nat && (String.length digits <=? 15)%nat)
        eqn:E15; [|discriminate].
      intros [= <-]. apply andb_prop in E15. destruct E15 as [Elo Ehi].
      apply Nat.eqb_neq in E10. apply Nat.leb_le in Elo.
      cbn. rewrite Hd, Ehi. cbn. rewrite andb_true_r.
      destruct (String.length digits) as [|[|[|[|[|[|[|[|[|[|[|n]]]]]]]]]]]; try lia; reflexivity.
Qed.

Lemma normalizePhone_format_witness :
  normalizePhone (Some "(619) 233-3338") = Some "+16192333338"
  /\ isE164 "+16192333338" = true.
Proof.
  split; [reflexivity|].
  exact (normalizePhone_format (Some "(619) 233-3338") "+16192333338" eq_refl).
Defined.

(** X2. [normalizePhone] looks at the digits only: two phones with the
    same digits in the same order, however they are spaced or punctuated,
    are normalized alike (both to the same phone, or both to null). *)
Theorem normalizePhone_only_digits_matter :
  forall phone1 phone2 : string,
    digitsOf phone1 = digitsOf phone2 ->
    normalizePhone (Some phone1) = normalizePhone (Some phone2).
Proof.
  intros phone1 phone2 H. rewrite !normalizePhone_by_digits. now rewrite H.
Qed.

Lemma normalizePhone_only_digits_matter_witness :
  digitsOf "(619) 233-3338" = digitsOf "619.233.3338"
  /\ normalizePhone (Some "(619) 233-3338") = normalizePhone (Some "619.233.3338").
Proof.
  split; [reflexivity|].
  exact (normalizePhone_only_digits_matter "(619) 233-3338" "619.233.3338" eq_refl).
Defined.

(** X3. [normalizePhone] returns null exactly when the phone holds fewer
    than 10 or more than 15 digits; a blank phone holds none. *)
Theorem normalizePhone_rejects :
  forall phone : string,
    normalizePhone (Some phone) = None
    <-> (String.length (digitsOf phone) < 10 \/ 15 < String.length (digitsOf phone))%nat.
Proof.
  intros phone. rewrite normalizePhone_by_digits. cbv zeta.
  set (n := String.length (digitsOf phone)).
  destruct (n =? 10)%nat eqn:E10.
  - apply Nat.eqb_eq in E10. split; [discriminate | lia].
  - destruct ((n =? 11)%nat && startsWith (digitsOf phone) "1") eqn:E11.
    + apply andb_prop in E11. destruct E11 as [E11 _]. apply Nat.eqb_eq in E11.
      split; [discriminate | lia].
    + destruct (Nat.leb_spec 10 n), (Nat.leb_spec n 15); cbn;
        split; try discriminate; try lia; reflexivity.
Qed.

End PhoneShape.

Section NameFacts.
Import JS Normalize.

Lemma kept_lower_is_nameChar :
  forall c, (isWord (lowerChar c) || isSpace (lowerChar c)) && negb (isSpace (lowerChar c)) = true ->
            nameChar (lowerChar c) && negb (isBlank (lowerChar c)) = true.
Proof.
  apply (char_implies
           (fun c => (isWord (lowerChar c) || isSpace (lowerChar c))
                     && negb (isSpace (lowerChar c)))
           (fun c => nameChar (lowerChar c) && negb (isBlank (lowerChar c)))).
  vm_compute. reflexivity.
Qed.

Lemma spaced_normal (r : bool) (s : string) :
  spaced r (collapseSpacesFrom r
              (filterChars (fun c => isWord c || isSpace c) (toLowerCase s))) = true.
Proof.
  revert r. induction s as [|c t IH]; intros r; cbn [toLowerCase filterChars];
    [reflexivity|].
  destruct (isWord (lowerChar c) || isSpace (lowerChar c)) eqn:Ek; [|apply IH].
  cbn [collapseSpacesFrom].
  destruct (isSpace (lowerChar c)) eqn:Es.
  - destruct r; [apply IH|]. cbn [spaced]. replace (isBlank " ") with true by reflexivity.
    cbn [negb andb]. apply IH.
  - pose proof (kept_lower_is_nameChar c) as H. rewrite Es in H. rewrite Ek in H.
    specialize (H eq_refl). apply andb_prop in H. destruct H as [Hn Hb].
    apply negb_true_iff in Hb. cbn [spaced]. rewrite Hb, Hn. apply IH.
Qed.

Lemma spaced_weaken (s : string) : spaced true s = true -> spaced false s = true.
Proof.
  destruct s as [|c t]; cbn; [reflexivity|].
  destruct (isBlank c); [discriminate | trivial].
Qed.

Lemma blank_is_space : forall c, isBlank c = true -> isSpace c = true.
Proof. apply (char_implies isBlank isSpace). vm_compute. reflexivity. Qed.

Lemma nameChar_not_space : forall c, nameChar c = true -> negb (isSpace c) = true.
Proof.
  apply (char_implies nameChar (fun c => negb (isSpace c))). vm_compute. reflexivity.
Qed.

Lemma nameChar_kept : forall c, nameChar c = true -> isWord c || isSpace c = true.
Proof.
  apply (char_implies nameChar (fun c => isWord c || isSpace c)). vm_compute. reflexivity.
Qed.

Lemma nameChar_lower : forall c, nameChar c = true -> Ascii.eqb (lowerChar c) c = true.
Proof.
  apply (char_implies nameChar (fun c => Ascii.eqb (lowerChar c) c)). vm_compute. reflexivity.
Qed.

Lemma spaced_trimStart (r : bool) (s : string) :
  spaced r s = true -> spaced false (trimStart s) = true.
Proof.
  revert r. induction s as [|c t IH]; intros r; cbn [spaced trimStart]; [reflexivity|].
  destruct (isBlank c) eqn:Eb.
  - rewrite (blank_is_space c Eb). intros H. apply andb_prop in H. destruct H as [_ H].
    now apply (IH true).
  - intros H. apply andb_prop in H. destruct H as [Hn H].
    pose proof (nameChar_not_space c Hn) as Hs. apply negb_true_iff in Hs. rewrite Hs.
    cbn [spaced]. now rewrite Eb, Hn.
Qed.

Lemma spaced_trimEnd (r : bool) (s : string) :
  spaced r s = true -> spaced r (trimEnd s) = true.
Proof.
  revert r. induction s as [|c t IH]; intros r; cbn [spaced trimEnd]; [reflexivity|].
  destruct (isBlank c) eqn:Eb.
  - intros H. apply andb_prop in H. destruct H as [Hr H].
    specialize (IH true H). rewrite (blank_is_space c Eb).
    destruct (trimEnd t) as [|c' t']; [reflexivity|].
    cbn [spaced]. rewrite Eb, Hr. exact IH.
  - intros H. apply andb_prop in H. destruct H as [Hn H].
    specialize (IH false H).
    pose proof (nameChar_not_space c Hn) as Hs. apply negb_true_iff in Hs. rewrite Hs.
    destruct (trimEnd t) as [|c' t']; cbn [spaced]; rewrite Eb, Hn; [reflexivity | exact IH].
Qed.

Lemma spaced_normalizeName (name : string) : spaced false (normalizeName name) = true.
Proof.
  unfold normalizeName, trim.
  apply spaced_trimEnd, (spaced_trimStart false), spaced_normal.
Qed.

Lemma trimEnd_idempotent (s : string) : trimEnd (trimEnd s) = trimEnd s.
Proof.
  induction s as [|c t IH]; [reflexivity|].
  cbn [trimEnd]. destruct (trimEnd t) as [|c' t'] eqn:E.
  - destruct (isSpace c) eqn:Ec; [reflexivity|]. cbn. now rewrite Ec.
  - cbn [trimEnd]. cbn [trimEnd] in IH. rewrite IH. reflexivity.
Qed.

Lemma trimStart_head (s : string) :
  match trimStart s with
  | String c _ => isSpace c = false
  | EmptyString => True
  end.
Proof.
  induction s as [|c t IH]; cbn; [exact I|].
  destruct (isSpace c) eqn:E; [exact IH | exact E].
Qed.

Lemma trimStart_trimEnd (s : string) :
  match s with String c _ => isSpace c = false | EmptyString => True end ->
  trimStart (trimEnd s) = trimEnd s.
Proof.
  destruct s as [|c t]; [reflexivity|]. intros Hc.
  cbn [trimEnd]. destruct (trimEnd t); [rewrite Hc|]; cbn; now rewrite Hc.
Qed.

Lemma trim_idempotent (s : string) : trim (trim s) = trim s.
Proof.
  unfold trim. rewrite (trimStart_trimEnd _ (trimStart_head s)).
  apply trimEnd_idempotent.
Qed.

Lemma spaced_fixed (r : bool) (s : string) :
  spaced r s = true ->
  collapseSpacesFrom r (filterChars (fun c => isWord c || isSpace c) (toLowerCase s)) = s.
Proof.
  revert r. induction s as [|c t IH]; intros r; cbn [spaced]; [reflexivity|].
  destruct (isBlank c) eqn:Eb.
  - intros H. apply andb_prop in H. destruct H as [Hr H].
    apply negb_true_iff in Hr. subst r.
    apply Ascii.eqb_eq in Eb. subst c.
    cbn. now rewrite (IH true H).
  - intros H. apply andb_prop in H. destruct H as [Hn H].
    cbn [toLowerCase filterChars].
    pose proof (nameChar_lower c Hn) as Hl. apply Ascii.eqb_eq in Hl. rewrite Hl.
    rewrite (nameChar_kept c Hn). cbn [collapseSpacesFrom].
    pose proof (nameChar_not_space c Hn) as Hs. apply negb_true_iff in Hs. rewrite Hs.
    now rewrite (IH false H).
Qed.

(** X4. [normalizeName] is idempotent. *)
Theorem normalizeName_idempotent :
  forall name : string, normalizeName (normalizeName name) = normalizeName name.
Proof.
  intros name.
  pose proof (spaced_normalizeName name) as H.
  unfold normalizeName at 1.
  rewrite (spaced_fixed false _ H).
  unfold normalizeName. apply trim_idempotent.
Qed.

Lemma spaced_chars (r : bool) (s : string) :
  spaced r s = true -> allChars (fun c => nameChar c || isBlank c) s = true.
Proof.
  revert r. induction s as [|c t IH]; intros r; cbn [spaced allChars]; [reflexivity|].
  destruct (isBlank c).
  - intros H. apply andb_prop in H. destruct H as [_ H].
    rewrite orb_true_r. exact (IH true H).
  - intros H. apply andb_prop in H. destruct H as [Hn H].
    rewrite Hn. exact (IH false H).
Qed.

Lemma prefix_two_blanks (s : string) :
  String.prefix "  " s = true -> exists t, s = String " "%char (String " "%char t).
Proof.
  destruct s as [|a [|b t]]; cbn [String.prefix]; try discriminate.
  - destruct (ascii_dec " " a); intros H; discriminate H.
  - destruct (ascii_dec " " a) as [<-|]; [|discriminate].
    destruct (ascii_dec " " b) as [<-|]; [|discriminate].
    intros _. now exists t.
Qed.

Lemma spaced_no_double (r : bool) (s : string) :
  spaced r s = true -> includes s "  " = false.
Proof.
  revert r. induction s as [|c t IH]; intros r H; [reflexivity|].
  cbn [includes].
  destruct (String.prefix "  " (String c t)) eqn:E.
  - apply prefix_two_blanks in E. destruct E as (t' & E). rewrite E in H.
    cbn in H. destruct r; cbn in H; discriminate H.
  - cbn [spaced] in H. destruct (isBlank c); apply andb_prop in H; destruct H as [_ H].
    + exact (IH true H).
    + exact (IH false H).
Qed.

(** X5. A normalized name is made of the characters [a-z], [0-9], [_] and
    the space, holds no two spaces in a row, and neither starts nor ends with
    white space. *)
Theorem normalizeName_canonical :
  forall name : string,
    let n := normalizeName name in
    allChars (fun c => nameChar c || isBlank c) n = true
    /\ includes n "  " = false
    /\ trim n = n.
Proof.
  intros name n. pose proof (spaced_normalizeName name) as H. fold n in H.
  split; [exact (spaced_chars false n H)|].
  split; [exact (spaced_no_double false n H)|].
  unfold n, normalizeName. apply trim_idempotent.
Qed.

End NameFacts.

(** ** Identity normaliser: edit distance and fuzzy matching *)

Section DistanceFacts.
Import JS Normalize.

Lemma matrixEntry_nil_r (x : list ascii) : matrixEntry x [] = List.length x.
Proof. now destruct x. Qed.

Lemma matrixEntry_step (bc ac : ascii) (x y : list ascii) :
  matrixEntry (bc :: x) (ac :: y)
  = if Ascii.eqb bc ac then matrixEntry x y
    else Nat.min (matrixEntry x y + 1)
                 (Nat.min (matrixEntry (bc :: x) y + 1) (matrixEntry x (ac :: y) + 1)).
Proof. reflexivity. Qed.

Lemma levenshteinRow_is_matrixRow (bc : ascii) (x : list ascii) (a : string) :
  forall y,
    levenshteinRow bc a (matrixEntry x y) (matrixRow x y a) (matrixEntry (bc :: x) y)
    = matrixRow (bc :: x) y a.
Proof.
  induction a as [|ac a IH]; intros y; [reflexivity|].
  cbn [matrixRow levenshteinRow]. rewrite matrixEntry_step.
  f_equal. apply IH.
Qed.

Lemma matrixRow_first (y : list ascii) (a : string) :
  matrixRow [] y a = seq (S (List.length y)) (String.length a).
Proof.
  revert y. induction a as [|c a IH]; intros y; [reflexivity|].
  cbn [matrixRow String.length seq]. f_equal. apply IH.
Qed.

Lemma levenshteinRows_is_matrixRow (a b : string) :
  forall x,
    levenshteinRows a b (S (List.length x)) (matrixEntry x [] :: matrixRow x [] a)
    = matrixEntry (backwards b ++ x) [] :: matrixRow (backwards b ++ x) [] a.
Proof.
  induction b as [|bc b IH]; intros x; [reflexivity|].
  cbn [levenshteinRows].
  replace (S (List.length x)) with (matrixEntry (bc :: x) []) at 1 2 by reflexivity.
  rewrite levenshteinRow_is_matrixRow.
  change (S (matrixEntry (bc :: x) [])) with (S (List.length (bc :: x))).
  rewrite (IH (bc :: x)).
  unfold backwards. cbn [list_ascii_of_string rev]. now rewrite <- app_assoc.
Qed.

Lemma last_matrixRow (x : list ascii) (a : string) :
  forall y d,
    List.last (matrixEntry x y :: matrixRow x y a) d = matrixEntry x (backwards a ++ y).
Proof.
  induction a as [|c a IH]; intros y d; [reflexivity|].
  cbn [matrixRow]. 
  change (List.last (matrixEntry x y :: matrixEntry x (c :: y) :: matrixRow x (c :: y) a) d)
    with (List.last (matrixEntry x (c :: y) :: matrixRow x (c :: y) a) d).
  rewrite IH. unfold backwards. cbn [list_ascii_of_string rev]. now rewrite <- app_assoc.
Qed.

(** The value computed row by row is the entry for the two whole strings. *)
Lemma levenshteinDistance_entry (a b : string) :
  levenshteinDistance a b = matrixEntry (backwards b) (backwards a).
Proof.
  unfold levenshteinDistance.
  pose proof (levenshteinRows_is_matrixRow a b []) as H.
  cbn [List.length matrixEntry] in H.
  change (fun y : list ascii => List.length y) with (matrixEntry []) in H.
  rewrite matrixRow_first in H. cbn [List.length] in H.
  change (0%nat :: seq 1 (String.length a)) with (seq 0 (S (String.length a))) in H.
  rewrite H, last_matrixRow, !app_nil_r. reflexivity.
Qed.

Lemma matrixEntry_sym (x : list ascii) : forall y, matrixEntry x y = matrixEntry y x.
Proof.
  induction x as [|bc x IHx]; intros y.
  - now rewrite matrixEntry_nil_r.
  - induction y as [|ac y IHy]; [reflexivity|].
    rewrite !matrixEntry_step, IHy, (IHx y), (IHx (ac :: y)).
    rewrite (Ascii.eqb_sym ac bc).
    destruct (Ascii.eqb bc ac); [reflexivity|]. lia.
Qed.

Lemma matrixEntry_bounds (x : list ascii) :
  forall y,
    (List.length x - List.length y <= matrixEntry x y
     /\ List.length y - List.length x <= matrixEntry x y
     /\ matrixEntry x y <= Nat.max (List.length x) (List.length y))%nat.
Proof.
  induction x as [|bc x IHx]; intros y.
  - cbn [matrixEntry List.length]. lia.
  - induction y as [|ac y IHy]; [cbn [matrixEntry List.length]; lia|].
    rewrite matrixEntry_step. cbn [List.length] in *.
    pose proof (IHx y). pose proof (IHx (ac :: y)). cbn [List.length] in *.
    destruct (Ascii.eqb bc ac); lia.
Qed.

Lemma matrixEntry_zero (x : list ascii) : forall y, matrixEntry x y = 0%nat -> x = y.
Proof.
  induction x as [|bc x IHx]; intros y.
  - cbn. now destruct y.
  - destruct y as [|ac y]; [discriminate|].
    rewrite matrixEntry_step.
    destruct (Ascii.eqb bc ac) eqn:E; [|lia].
    apply Ascii.eqb_eq in E. subst ac. intros H. now rewrite (IHx y H).
Qed.

Lemma matrixEntry_same (x : list ascii) : matrixEntry x x = 0%nat.
Proof.
  induction x as [|c x IH]; [reflexivity|].
  now rewrite matrixEntry_step, Ascii.eqb_refl.
Qed.

Lemma backwards_inj (a b : string) : backwards a = backwards b -> a = b.
Proof.
  unfold backwards. intros H.
  apply (f_equal (@rev ascii)) in H. rewrite !rev_involutive in H.
  apply (f_equal string_of_list_ascii) in H.
  now rewrite !string_of_list_ascii_of_string in H.
Qed.

Lemma length_backwards (s : string) : List.length (backwards s) = String.length s.
Proof.
  unfold backwards. rewrite length_rev.
  induction s as [|c s IH]; cbn; [reflexivity | now rewrite IH].
Qed.

(** X6. [levenshteinDistance] is symmetric. *)
Theorem levenshteinDistance_symmetric :
  forall a b : string, levenshteinDistance a b = levenshteinDistance b a.
Proof. intros a b. rewrite !levenshteinDistance_entry. apply matrixEntry_sym. Qed.

(** X7. [levenshteinDistance] is zero exactly for equal strings. *)
Theorem levenshteinDistance_zero_iff_equal :
  forall a b : string, levenshteinDistance a b = 0%nat <-> a = b.
Proof.
  intros a b. rewrite levenshteinDistance_entry. split.
  - intros H. apply matrixEntry_zero in H. symmetry. now apply backwards_inj.
  - intros ->. apply matrixEntry_same.
Qed.

(** X8. [levenshteinDistance] is at least the difference of the two
    lengths and at most the greater length; so the distance to the empty
    string is the length of the other string. *)
Theorem levenshteinDistance_bounds :
  forall a b : string,
    (String.length a - String.length b <= levenshteinDistance a b
     /\ String.length b - String.length a <= levenshteinDistance a b
     /\ levenshteinDistance a b <= Nat.max (String.length a) (String.length b))%nat.
Proof.
  intros a b. rewrite levenshteinDistance_entry.
  pose proof (matrixEntry_bounds (backwards b) (backwards a)) as H.
  rewrite !length_backwards in H. lia.
Qed.

End DistanceFacts.

Section FuzzySymmetry.
Import JS Normalize.

Lemma levenshteinDistance_sym (a b : string) :
  levenshteinDistance a b = levenshteinDistance b a.
Proof. rewrite !levenshteinDistance_entry. apply matrixEntry_sym. Qed.

Lemma nameSimilarity_sym (name1 name2 : string) :
  nameSimilarity name1 name2 = nameSimilarity name2 name1.
Proof.
  unfold nameSimilarity. cbv zeta.
  rewrite (String.eqb_sym (normalizeName name2)), (Nat.max_comm (String.length (normalizeName name2))).
  now rewrite (levenshteinDistance_sym (normalizeName name2)).
Qed.

Lemma sameString_sym (a b : option string) : sameString a b = sameString b a.
Proof. destruct a, b; cbn; try reflexivity. apply String.eqb_sym. Qed.

Lemma sameLowerCase_sym (a b : option string) : sameLowerCase a b = sameLowerCase b a.
Proof. destruct a, b; cbn; try reflexivity. apply String.eqb_sym. Qed.

(** X9. [isFuzzyMatch] is symmetric in its two leads, for every
    threshold. *)
Theorem isFuzzyMatch_symmetric :
  forall (lead1 lead2 : FuzzyLead) (threshold : float),
    isFuzzyMatch lead1 lead2 threshold = isFuzzyMatch lead2 lead1 threshold.
Proof.
  intros lead1 lead2 threshold. unfold isFuzzyMatch.
  rewrite (sameString_sym (fuzzyPhone lead2)), (sameLowerCase_sym (fuzzyCity lead2)).
  rewrite (andb_comm (truthy (fuzzyPhone lead2))), (andb_comm (truthy (fuzzyCity lead2))).
  now rewrite (nameSimilarity_sym (fuzzyName lead2)).
Qed.

(** X10. Two leads whose names normalize to the same string (they differ
    in case, punctuation or spacing only) match at the default threshold,
    unless both carry a non-empty city and the two cities differ. *)
Theorem isFuzzyMatch_same_normalized_name :
  forall lead1 lead2 : FuzzyLead,
    normalizeName (fuzzyName lead1) = normalizeName (fuzzyName lead2) ->
    ~ differentCities lead1 lead2 ->
    isFuzzyMatch lead1 lead2 defaultThreshold = true.
Proof.
  intros lead1 lead2 Hname Hcity. unfold isFuzzyMatch.
  destruct (truthy (fuzzyPhone lead1) && truthy (fuzzyPhone lead2)
            && sameString (fuzzyPhone lead1) (fuzzyPhone lead2)); [reflexivity|].
  pose proof (cities_test_iff lead1 lead2) as Hc.
  destruct (truthy (fuzzyCity lead1) && truthy (fuzzyCity lead2)
            && negb (sameLowerCase (fuzzyCity lead1) (fuzzyCity lead2))).
  - elim Hcity. now apply Hc.
  - cbv zeta. unfold nameSimilarity. cbv zeta. rewrite Hname, String.eqb_refl.
    vm_compute. reflexivity.
Qed.

Lemma isFuzzyMatch_same_normalized_name_witness :
  let a := mkFuzzyLead "Joe's Pizza!" (Some "Reno") None in
  let b := mkFuzzyLead "JOES   PIZZA" (Some "reno") (Some "+16195550001") in
  normalizeName (fuzzyName a) = normalizeName (fuzzyName b)
  /\ ~ differentCities a b
  /\ isFuzzyMatch a b defaultThreshold = true.
Proof.
  cbv zeta.
  assert (Hn : normalizeName "Joe's Pizza!" = normalizeName "JOES   PIZZA") by reflexivity.
  assert (Hc : ~ differentCities (mkFuzzyLead "Joe's Pizza!" (Some "Reno") None)
                 (mkFuzzyLead "JOES   PIZZA" (Some "reno") (Some "+16195550001"))).
  { intros (c1 & c2 & _ & _ & E1 & E2 & Hne). cbn in E1, E2.
    injection E1 as <-. injection E2 as <-. now apply Hne. }
  split; [exact Hn|]. split; [exact Hc|].
  exact (isFuzzyMatch_same_normalized_name
           (mkFuzzyLead "Joe's Pizza!" (Some "Reno") None)
           (mkFuzzyLead "JOES   PIZZA" (Some "reno") (Some "+16195550001")) Hn Hc).
Defined.

End FuzzySymmetry.

(** ** Identity normaliser: the shape of domains *)

Section DomainShape.
Import JS Url Normalize.

Lemma lowerChar_idempotent : forall c, Ascii.eqb (lowerChar (lowerChar c)) (lowerChar c) = true.
Proof.
  exact (forall_ascii (fun c => Ascii.eqb (lowerChar (lowerChar c)) (lowerChar c))
           ltac:(vm_compute; reflexivity)).
Qed.

Lemma toLowerCase_idempotent (s : string) : toLowerCase (toLowerCase s) = toLowerCase s.
Proof.
  induction s as [|c t IH]; cbn; [reflexivity|].
  pose proof (lowerChar_idempotent c) as H. apply Ascii.eqb_eq in H. now rewrite H, IH.
Qed.

Lemma toLowerCase_substringFrom (n : nat) (s : string) :
  toLowerCase (substringFrom n s) = substringFrom n (toLowerCase s).
Proof.
  revert s. induction n as [|n IH]; intros s; [reflexivity|].
  destruct s as [|c t]; [reflexivity|]. cbn [substringFrom toLowerCase]. apply IH.
Qed.

(** X11. A domain that [normalizeDomain] returns is never empty, never
    [localhost], and is in lower case. *)
Theorem normalizeDomain_output_is_canonical :
  forall (platform : string -> option string) (url : option string) (d : string),
    normalizeDomain platform url = Some d ->
    d <> "" /\ d <> "localhost" /\ toLowerCase d = d.
Proof.
  intros platform url d H.
  destruct (normalizeDomain_output platform url d H) as [Hne Hlocal].
  split; [exact Hne|]. split; [exact Hlocal|].
  unfold normalizeDomain in H. destruct url as [u|]; [|discriminate].
  destruct (negb (truthy (Some u)) || (trim u =? "")); [discriminate|].
  destruct (URL_hostname platform _) as [h|].
  - cbv zeta in H.
    set (hostname := if startsWith (toLowerCase h) "www."
                     then substringFrom 4 (toLowerCase h) else toLowerCase h) in H.
    destruct (negb (truthy (Some hostname)) || (hostname =? "localhost")); [discriminate|].
    injection H as <-. unfold hostname.
    destruct (startsWith (toLowerCase h) "www.").
    + now rewrite toLowerCase_substringFrom, toLowerCase_idempotent.
    + apply toLowerCase_idempotent.
  - destruct (domainPatternMatch u); [|discriminate]. injection H as <-.
    apply toLowerCase_idempotent.
Qed.

Lemma visible_not_space : forall c, visible c = true -> negb (isSpace c) = true.
Proof. apply (char_implies visible (fun c => negb (isSpace c))). vm_compute. reflexivity. Qed.

Lemma visible_not_C0 : forall c, visible c = true -> negb (isC0OrSpace c) = true.
Proof. apply (char_implies visible (fun c => negb (isC0OrSpace c))). vm_compute. reflexivity. Qed.

Lemma visible_not_tab : forall c, visible c = true -> negb (isTabOrNewline c) = true.
Proof.
  apply (char_implies visible (fun c => negb (isTabOrNewline c))). vm_compute. reflexivity.
Qed.

Lemma hostChar_visible : forall c, hostChar c = true -> visible c = true.
Proof. apply (char_implies hostChar visible). vm_compute. reflexivity. Qed.

Lemma hostChar_inHostPort : forall c, hostChar c = true -> inHostPort c = true.
Proof. apply (char_implies hostChar inHostPort). vm_compute. reflexivity. Qed.

Lemma urlTail_visible (rest : string) : urlTail rest = true -> allChars visible rest = true.
Proof.
  destruct rest as [|c t]; [reflexivity|]. unfold urlTail.
  intros H. now apply andb_prop in H.
Qed.

(** The longest prefix without a stop character, when the host is followed
    by a tail. *)
Lemma takeUntil_host (stop : ascii -> bool) (h rest : string) :
  allChars (fun c => negb (stop c)) h = true ->
  match rest with String c _ => stop c = true | EmptyString => True end ->
  takeUntil stop (h ++ rest) = h.
Proof.
  intros Hh Hrest. induction h as [|c h IH]; cbn [append takeUntil].
  - destruct rest as [|c t]; [reflexivity|]. cbn [takeUntil]. now rewrite Hrest.
  - cbn [allChars] in Hh. apply andb_prop in Hh. destruct Hh as [Hc Hh].
    apply negb_true_iff in Hc. now rewrite Hc, (IH Hh).
Qed.

Lemma afterFirst_host (stop : ascii -> bool) (h rest : string) :
  allChars (fun c => negb (stop c)) h = true ->
  afterFirst stop (h ++ rest) = afterFirst stop rest.
Proof.
  intros Hh. induction h as [|c h IH]; cbn [append afterFirst]; [reflexivity|].
  cbn [allChars] in Hh. apply andb_prop in Hh. destruct Hh as [Hc Hh].
  apply negb_true_iff in Hc. now rewrite Hc, (IH Hh).
Qed.

Lemma dropWhile_host (p : ascii -> bool) (h rest : string) :
  allChars p h = true ->
  match rest with String c _ => p c = false | EmptyString => True end ->
  dropWhile p (h ++ rest) = rest.
Proof.
  intros Hh Hrest. induction h as [|c h IH]; cbn [append dropWhile].
  - destruct rest as [|c t]; [reflexivity|]. cbn [dropWhile]. now rewrite Hrest.
  - cbn [allChars] in Hh. apply andb_prop in Hh. destruct Hh as [Hc Hh].
    now rewrite Hc, (IH Hh).
Qed.

Lemma urlTail_stops (rest : string) :
  urlTail rest = true ->
  match rest with String c _ => endsAuthority c = true | EmptyString => True end.
Proof.
  destruct rest as [|c t]; [trivial|]. unfold urlTail.
  intros H. now apply andb_prop in H.
Qed.

Lemma urlTail_delimiter (rest : string) :
  urlTail rest = true ->
  match rest with String c _ => inHostPort c = false | EmptyString => True end.
Proof.
  intros H. apply urlTail_stops in H. destruct rest as [|c t]; [trivial|].
  unfold inHostPort. now rewrite H.
Qed.

(** The host of [scheme://host tail], for a lower-case ASCII host that is
    neither numeric nor internationalized. *)
Lemma URL_hostname_host (platform : string -> option string) (secure : bool)
    (h rest : string) :
  allChars hostChar h = true -> h <> "" ->
  endsInNumber h = false -> hasAceLabel h = false -> urlTail rest = true ->
  URL_hostname platform ((if secure then "https://" else "http://") ++ h ++ rest) = Some h.
Proof.
  intros H Hne Hnum Hace Hrest.
  set (scheme := if secure then "https://" else "http://").
  assert (Hvis : allChars visible (scheme ++ h ++ rest) = true).
  { rewrite !allChars_app. apply andb_true_intro. split; [now destruct secure|].
    apply andb_true_intro. split; [exact (allChars_impl _ _ _ hostChar_visible H)|].
    now apply urlTail_visible. }
  assert (Hpre : preprocess (scheme ++ h ++ rest) = scheme ++ h ++ rest).
  { unfold preprocess.
    replace (stripLeading (scheme ++ h ++ rest)) with (scheme ++ h ++ rest)
      by now destruct secure.
    rewrite stripTrailing_plain by exact (allChars_impl _ _ _ visible_not_C0 Hvis).
    apply filterChars_all. exact (allChars_impl _ _ _ visible_not_tab Hvis). }
  unfold URL_hostname. rewrite Hpre.
  assert (Hafter : (if startsWith (toLowerCase (scheme ++ h ++ rest)) "https:"
                    then hostnameAfterScheme platform (scheme ++ h ++ rest)
                           (substringFrom 6 (scheme ++ h ++ rest))
                    else if startsWith (toLowerCase (scheme ++ h ++ rest)) "http:"
                    then hostnameAfterScheme platform (scheme ++ h ++ rest)
                           (substringFrom 5 (scheme ++ h ++ rest))
                    else platform (scheme ++ h ++ rest))
                   = hostnameAfterScheme platform (scheme ++ h ++ rest) ("//" ++ h ++ rest)).
  { unfold scheme. destruct secure; reflexivity. }
  rewrite Hafter. unfold hostnameAfterScheme.
  assert (Hfirst : match h ++ rest with
                   | String c _ => isSlash c = false
                   | EmptyString => True
                   end).
  { destruct h as [|c h']; [now elim Hne|]. cbn [append].
    cbn [allChars] in H. apply andb_prop in H. destruct H as [Hc _].
    apply hostChar_not_slash in Hc. now apply negb_true_iff in Hc. }
  change (dropWhile isSlash ("//" ++ h ++ rest)) with (dropWhile isSlash ("" ++ h ++ rest)).
  rewrite (dropWhile_host isSlash "" (h ++ rest) eq_refl Hfirst).
  rewrite (takeUntil_host endsAuthority h rest
             (allChars_impl _ _ _ hostChar_in_authority H) (urlTail_stops rest Hrest)).
  rewrite (allChars_impl _ _ _ hostChar_no_credentials H). cbn [negb].
  rewrite (takeUntil_all (isChar 58) h) by exact (allChars_impl _ _ _ hostChar_not_colon H).
  rewrite (afterFirst_all (isChar 58) h) by exact (allChars_impl _ _ _ hostChar_not_colon H).
  apply String.eqb_neq in Hne. rewrite Hne.
  unfold simpleHost. rewrite (allChars_impl _ _ _ hostChar_simple H), Hace. cbn [negb andb].
  unfold parseHost. rewrite (toLowerCase_plain h H).
  rewrite (allChars_impl _ _ _ hostChar_allowed H), Hnum. reflexivity.
Qed.

(** A letter of [https] in either case is no delimiter, and only the
    colon lower-cases to the colon. *)
Lemma scheme_letter_inHostPort :
  forall c, existsb (Ascii.eqb (lowerChar c)) ["h"; "t"; "p"; "s"]%char = true ->
            inHostPort c = true.
Proof.
  apply (char_implies
           (fun c => existsb (Ascii.eqb (lowerChar c)) ["h"; "t"; "p"; "s"]%char) inHostPort).
  vm_compute. reflexivity.
Qed.

Lemma lowerChar_colon : forall c, Ascii.eqb (lowerChar c) ":"%char = true ->
                                  Ascii.eqb c ":"%char = true.
Proof.
  apply (char_implies (fun c => Ascii.eqb (lowerChar c) ":"%char)
           (fun c => Ascii.eqb c ":"%char)).
  vm_compute. reflexivity.
Qed.

(** In a string that starts with the letters of [pre] and a colon, in
    either case, the first delimiter is that colon. *)
Lemma scheme_then_colon (pre s : string) :
  allChars (fun c => existsb (Ascii.eqb c) ["h"; "t"; "p"; "s"]%char) pre = true ->
  String.prefix (pre ++ ":") (toLowerCase s) = true ->
  exists t, dropWhile inHostPort s = String ":"%char t.
Proof.
  revert s. induction pre as [|a pre IH]; intros s Hpre; cbn [append].
  - destruct s as [|c t]; cbn [toLowerCase String.prefix]; [discriminate|].
    destruct (ascii_dec ":" (lowerChar c)) as [E|]; [|discriminate]. intros _.
    assert (Hc : Ascii.eqb c ":"%char = true).
    { apply lowerChar_colon. rewrite <- E. apply Ascii.eqb_refl. }
    apply Ascii.eqb_eq in Hc. subst c. now exists t.
  - cbn [allChars] in Hpre. apply andb_prop in Hpre. destruct Hpre as [Ha Hpre].
    destruct s as [|c t]; cbn [toLowerCase String.prefix]; [discriminate|].
    destruct (ascii_dec a (lowerChar c)) as [E|]; [|discriminate]. intros H.
    cbn [dropWhile]. rewrite (scheme_letter_inHostPort c) by now rewrite <- E.
    now apply IH.
Qed.

Lemma prefix_app_l (p q s : string) :
  String.prefix (p ++ q) s = true -> String.prefix p s = true.
Proof.
  revert s. induction p as [|a p IH]; intros s; [now destruct s|].
  destruct s as [|b s]; cbn [append String.prefix]; [discriminate|].
  destruct (ascii_dec a b); [apply IH | discriminate].
Qed.

(** A host followed by a tail does not start with a scheme. *)
Lemma hasHttpScheme_host (h rest : string) :
  allChars hostChar h = true -> urlTail rest = true ->
  hasHttpScheme (h ++ rest) = false.
Proof.
  intros H Hrest.
  assert (Hdrop : dropWhile inHostPort (h ++ rest) = rest).
  { apply dropWhile_host; [exact (allChars_impl _ _ _ hostChar_inHostPort H)|].
    now apply urlTail_delimiter. }
  assert (Hno : forall pre q,
             allChars (fun c => existsb (Ascii.eqb c) ["h"; "t"; "p"; "s"]%char) pre = true ->
             String.prefix ((pre ++ ":") ++ q) (toLowerCase (h ++ rest)) = false).
  { intros pre q Hpre.
    destruct (String.prefix ((pre ++ ":") ++ q) (toLowerCase (h ++ rest))) eqn:E;
      [|reflexivity].
    apply prefix_app_l, (scheme_then_colon pre _ Hpre) in E.
    destruct E as (t & E). rewrite Hdrop in E. subst rest. discriminate Hrest. }
  unfold hasHttpScheme, afterScheme, afterPrefixCI, startsWith.
  change "https://" with (("https" ++ ":") ++ "//").
  change "http://" with (("http" ++ ":") ++ "//").
  now rewrite (Hno "https" "//" eq_refl), (Hno "http" "//" eq_refl).
Qed.

Lemma endsInNumber_www (d : string) : endsInNumber ("www." ++ d) = endsInNumber d.
Proof.
  unfold endsInNumber.
  assert (Hsplit : splitOn dot ("www." ++ d) = "www" :: splitOn dot d).
  { cbn. now destruct (splitOn dot d). }
  rewrite Hsplit. cbn [rev].
  destruct (rev (splitOn dot d)) as [|x [|y r]] eqn:E.
  - apply (f_equal (@List.length string)) in E. rewrite length_rev in E.
    destruct d; cbn in E; [discriminate|].
    destruct (Ascii.eqb _ _); [discriminate|]. destruct (splitOn dot d); discriminate.
  - cbn [app]. destruct x; reflexivity.
  - cbn [app]. destruct x; reflexivity.
Qed.

Lemma hasAceLabel_www (d : string) : hasAceLabel ("www." ++ d) = hasAceLabel d.
Proof.
  unfold hasAceLabel.
  assert (Hsplit : splitOn dot ("www." ++ d) = "www" :: splitOn dot d).
  { cbn. now destruct (splitOn dot d). }
  rewrite Hsplit. reflexivity.
Qed.

Lemma append_associative (a b c : string) : (a ++ b) ++ c = a ++ b ++ c.
Proof. induction a as [|x a IH]; cbn [append]; [reflexivity | now rewrite IH]. Qed.

Lemma prefix_append (p s : string) : String.prefix p (p ++ s) = true.
Proof.
  induction p as [|a p IH]; cbn [append String.prefix]; [apply prefix_empty|].
  destruct (ascii_dec a a) as [_|Hn]; [exact IH | now elim Hn].
Qed.

Lemma prefix_cons (a b : ascii) (p s : string) :
  String.prefix (String a p) (String b s) = Ascii.eqb a b && String.prefix p s.
Proof.
  cbn [String.prefix]. destruct (ascii_dec a b) as [->|Hn].
  - now rewrite Ascii.eqb_refl.
  - apply Ascii.eqb_neq in Hn. now rewrite Hn.
Qed.

Lemma toLowerCase_app (a b : string) :
  toLowerCase (a ++ b) = toLowerCase a ++ toLowerCase b.
Proof. induction a as [|c a IH]; cbn [append toLowerCase]; [reflexivity | now rewrite IH]. Qed.

Lemma hasHttpScheme_literal (secure : bool) (x : string) :
  hasHttpScheme ((if secure then "https://" else "http://") ++ x) = true.
Proof.
  unfold hasHttpScheme, afterScheme, afterPrefixCI, startsWith.
  rewrite toLowerCase_app.
  destruct secure.
  - change (toLowerCase "https://") with "https://".
    cbn [append]. rewrite !prefix_cons, prefix_empty. reflexivity.
  - change (toLowerCase "http://") with "http://".
    cbn [append]. rewrite !prefix_cons, prefix_empty. reflexivity.
Qed.

(** X12. For a plain host name [d] other than [localhost], the scheme
    [http://] or [https://] (or none), a leading [www.], and whatever path,
    query or fragment follows make no difference: [normalizeDomain] returns
    [d]. *)
Theorem normalizeDomain_strips_scheme_www_and_path :
  forall (platform : string -> option string) (scheme www d rest : string),
    In scheme [""; "http://"; "https://"] ->
    In www [""; "www."] ->
    plainHost d = true -> d <> "" -> d <> "localhost" ->
    urlTail rest = true ->
    normalizeDomain platform (Some (scheme ++ www ++ d ++ rest)) = Some d.
Proof.
  intros platform scheme www d rest Hscheme Hwww Hplain Hne Hlocal Hrest.
  unfold plainHost in Hplain.
  apply andb_prop in Hplain. destruct Hplain as [Hplain Hace].
  apply andb_prop in Hplain. destruct Hplain as [Hplain Hnum].
  apply andb_prop in Hplain. destruct Hplain as [H Hnowww].
  apply negb_true_iff in Hace, Hnum, Hnowww.
  set (h := www ++ d).
  assert (Hh : allChars hostChar h = true
               /\ h <> "" /\ endsInNumber h = false /\ hasAceLabel h = false
               /\ (if startsWith h "www." then substringFrom 4 h else h) = d).
  { unfold h. destruct Hwww as [<- | [<- | []]].
    - cbn [append]. unfold startsWith in *. rewrite Hnowww.
      split; [exact H|]. split; [exact Hne|]. split; [exact Hnum|]. now split.
    - rewrite endsInNumber_www, hasAceLabel_www.
      split; [rewrite allChars_app; now rewrite H|].
      split; [cbn [append]; discriminate|]. split; [exact Hnum|].
      split; [exact Hace|].
      unfold startsWith. now rewrite prefix_append. }
  destruct Hh as (Hhost & Hhne & Hhnum & Hhace & Hstrip).
  assert (Hurl : scheme ++ www ++ d ++ rest = scheme ++ h ++ rest).
  { unfold h. now rewrite append_associative. }
  rewrite Hurl. clear Hurl.
  assert (Hvis : allChars visible (scheme ++ h ++ rest) = true).
  { rewrite !allChars_app. apply andb_true_intro. split.
    - destruct Hscheme as [<- | [<- | [<- | []]]]; reflexivity.
    - apply andb_true_intro. split; [exact (allChars_impl _ _ _ hostChar_visible Hhost)|].
      now apply urlTail_visible. }
  assert (Hnonempty : truthy (Some (scheme ++ h ++ rest)) = true).
  { destruct Hscheme as [<- | [<- | [<- | []]]]; try reflexivity.
    cbn [append]. destruct h; [now elim Hhne | reflexivity]. }
  assert (Htrim : trim (scheme ++ h ++ rest) = scheme ++ h ++ rest).
  { pose proof (allChars_impl _ _ _ visible_not_space Hvis) as Hsp.
    unfold trim. now rewrite trimStart_plain, trimEnd_plain. }
  unfold normalizeDomain. rewrite Htrim, Hnonempty.
  assert (Hne' : (scheme ++ h ++ rest =? "") = false).
  { destruct (scheme ++ h ++ rest); [discriminate Hnonempty | reflexivity]. }
  rewrite Hne'. cbn [negb orb]. cbv zeta.
  assert (Hhostname :
            URL_hostname platform
              (if negb (hasHttpScheme (scheme ++ h ++ rest))
               then "https://" ++ scheme ++ h ++ rest else scheme ++ h ++ rest)
            = Some h).
  { destruct Hscheme as [<- | [<- | [<- | []]]].
    - cbn [append]. rewrite (hasHttpScheme_host h rest Hhost Hrest). cbn [negb].
      exact (URL_hostname_host platform true h rest Hhost Hhne Hhnum Hhace Hrest).
    - rewrite (hasHttpScheme_literal false).
      exact (URL_hostname_host platform false h rest Hhost Hhne Hhnum Hhace Hrest).
    - rewrite (hasHttpScheme_literal true).
      exact (URL_hostname_host platform true h rest Hhost Hhne Hhnum Hhace Hrest). }
  rewrite Hhostname. rewrite (toLowerCase_plain h Hhost), Hstrip.
  assert (Ht : truthy (Some d) = true) by (destruct d; [now elim Hne | reflexivity]).
  rewrite Ht. apply String.eqb_neq in Hlocal. now rewrite Hlocal.
Qed.

End DomainShape.

(** ** Scoring engine: what the scores can be *)

Section ScoringBounds.
Import JS Tools.
Local Open Scope Z_scope.

Lemma scoreLead_total_rounded businessName auditResults contactInfo category :
  let r := scoreLead businessName auditResults contactInfo category in
  total r = roundHalfUp (need r + value r + reachability r) 3.
Proof.
  intros r.
  pose proof (scoreLead_ranges businessName auditResults contactInfo category) as Hr.
  cbv zeta in Hr. fold r in Hr.
  unfold r at 1. rewrite scoreLead_total_eq. cbv zeta. fold r.
  apply Math_round_third. lia.
Qed.

Lemma points_cases cond k : points cond k = 0 \/ points cond k = k.
Proof. destruct cond; cbn; lia. Qed.

Lemma points_zero cond k : 0 < k -> points cond k = 0 -> cond = false.
Proof. destruct cond; cbn; [lia | reflexivity]. Qed.

(** X13. The value score of [scoreLead] is one of 50, 70, 80 and 100, and
    the total is never below 17. *)
Theorem scoreLead_value_levels :
  forall (businessName : string) (auditResults : AuditResult)
         (contactInfo : ContactInfo) (category : string),
    let r := scoreLead businessName auditResults contactInfo category in
    In (value r) [50; 70; 80; 100] /\ 17 <= total r.
Proof.
  intros businessName auditResults contactInfo category r.
  pose proof (scoreLead_ranges businessName auditResults contactInfo category) as Hr.
  pose proof (scoreLead_total_rounded businessName auditResults contactInfo category) as Ht.
  cbv zeta in Hr, Ht. fold r in Hr, Ht. split.
  - unfold r. rewrite scoreLead_value.
    destruct (points_cases
                (existsb (fun cat => includes (toLowerCase category) cat) highValueCategories)
                30) as [-> | ->],
             (points_cases (cmsRecognised auditResults) 20) as [-> | ->];
      cbn; tauto.
  - rewrite Ht.
    pose proof (roundHalfUp_nearest (need r + value r + reachability r) 3 ltac:(lia)).
    lia.
Qed.

(** X14. A total of 75 or more, the qualification threshold of the loop,
    is out of reach without a contact channel: the contact record holds a
    phone, an e-mail address or a website. *)
Theorem scoreLead_qualified_needs_contact :
  forall (businessName : string) (auditResults : AuditResult)
         (contactInfo : ContactInfo) (category : string),
    75 <= total (scoreLead businessName auditResults contactInfo category) ->
    truthy (contactPhone contactInfo) || truthy (contactEmail contactInfo)
    || truthy (contactWebsite contactInfo) = true.
Proof.
  intros businessName auditResults contactInfo category H.
  pose proof (scoreLead_ranges businessName auditResults contactInfo category) as Hr.
  pose proof (scoreLead_total_rounded businessName auditResults contactInfo category) as Ht.
  cbv zeta in Hr, Ht.
  set (r := scoreLead businessName auditResults contactInfo category) in *.
  pose proof (roundHalfUp_nearest (need r + value r + reachability r) 3 ltac:(lia)) as Hn.
  assert (Hreach : 0 < reachability r) by lia.
  unfold r in Hreach. rewrite scoreLead_reachability in Hreach.
  destruct (truthy (contactPhone contactInfo)); [reflexivity|].
  destruct (truthy (contactEmail contactInfo)); [reflexivity|].
  destruct (truthy (contactWebsite contactInfo)); [reflexivity|].
  cbn in Hreach. lia.
Qed.

(** X15. With no recognised CMS, no e-mail address and no website the total
    is at most 73.  This is the case of every place without a website in the
    mission loop (its audit has the CMS hint [none] and the loop never has an
    e-mail address), so such a place is never qualified. *)
Theorem scoreLead_without_site_not_qualified :
  forall (businessName : string) (auditResults : AuditResult)
         (contactInfo : ContactInfo) (category : string),
    cmsRecognised auditResults = false ->
    truthy (contactEmail contactInfo) = false ->
    truthy (contactWebsite contactInfo) = false ->
    total (scoreLead businessName auditResults contactInfo category) <= 73.
Proof.
  intros businessName auditResults contactInfo category Hcms Hemail Hsite.
  pose proof (scoreLead_ranges businessName auditResults contactInfo category) as Hr.
  pose proof (scoreLead_total_rounded businessName auditResults contactInfo category) as Ht.
  cbv zeta in Hr, Ht.
  set (r := scoreLead businessName auditResults contactInfo category) in *.
  pose proof (roundHalfUp_nearest (need r + value r + reachability r) 3 ltac:(lia)) as Hn.
  assert (Hv : value r <= 80).
  { unfold r. rewrite scoreLead_value, Hcms.
    pose proof (points_range
      (existsb (fun cat => includes (toLowerCase category) cat) highValueCategories) 30).
    cbn [points]. lia. }
  assert (Hre : reachability r <= 40).
  { unfold r. rewrite scoreLead_reachability, Hemail, Hsite.
    pose proof (points_range (truthy (contactPhone contactInfo)) 40).
    cbn [points]. lia. }
  lia.
Qed.

Lemma scoreLead_reasons businessName auditResults contactInfo category :
  reasons (scoreLead businessName auditResults contactInfo category)
  = ((if negb (httpsOk auditResults) then ["Missing HTTPS security"] else [])
     ++ (if negb (mobileOk auditResults) then ["Not mobile optimized"] else [])
     ++ (if negb (hasBooking auditResults) then ["No online booking system"] else [])
     ++ (if negb (schemaOk auditResults) then ["Missing structured data"] else [])
     ++ (if noAnalytics auditResults then ["No analytics tracking"] else [])
     ++ (if existsb (fun cat => includes (toLowerCase category) cat) highValueCategories
         then ["High-value industry"] else [])
     ++ (if cmsRecognised auditResults then [cmsReason auditResults] else [])
     ++ (if truthy (contactPhone contactInfo) then ["Phone number available"] else [])
     ++ (if truthy (contactEmail contactInfo) then ["Email address available"] else [])
     ++ (if truthy (contactWebsite contactInfo) then ["Website available"] else []))%list.
Proof.
  unfold scoreLead. cbn [reasons]. rewrite !snd_pushIf. cbn [snd app].
  now rewrite <- !app_assoc.
Qed.

Lemma one_or_none_nil {A : Type} (c : bool) (x : A) : (if c then [x] else []) = [] -> c = false.
Proof. now destruct c. Qed.

Lemma length_one_or_none {A : Type} (c : bool) (x : A) :
  (List.length (if c then [x] else []) <= 1)%nat.
Proof. destruct c; cbn; lia. Qed.

(** X16. [scoreLead] gives no reason exactly when no rule fired, that is
    when need is 0, value is the base 50 and reachability is 0; and it gives
    at most ten reasons. *)
Theorem scoreLead_reasons_explain_points :
  forall (businessName : string) (auditResults : AuditResult)
         (contactInfo : ContactInfo) (category : string),
    let r := scoreLead businessName auditResults contactInfo category in
    (reasons r = [] <-> need r = 0 /\ value r = 50 /\ reachability r = 0)
    /\ (List.length (reasons r) <= 10)%nat.
Proof.
  intros businessName auditResults contactInfo category r. unfold r.
  rewrite scoreLead_reasons, scoreLead_need, scoreLead_value, scoreLead_reachability.
  split; [split|].
  - intros H.
    repeat (apply app_eq_nil in H; destruct H as [?%one_or_none_nil H]).
    apply one_or_none_nil in H.
    repeat match goal with [ E : _ = false |- _ ] => rewrite E; clear E end.
    cbn. repeat split.
  - intros (Hn & Hv & Hre).
    pose proof (points_range (negb (httpsOk auditResults)) 25).
    pose proof (points_range (negb (mobileOk auditResults)) 25).
    pose proof (points_range (negb (hasBooking auditResults)) 30).
    pose proof (points_range (negb (schemaOk auditResults)) 10).
    pose proof (points_range (noAnalytics auditResults) 10).
    pose proof (points_range
      (existsb (fun cat => includes (toLowerCase category) cat) highValueCategories) 30).
    pose proof (points_range (cmsRecognised auditResults) 20).
    pose proof (points_range (truthy (contactPhone contactInfo)) 40).
    pose proof (points_range (truthy (contactEmail contactInfo)) 30).
    pose proof (points_range (truthy (contactWebsite contactInfo)) 30).
    rewrite (points_zero (negb (httpsOk auditResults)) 25) by lia.
    rewrite (points_zero (negb (mobileOk auditResults)) 25) by lia.
    rewrite (points_zero (negb (hasBooking auditResults)) 30) by lia.
    rewrite (points_zero (negb (schemaOk auditResults)) 10) by lia.
    rewrite (points_zero (noAnalytics auditResults) 10) by lia.
    rewrite (points_zero
      (existsb (fun cat => includes (toLowerCase category) cat) highValueCategories) 30) by lia.
    rewrite (points_zero (cmsRecognised auditResults) 20) by lia.
    rewrite (points_zero (truthy (contactPhone contactInfo)) 40) by lia.
    rewrite (points_zero (truthy (contactEmail contactInfo)) 30) by lia.
    rewrite (points_zero (truthy (contactWebsite contactInfo)) 30) by lia.
    reflexivity.
  - rewrite !length_app.
    repeat match goal with
           | |- context [List.length (if ?c then [?x] else [])] =>
               generalize (length_one_or_none c x);
               generalize (List.length (if c then [x] else [])); intros ? ?
           end.
    lia.
Qed.

End ScoringBounds.

(** ** The store: look-ups after writes *)

Section StoreFacts.
Import JS Tools Storage Resolution.

Variable platform : string -> option string.

Lemma find_In {A : Type} (p : A -> bool) (l : list A) (x : A) :
  find p l = Some x -> In x l.
Proof. intros H. now apply find_some in H. Qed.

Lemma In_firstn {A : Type} (n : nat) (l : list A) (x : A) : In x (firstn n l) -> In x l.
Proof.
  revert l. induction n as [|n IH]; intros l; cbn; [tauto|].
  destruct l as [|y l]; cbn; [tauto|]. intros [H|H]; [now left | right; now apply IH].
Qed.

Lemma find_selected (p q : Lead.t -> bool) (n : nat) (rows : list Lead.t) (l : Lead.t) :
  find p (firstn n (filter q rows)) = Some l -> In l rows.
Proof.
  intros H. apply find_In, In_firstn, filter_In in H. tauto.
Qed.

Lemma findExistingLead_stored (c : Criteria.t) (rows : list Lead.t) (l : Lead.t) :
  findExistingLead platform c rows = Some l -> In l rows.
Proof.
  rewrite findExistingLead_steps. unfold resolveWith, firstFound.
  destruct (byPlaceId c rows) as [l1|] eqn:E1.
  { intros [= <-]. unfold byPlaceId in E1.
    destruct (present (Criteria.placeId c)); [|discriminate]. now apply find_In in E1. }
  destruct (byDomain platform c rows) as [l2|] eqn:E2.
  { intros [= <-]. unfold byDomain in E2.
    destruct (Normalize.normalizeDomain platform (Criteria.domain c)); [|discriminate].
    now apply find_In in E2. }
  destruct (byPhone c rows) as [l3|] eqn:E3.
  { intros [= <-]. unfold byPhone in E3.
    destruct (Normalize.normalizePhone (Criteria.phone c)); [|discriminate].
    destruct (present (Criteria.name c)); [|discriminate].
    now apply find_selected in E3. }
  destruct (byNameAndCity selectsByPattern c rows) as [l4|] eqn:E4; [|discriminate].
  intros [= <-]. unfold byNameAndCity in E4.
  destruct (present (Criteria.name c)); [|discriminate].
  destruct (present (Criteria.city c)); [|discriminate].
  now apply find_selected in E4.
Qed.

(** X17. The lead that [findExistingLead] returns is one of the stored
    rows. *)
Theorem findExistingLead_returns_stored_lead :
  forall (criteria : Criteria.t) (rows : list Lead.t) (l : Lead.t),
    findExistingLead platform criteria rows = Some l -> In l rows.
Proof. intros criteria rows l H. now apply findExistingLead_stored in H. Qed.

Lemma otherLeads_replaceRow (row : Lead.t) (rows : list Lead.t) :
  otherLeads (Lead.id row) (replaceRow row rows) = otherLeads (Lead.id row) rows.
Proof.
  unfold otherLeads, replaceRow. induction rows as [|l rows IH]; [reflexivity|].
  cbn [map filter]. destruct (Lead.id l =? Lead.id row)%nat eqn:E.
  - rewrite Nat.eqb_refl. cbn [negb]. exact IH.
  - rewrite E. cbn [negb]. now rewrite IH.
Qed.

Lemma find_replaceRow (row : Lead.t) (rows : list Lead.t) :
  existsb (fun l => (Lead.id l =? Lead.id row)%nat) rows = true ->
  find (fun l => (Lead.id l =? Lead.id row)%nat) (replaceRow row rows) = Some row.
Proof.
  unfold replaceRow. induction rows as [|l rows IH]; [discriminate|].
  cbn [existsb map find]. destruct (Lead.id l =? Lead.id row)%nat eqn:E.
  - now rewrite Nat.eqb_refl.
  - rewrite E. exact IH.
Qed.

Lemma forallb_replaceRow (p : Lead.t -> bool) (row : Lead.t) (rows : list Lead.t) :
  p row = true -> forallb p rows = true -> forallb p (replaceRow row rows) = true.
Proof.
  intros Hrow. unfold replaceRow. induction rows as [|l rows IH]; [reflexivity|].
  cbn [forallb map]. intros H. apply andb_prop in H. destruct H as [Hl H].
  rewrite (IH H). now destruct (Lead.id l =? Lead.id row)%nat; [rewrite Hrow | rewrite Hl].
Qed.

Lemma find_fresh (next : nat) (rows : list Lead.t) :
  forallb (fun l => (Lead.id l <? next)%nat) rows = true ->
  find (fun l => (Lead.id l =? next)%nat) rows = None.
Proof.
  induction rows as [|l rows IH]; [reflexivity|].
  cbn [forallb find]. intros H. apply andb_prop in H. destruct H as [Hl H].
  apply Nat.ltb_lt in Hl. destruct (Nat.eqb_spec (Lead.id l) next); [lia | now apply IH].
Qed.

Lemma In_existsb_id (l : Lead.t) (rows : list Lead.t) :
  In l rows -> existsb (fun x => (Lead.id x =? Lead.id l)%nat) rows = true.
Proof.
  intros H. apply existsb_exists. exists l. split; [exact H | apply Nat.eqb_refl].
Qed.

(** What a successful [upsertLead] returns and leaves behind. *)
Lemma upsertLead_returns (il : InsertLead.t) (now : Z) (db db' : Database) (r : UpsertResult) :
  upsertLead platform il now db = (Returns r, db') ->
  (exists existing,
     In existing (leads db) /\ Lead.id (lead r) = Lead.id existing /\ isNew r = false
     /\ lead r = mergedRow il (Normalize.normalizeDomain platform (InsertLead.domain il))
                   (Normalize.normalizePhone (InsertLead.phone il)) existing now
     /\ db' = withLeads db (replaceRow (lead r) (leads db)) (nextLeadId db))
  \/ (Lead.id (lead r) = nextLeadId db /\ isNew r = true
      /\ lead r = insertedRow il (Normalize.normalizeDomain platform (InsertLead.domain il))
                    (Normalize.normalizePhone (InsertLead.phone il)) (nextLeadId db) now
      /\ db' = withLeads db (leads db ++ [lead r])%list (S (nextLeadId db))).
Proof.
  unfold upsertLead.
  destruct (findExistingLead platform (criteriaOf il) (leads db)) as [existing|] eqn:E;
    cbv zeta.
  - destruct (uniqueViolation _ _ _ _); [discriminate|].
    intros [= <- <-]. left. exists existing.
    split; [now apply findExistingLead_stored in E|]. now repeat split.
  - destruct (uniqueViolation _ _ _ _); [discriminate|].
    intros [= <- <-]. right. now repeat split.
Qed.

(** X18. A successful [upsertLead] writes one row of [leads] and nothing
    else: the table grows by one row when the lead is new and keeps its size
    otherwise, every row with another id is as it was, and the metrics,
    scores and mission events are untouched. *)
Theorem upsertLead_touches_one_row :
  forall (insertLead : InsertLead.t) (now : Z) (db db' : Database) (r : UpsertResult),
    upsertLead platform insertLead now db = (Returns r, db') ->
    List.length (leads db') = (List.length (leads db) + if isNew r then 1 else 0)%nat
    /\ otherLeads (Lead.id (lead r)) (leads db') = otherLeads (Lead.id (lead r)) (leads db)
    /\ leadMetrics db' = leadMetrics db /\ scores db' = scores db
    /\ missionEvents db' = missionEvents db.
Proof.
  intros il now db db' r H.
  apply upsertLead_returns in H.
  destruct H as [(existing & Hin & Hid & Hnew & Hrow & ->) | (Hid & Hnew & _ & ->)];
    rewrite Hnew; cbn [leads withLeads leadMetrics scores missionEvents].
  - split; [unfold replaceRow; rewrite length_map; lia|].
    split; [apply otherLeads_replaceRow | now repeat split].
  - split; [rewrite length_app; reflexivity|].
    split; [|now repeat split].
    unfold otherLeads. rewrite filter_app. cbn [filter].
    rewrite Nat.eqb_refl. cbn [negb]. apply app_nil_r.
Qed.

(** X19. In a database whose ids were all generated before
    [nextLeadId], the lead a successful [upsertLead] returns is the one
    [getLeadById] finds under its id afterwards, and the ids stay below
    [nextLeadId]. *)
Theorem upsertLead_then_getLeadById :
  forall (insertLead : InsertLead.t) (now : Z) (db db' : Database) (r : UpsertResult),
    idsBelow db = true ->
    upsertLead platform insertLead now db = (Returns r, db') ->
    getLeadById (Lead.id (lead r)) db' = Some (lead r) /\ idsBelow db' = true.
Proof.
  intros il now db db' r Hids H. unfold getLeadById. rewrite hd_error_selectWhere.
  unfold idsBelow in *.
  apply upsertLead_returns in H.
  destruct H as [(existing & Hin & Hid & Hnew & Hrow & ->) | (Hid & Hnew & _ & ->)];
    cbn [leads withLeads nextLeadId].
  - split.
    + apply find_replaceRow. rewrite Hid. now apply In_existsb_id.
    + apply forallb_replaceRow; [|exact Hids].
      rewrite Hid. rewrite forallb_forall in Hids. now apply Hids.
  - split.
    + rewrite Hid, find_app_none by now apply find_fresh.
      cbn [find]. now rewrite Hid, Nat.eqb_refl.
    + rewrite forallb_app. apply andb_true_intro. split.
      * rewrite forallb_forall in *. intros l Hl. specialize (Hids l Hl).
        apply Nat.ltb_lt in Hids. apply Nat.ltb_lt. lia.
      * cbn [forallb]. rewrite Hid, andb_true_r. apply Nat.ltb_lt. lia.
Qed.

End StoreFacts.

Section StoreFacts2.
Import JS Tools Storage Resolution.

Variable platform : string -> option string.

Lemma inArray_keyAmong (column : option string) (keys : list string) :
  inArray column keys = true <-> keyAmong column keys.
Proof.
  unfold inArray, keyAmong. destruct column as [x|].
  - rewrite existsb_exists. split.
    + intros (k & Hk & E). apply String.eqb_eq in E. subst k. now exists x.
    + intros (k & [= <-] & Hk). exists x. split; [exact Hk | apply String.eqb_refl].
  - split; [discriminate | now intros (k & E & _)].
Qed.

Lemma inArray_nil (column : option string) : inArray column [] = false.
Proof. now destruct column. Qed.

(** X20. [getLeadsByPlaceIds] returns exactly the stored leads whose
    place id is among those asked for, and [getLeadsByDomainsOrPhones]
    exactly those whose canonical domain is among the domains or whose
    normalized phone is among the phones; an empty list of keys selects
    nothing, in every branch of the two functions. *)
Theorem batch_lookups_select_by_key :
  forall (placeIds domains phones : list string) (db : Database) (l : Lead.t),
    (In l (getLeadsByPlaceIds placeIds db)
     <-> In l (leads db) /\ keyAmong (Lead.placeId l) placeIds)
    /\ (In l (getLeadsByDomainsOrPhones domains phones db)
        <-> In l (leads db)
            /\ (keyAmong (Lead.canonicalDomain l) domains
                \/ keyAmong (Lead.normalizedPhone l) phones)).
Proof.
  intros placeIds domains phones db l. split.
  - unfold getLeadsByPlaceIds. rewrite <- inArray_keyAmong.
    destruct placeIds as [|p ps]; cbn [List.length Nat.eqb].
    + rewrite inArray_nil. cbn. intuition discriminate.
    + rewrite filter_In. reflexivity.
  - unfold getLeadsByDomainsOrPhones. rewrite <- !inArray_keyAmong.
    destruct domains as [|d ds], phones as [|p ps];
      cbn [List.length Nat.eqb Nat.ltb Nat.leb andb]; rewrite ?inArray_nil;
      rewrite ?filter_In, ?orb_true_iff; cbn [In]; intuition discriminate.
Qed.

Lemma find_map_other {A : Type} (p q : A -> bool) (f : A -> A) (rows : list A) :
  (forall x, q x = true -> p x = false /\ p (f x) = false) ->
  find p (map (fun x => if q x then f x else x) rows) = find p rows.
Proof.
  intros H. induction rows as [|x rows IH]; [reflexivity|].
  cbn [map find]. destruct (q x) eqn:E.
  - destruct (H x E) as [H1 H2]. now rewrite H1, H2.
  - now rewrite IH.
Qed.

Lemma find_map_same {A : Type} (p : A -> bool) (f : A -> A) (rows : list A) :
  (forall x, p x = true -> p (f x) = true) ->
  find p (map (fun x => if p x then f x else x) rows) = option_map f (find p rows).
Proof.
  intros H. induction rows as [|x rows IH]; [reflexivity|].
  cbn [map find]. destruct (p x) eqn:E.
  - now rewrite (H x E).
  - now rewrite E.
Qed.

Lemma find_exists {A : Type} (p : A -> bool) (rows : list A) :
  existsb p rows = true -> exists x, find p rows = Some x.
Proof.
  induction rows as [|x rows IH]; [discriminate|].
  cbn [existsb find]. destruct (p x); [now exists x | exact IH].
Qed.

(** X21. After [upsertScore] for a stored lead (the foreign key of
    [scores]), [getScore] returns the score just written for that lead and
    what it returned before for every other lead. *)
Theorem upsertScore_then_getScore :
  forall (score : Score.t) (db : Database) (leadId : nat),
    getLeadById (Score.leadId score) db <> None ->
    getScore leadId (upsertScore score db)
    = if (leadId =? Score.leadId score)%nat then Some score else getScore leadId db.
Proof.
  intros sc db leadId _. unfold getScore, upsertScore. cbn [scores].
  destruct (existsb (fun r => (Score.leadId r =? Score.leadId sc)%nat) (scores db)) eqn:E.
  - destruct (Nat.eqb_spec leadId (Score.leadId sc)) as [->|Hne].
    + rewrite (find_map_same _ (fun _ => sc)) by (intros; apply Nat.eqb_refl).
      apply find_exists in E. destruct E as (x & ->). reflexivity.
    + apply (find_map_other _ _ (fun _ => sc)).
      intros x Hx. apply Nat.eqb_eq in Hx. rewrite Hx.
      split; apply Nat.eqb_neq; congruence.
  - destruct (Nat.eqb_spec leadId (Score.leadId sc)) as [->|Hne].
    + rewrite find_app_none.
      * cbn [find]. now rewrite Nat.eqb_refl.
      * destruct (find _ (scores db)) as [x|] eqn:F; [|reflexivity].
        apply find_some in F. destruct F as [Hin Hx].
        assert (existsb (fun r => (Score.leadId r =? Score.leadId sc)%nat) (scores db) = true)
          by (apply existsb_exists; now exists x).
        congruence.
    + destruct (find _ (scores db)) as [x|] eqn:F.
      * clear E. revert F. generalize (scores db). intros rows.
        induction rows as [|y rows IH]; [discriminate|].
        cbn [find app]. destruct (Score.leadId y =? leadId)%nat; [trivial | exact IH].
      * rewrite find_app_none by exact F. cbn [find].
        destruct (Nat.eqb_spec (Score.leadId sc) leadId); [congruence | reflexivity].
Qed.

Lemma map_unchanged {A : Type} (q : A -> bool) (f : A -> A) (rows : list A) :
  existsb q rows = false -> map (fun x => if q x then f x else x) rows = rows.
Proof.
  induction rows as [|x rows IH]; [reflexivity|].
  cbn [existsb map]. intros H. apply orb_false_elim in H. destruct H as [Hx H].
  now rewrite Hx, (IH H).
Qed.

Lemma withLeads_same (db : Database) : withLeads db (leads db) (nextLeadId db) = db.
Proof. now destruct db. Qed.

(** X22. [updateLeadStatus] on an id that is not stored returns
    [undefined] and leaves the database as it was; on a stored id it returns
    the lead with the new status and time stamp, which [getLeadById] then
    finds, and every row with another id is as it was. *)
Theorem updateLeadStatus_by_id :
  forall (id : nat) (status : string) (now : Z) (db : Database),
    match getLeadById id db with
    | None => updateLeadStatus id status now db = (None, db)
    | Some l =>
        fst (updateLeadStatus id status now db) = Some (withStatus status now l)
        /\ getLeadById id (snd (updateLeadStatus id status now db))
           = Some (withStatus status now l)
        /\ otherLeads id (leads (snd (updateLeadStatus id status now db)))
           = otherLeads id (leads db)
    end.
Proof.
  intros id status now db. unfold getLeadById. rewrite hd_error_selectWhere.
  destruct (find (fun l => (Lead.id l =? id)%nat) (leads db)) as [l|] eqn:F.
  - unfold updateLeadStatus. cbn [fst snd leads withLeads].
    rewrite hd_error_selectWhere.
    assert (Hhd : forall rows, hd_error (filter (fun l => (Lead.id l =? id)%nat) rows)
                              = find (fun l => (Lead.id l =? id)%nat) rows).
    { intros rows. induction rows as [|x rows IH]; [reflexivity|].
      cbn [filter find]. now destruct (Lead.id x =? id)%nat. }
    rewrite Hhd.
    rewrite (find_map_same _ (withStatus status now)) by (intros x Hx; exact Hx).
    rewrite F. cbn [option_map]. split; [reflexivity|]. split; [reflexivity|].
    unfold otherLeads. generalize (leads db). intros rows.
    induction rows as [|x rows IH]; [reflexivity|].
    cbn [map filter]. destruct (Lead.id x =? id)%nat eqn:E.
    + cbn [withStatus Lead.id]. rewrite E. exact IH.
    + rewrite E. cbn [negb]. now rewrite IH.
  - unfold updateLeadStatus. apply find_none_existsb in F.
    rewrite (map_unchanged _ _ _ F), withLeads_same.
    f_equal. clear -F. induction (leads db) as [|x rows IH]; [reflexivity|].
    cbn [existsb] in F. apply orb_false_elim in F. destruct F as [Hx F].
    cbn [filter]. rewrite Hx. now apply IH.
Qed.

End StoreFacts2.

Section FilterFacts.
Import JS Tools Storage Resolution.

Lemma forallb_app_conditions (l : Lead.t) (cs ds : list (Lead.t -> bool)) :
  forallb (fun condition => condition l) (cs ++ ds)
  = forallb (fun condition => condition l) cs && forallb (fun condition => condition l) ds.
Proof. apply forallb_app. Qed.

(** The leads that pass the conditions, whether or not there is one. *)
Lemma leadsData_In (filters : ListFilters) (db : Database) (l : Lead.t) :
  In l (if (0 <? List.length (filterConditions filters))%nat
        then filter (fun l => forallb (fun condition => condition l)
                                      (filterConditions filters)) (leads db)
        else leads db)
  <-> In l (leads db)
      /\ forallb (fun condition => condition l) (filterConditions filters) = true.
Proof.
  destruct (filterConditions filters) as [|c cs] eqn:E; cbn [List.length Nat.ltb Nat.leb].
  - cbn. tauto.
  - rewrite filter_In. reflexivity.
Qed.

(** X23. Every lead that [getLeadsByFilters] returns is stored and meets
    the criteria given: with a minimum or a maximum score it has a stored
    score within the bound (a lead without score is left out), with a
    non-empty list of statuses or categories its status or category is in
    the list, and with [hasWebsite] or [hasPhone] set its domain or phone is
    not null. *)
Theorem getLeadsByFilters_sound :
  forall (filters : ListFilters) (db : Database) (l : Lead.t),
    In l (getLeadsByFilters filters db) ->
    In l (leads db)
    /\ (forall lo, filterMinScore filters = Some lo ->
          exists sc, getScore (Lead.id l) db = Some sc /\ (lo <= Score.total sc)%Z)
    /\ (forall hi, filterMaxScore filters = Some hi ->
          exists sc, getScore (Lead.id l) db = Some sc /\ (Score.total sc <= hi)%Z)
    /\ (forall statuses, filterStatus filters = Some statuses -> statuses <> [] ->
          In (Lead.status l) statuses)
    /\ (forall categories, filterCategories filters = Some categories -> categories <> [] ->
          In (Lead.category l) categories)
    /\ (filterHasWebsite filters = Some true -> Lead.domain l <> None)
    /\ (filterHasPhone filters = Some true -> Lead.phone l <> None).
Proof.
  intros filters db l H. unfold getLeadsByFilters in H. cbv zeta in H.
  assert (Hdata : In l (leads db)
                  /\ forallb (fun condition => condition l) (filterConditions filters) = true
                  /\ (isDefined (filterMinScore filters) || isDefined (filterMaxScore filters)
                      = true -> scoreWithin filters (getScore (Lead.id l) db) = true)).
  { destruct (isDefined (filterMinScore filters) || isDefined (filterMaxScore filters)).
    - apply filter_In in H. destruct H as [H Hs].
      apply leadsData_In in H. tauto.
    - apply leadsData_In in H. intuition discriminate. }
  destruct Hdata as (Hin & Hc & Hs). split; [exact Hin|].
  unfold filterConditions in Hc. rewrite !forallb_app_conditions in Hc.
  repeat (apply andb_prop in Hc; destruct Hc as [? Hc]).
  split; [|split; [|split; [|split; [|split]]]].
  - intros lo Hlo. rewrite Hlo in Hs. specialize (Hs eq_refl).
    unfold scoreWithin in Hs. rewrite Hlo in Hs.
    destruct (getScore (Lead.id l) db) as [sc|]; [|discriminate].
    exists sc. split; [reflexivity|].
    destruct (Z.ltb_spec (Score.total sc) lo); [discriminate | lia].
  - intros hi Hhi. rewrite Hhi, orb_true_r in Hs. specialize (Hs eq_refl).
    unfold scoreWithin in Hs. rewrite Hhi in Hs.
    destruct (getScore (Lead.id l) db) as [sc|]; [|discriminate].
    exists sc. split; [reflexivity|].
    destruct (match filterMinScore filters with
              | Some lo => (Score.total sc <? lo)%Z
              | None => false
              end); [discriminate|].
    destruct (Z.ltb_spec hi (Score.total sc)); [discriminate | lia].
  - intros statuses E Hne.
    match goal with
    | [ Hst : forallb _ (inArrayCondition Lead.status _) = true |- _ ] =>
        rewrite E in Hst; unfold inArrayCondition in Hst;
        destruct statuses as [|s ss]; [now elim Hne|];
        cbn [List.length Nat.ltb Nat.leb forallb] in Hst;
        rewrite andb_true_r in Hst; apply existsb_exists in Hst;
        destruct Hst as (x & Hx & Ex); apply String.eqb_eq in Ex; now rewrite Ex
    end.
  - intros categories E Hne.
    match goal with
    | [ Hst : forallb _ (inArrayCondition Lead.category _) = true |- _ ] =>
        rewrite E in Hst; unfold inArrayCondition in Hst;
        destruct categories as [|s ss]; [now elim Hne|];
        cbn [List.length Nat.ltb Nat.leb forallb] in Hst;
        rewrite andb_true_r in Hst; apply existsb_exists in Hst;
        destruct Hst as (x & Hx & Ex); apply String.eqb_eq in Ex; now rewrite Ex
    end.
  - intros E.
    match goal with
    | [ Hw : forallb _ (notNullCondition Lead.domain _) = true |- _ ] =>
        rewrite E in Hw; cbn in Hw; destruct (Lead.domain l); [discriminate | discriminate Hw]
    end.
  - intros E. rewrite E in Hc. cbn in Hc. destruct (Lead.phone l); [discriminate | discriminate Hc].
Qed.

End FilterFacts.

Section SaveFacts.
Import JS Tools Storage Loop.

Variable platform : string -> option string.
Variable clock : nat -> Z.

Lemma getLeadMetrics_upsert (m : Metrics.t) (db : Database) :
  getLeadMetrics (Metrics.leadId m) (upsertLeadMetrics m db)
  = Some match getLeadMetrics (Metrics.leadId m) db with
         | Some old => mergeMetrics m old
         | None => m
         end.
Proof.
  unfold getLeadMetrics, upsertLeadMetrics. cbn [leadMetrics].
  destruct (existsb (fun r => (Metrics.leadId r =? Metrics.leadId m)%nat) (leadMetrics db))
    eqn:E.
  - rewrite (find_map_same _ (mergeMetrics m)) by (intros x Hx; exact Hx).
    apply find_exists in E. destruct E as (x & ->). reflexivity.
  - assert (F : find (fun r => (Metrics.leadId r =? Metrics.leadId m)%nat) (leadMetrics db)
                = None).
    { destruct (find _ (leadMetrics db)) as [x|] eqn:F; [|reflexivity].
      apply find_some in F. destruct F as [Hin Hx].
      assert (existsb (fun r => (Metrics.leadId r =? Metrics.leadId m)%nat) (leadMetrics db)
              = true) by (apply existsb_exists; now exists x).
      congruence. }
    rewrite find_app_none by exact F. rewrite F. cbn [find]. now rewrite Nat.eqb_refl.
Qed.

Lemma upsertScore_getScore_same (sc : Score.t) (db : Database) :
  getScore (Score.leadId sc) (upsertScore sc db) = Some sc.
Proof.
  unfold getScore, upsertScore. cbn [scores].
  destruct (existsb (fun r => (Score.leadId r =? Score.leadId sc)%nat) (scores db)) eqn:E.
  - rewrite (find_map_same _ (fun _ => sc)) by (intros; apply Nat.eqb_refl).
    apply find_exists in E. destruct E as (x & ->). reflexivity.
  - rewrite find_app_none.
    + cbn [find]. now rewrite Nat.eqb_refl.
    + destruct (find _ (scores db)) as [x|] eqn:F; [|reflexivity].
      apply find_some in F. destruct F as [Hin Hx].
      assert (existsb (fun r => (Score.leadId r =? Score.leadId sc)%nat) (scores db) = true)
        by (apply existsb_exists; now exists x).
      congruence.
Qed.

(** X24. What [saveLead] saved can be read back: when it returns an id,
    [getLeadById] finds under it a lead with the name, category and place id
    of the place, [getScore] the score that was saved, and [getLeadMetrics]
    a row with the four flags of the audit. *)
Theorem saveLead_can_be_read_back :
  forall (data : SaveData) (w w' : World) (id : nat) (isNew : bool),
    idsBelow (database w) = true ->
    saveLead platform clock data w = (Returns (id, isNew), w') ->
    (exists l, getLeadById id (database w') = Some l
               /\ Lead.name l = name (dataPlace data)
               /\ Lead.category l = category (dataPlace data)
               /\ Lead.placeId l = Some (placeId (dataPlace data)))
    /\ getScore id (database w') = Some (scoreRow id (dataScore data))
    /\ (exists m, getLeadMetrics id (database w') = Some m /\ flagsStored m (dataAudit data))
    /\ idsBelow (database w') = true.
Proof.
  intros data w w' id isNew Hids H. unfold saveLead in H.
  destruct (upsertLead platform _ _ (database w)) as [[r|msg] db] eqn:E; [|discriminate].
  cbv zeta in H.
  assert (Hw : database w'
               = upsertScore (scoreRow (Lead.id (lead r)) (dataScore data))
                   (upsertLeadMetrics
                      {| Metrics.leadId := Lead.id (lead r);
                         Metrics.httpsOk := Some (httpsOk (dataAudit data));
                         Metrics.mobileOk := Some (mobileOk (dataAudit data));
                         Metrics.schemaOk := Some (schemaOk (dataAudit data));
                         Metrics.hasBooking := Some (hasBooking (dataAudit data));
                         Metrics.lcpMs := lcpMs (dataAudit data);
                         Metrics.cls :=
                           match cls (dataAudit data) with
                           | Some c => if (c =? 0)%Z then None else Some (showZ c)
                           | None => None
                           end;
                         Metrics.analyticsPixels := analyticsPixels (dataAudit data);
                         Metrics.rating := rating (dataPlace data);
                         Metrics.reviewCount := reviewCount (dataPlace data);
                         Metrics.cmsHint := cmsHint (dataAudit data) |} db)
               /\ id = Lead.id (lead r)).
  { destruct (wasUpdated r); injection H as <- _ <-; split; reflexivity. }
  destruct Hw as [Hw ->]. rewrite Hw. clear H Hw.
  set (metrics := {| Metrics.leadId := Lead.id (lead r) |}).
  assert (Hlead : getLeadById (Lead.id (lead r)) db = Some (lead r) /\ idsBelow db = true).
  { unfold getLeadById. rewrite hd_error_selectWhere. unfold idsBelow in *.
    pose proof E as E'. apply (upsertLead_returns platform) in E'.
    destruct E' as [(existing & Hin & Hid & Hnew & Hrow & ->) | (Hid & Hnew & _ & ->)];
      cbn [leads withLeads nextLeadId].
    - split.
      + apply find_replaceRow. rewrite Hid. now apply In_existsb_id.
      + apply forallb_replaceRow; [|exact Hids].
        rewrite Hid. rewrite forallb_forall in Hids. now apply Hids.
    - split.
      + rewrite Hid, find_app_none by now apply find_fresh.
        cbn [find]. now rewrite Hid, Nat.eqb_refl.
      + rewrite forallb_app. apply andb_true_intro. split.
        * rewrite forallb_forall in *. intros l Hl. specialize (Hids l Hl).
          apply Nat.ltb_lt in Hids. apply Nat.ltb_lt. lia.
        * cbn [forallb]. rewrite Hid, andb_true_r. apply Nat.ltb_lt. lia. }
  destruct Hlead as [Hlead Hids'].
  split; [|split; [|split]].
  - exists (lead r). split; [exact Hlead|].
    apply (upsertLead_returns platform) in E.
    destruct E as [(existing & _ & _ & _ & -> & _) | (_ & _ & -> & _)]; now repeat split.
  - exact (upsertScore_getScore_same (scoreRow (Lead.id (lead r)) (dataScore data)) _).
  - exists (match getLeadMetrics (Lead.id (lead r)) db with
            | Some old => mergeMetrics metrics old
            | None => metrics
            end).
    split; [exact (getLeadMetrics_upsert metrics db)|].
    destruct (getLeadMetrics (Lead.id (lead r)) db); now repeat split.
  - exact Hids'.
Qed.

End SaveFacts.

(** ** Mission orchestrator: what every mission respects *)

Section MissionInduction.
Import JS Tools Storage Loop.
Local Open Scope mission_scope.

Variable platform : string -> option string.
Variable fetchPlaces : string -> string -> string -> result (list PlaceResult).
Variable fetchDetails : string -> string -> DetailsOutcome.
Variable fetchSite : nat -> string -> AuditOutcome.
Variable clock : nat -> Z.

(** A relation between worlds, graded by a number of site audits, that
    every elementary step of the mission respects. *)
Variable R : nat -> World -> World -> Prop.
Hypothesis R_refl : forall w, R 0 w w.
Hypothesis R_trans : forall n k w1 w2 w3, R n w1 w2 -> R k w2 w3 -> R (n + k) w1 w3.
Hypothesis R_mono : forall n k w1 w2, (n <= k)%nat -> R n w1 w2 -> R k w1 w2.
Hypothesis R_event :
  forall type message tool w,
    R 0 w (setDatabase (createMissionEvent (eventOf w type message tool) (database w)) w).
Hypothesis R_audit : forall url w, R 1 w (setAudited (audited w ++ [url])%list w).
Hypothesis R_skip :
  forall w, R 0 w (setCounters (skippedDuplicates w + 1)%Z (updatedLeads w) w).
Hypothesis R_save : forall data w, R 0 w (snd (saveLead platform clock data w)).
Hypothesis R_push :
  forall id name score w,
    R 0 w (setSavedLeads (savedLeads w ++ [savedEntry id name score])%list w).
Hypothesis R_known : forall l w, R 0 w (markKnown w l).

Lemma always_ret {A : Type} (a : A) : always (R 0) (ret a).
Proof. intros w. apply R_refl. Qed.

Lemma always_throw {A : Type} (msg : string) : always (R 0) (@throw A msg).
Proof. intros w. apply R_refl. Qed.

Lemma always_gets {A : Type} (f : World -> A) : always (R 0) (gets f).
Proof. intros w. apply R_refl. Qed.

Lemma always_mono {A : Type} (n k : nat) (m : M A) :
  (n <= k)%nat -> always (R n) m -> always (R k) m.
Proof. intros Hnk H w. exact (R_mono n k _ _ Hnk (H w)). Qed.

Lemma always_bind {A B : Type} (n k : nat) (m : M A) (f : A -> M B) :
  always (R n) m -> (forall a, always (R k) (f a)) -> always (R (n + k)) (bind m f).
Proof.
  intros Hm Hf w. unfold bind. specialize (Hm w).
  destruct (m w) as [[a|msg] w1]; cbn [snd] in *.
  - exact (R_trans n k _ _ _ Hm (Hf a w1)).
  - apply (R_mono n); [lia | exact Hm].
Qed.

Lemma always_then {A B : Type} (k : nat) (m : M A) (f : A -> M B) :
  always (R 0) m -> (forall a, always (R k) (f a)) -> always (R k) (bind m f).
Proof. exact (always_bind 0 k m f). Qed.

Lemma always_tryCatch {A : Type} (n : nat) (m : M A) (handler : string -> M A) :
  always (R n) m -> (forall msg, always (R 0) (handler msg)) -> always (R n) (tryCatch m handler).
Proof.
  intros Hm Hh w. unfold tryCatch. specialize (Hm w).
  destruct (m w) as [[a|msg] w1]; cbn [snd] in *; [exact Hm|].
  apply (R_mono (n + 0)); [lia|]. exact (R_trans n 0 _ _ _ Hm (Hh msg w1)).
Qed.

Lemma always_logEvent type message tool : always (R 0) (logEvent type message tool).
Proof. intros w. apply R_event. Qed.

Lemma always_runAudit url : always (R 1) (runAudit fetchSite url).
Proof. intros w. apply R_audit. Qed.

Lemma always_auditPlace place : always (R 1) (auditPlace fetchSite place).
Proof.
  unfold auditPlace.
  assert (Hnone : always (R 1)
            (logEvent "warning" (name place ++ " has no website - using default audit") None
             ;;; ret noWebsiteAudit)).
  { apply (always_mono 0); [lia|].
    apply always_then; [apply always_logEvent | intros _; apply always_ret]. }
  destruct (website place) as [url|]; [|exact Hnone].
  destruct (truthy (Some url)); [|exact Hnone].
  apply always_then; [apply always_logEvent|intros _].
  apply (always_bind 1 0); [apply always_runAudit|intros a].
  apply always_then; [|intros _; apply always_ret].
  destruct (sameText (cmsHint a) "timeout"); [apply always_logEvent|].
  destruct (sameText (cmsHint a) "error"); [apply always_logEvent|].
  cbv zeta. destruct (0 <? _)%nat; apply always_logEvent.
Qed.

Lemma always_logReasons rs : always (R 0) (logReasons rs).
Proof.
  induction rs as [|r rs IH]; cbn [logReasons]; [apply always_ret|].
  apply always_then; [apply always_logEvent | intros _; exact IH].
Qed.

Lemma always_logLeads ls : always (R 0) (logLeads ls).
Proof.
  induction ls as [|l ls IH]; cbn [logLeads]; [apply always_ret|].
  apply always_then; [apply always_logEvent | intros _; exact IH].
Qed.

Lemma always_saveLead data : always (R 0) (saveLead platform clock data).
Proof. intros w. apply R_save. Qed.

Lemma always_processPlaces (maxLeads minScore : Z) (places : list PlaceResult) :
  forall qualifiedCount : Z,
    always (R (List.length places))
      (processPlaces platform fetchSite clock maxLeads minScore places qualifiedCount).
Proof.
  induction places as [|place rest IH]; intros q; cbn [processPlaces List.length].
  - apply always_ret.
  - destruct (maxLeads <=? q)%Z.
    + apply (always_mono 0); [lia|].
      apply always_then; [apply always_logEvent | intros _; apply always_ret].
    + apply always_then; [apply always_gets|intros known].
      destruct known.
      * apply (always_mono (List.length rest)); [lia|].
        apply always_then; [intros w; apply R_skip | intros _; apply IH].
      * apply always_then; [apply always_logEvent|intros _].
        apply (always_bind 1 (List.length rest)); [apply always_auditPlace|intros auditResults].
        cbv zeta.
        set (score := scoreLead (name place) auditResults _ (category place)).
        destruct ((minScore =? 0)%Z || (minScore <=? total score)%Z).
        -- apply always_then; [apply always_logEvent|intros _].
           apply always_then; [apply always_logEvent|intros _].
           apply always_then; [apply always_logReasons|intros _].
           apply always_then; [apply always_saveLead|intros saved].
           apply always_then;
             [destruct (negb (snd saved)); [apply always_logEvent | apply always_ret]
             |intros _].
           apply always_then; [|intros _; apply IH].
           intros w. exact (R_push (fst saved) (name place) (total score) w).
        -- apply always_then; [apply always_logEvent | intros _; apply IH].
Qed.

Lemma always_markKnown (ls : list Lead.t) :
  always (R 0) (modify (fun w => fold_left markKnown ls w)).
Proof.
  intros w. cbn [modify snd]. revert w.
  induction ls as [|l ls IH]; intros w; cbn [fold_left]; [apply R_refl|].
  exact (R_trans 0 0 _ _ _ (R_known l w) (IH (markKnown w l))).
Qed.

Lemma always_createResult n message : always (R 0) (createResult n message).
Proof. intros w. apply R_refl. Qed.

Lemma always_summarize minScore qualifiedCount considered :
  always (R 0) (summarize minScore qualifiedCount considered).
Proof.
  unfold summarize.
  apply always_then; [apply always_gets|intros saved].
  apply always_then; [apply always_gets|intros updated].
  apply always_then; [apply always_gets|intros skipped].
  cbv zeta.
  apply always_then; [apply always_logEvent|intros _].
  apply always_then; [|intros _; apply always_createResult].
  destruct (0 <? List.length saved)%nat; [|apply always_ret].
  apply always_then.
  - destruct (0 <? List.length (filter _ saved))%nat; [|apply always_ret].
    apply always_then; [apply always_logEvent|intros _].
    apply always_logLeads.
  - intros _.
    destruct ((0 <? List.length (filter _ saved))%nat && (minScore =? 0)%Z);
      [|apply always_ret].
    apply always_then; [apply always_logEvent|intros _].
    apply always_logLeads.
Qed.

Lemma always_missionFailed message : always (R 0) (missionFailed message).
Proof.
  unfold missionFailed. cbv zeta.
  apply always_then; [|intros _; apply always_throw].
  destruct (includes _ "REQUEST_DENIED"); [|apply always_logEvent].
  repeat (apply always_then; [apply always_logEvent|intros _]).
  apply always_logEvent.
Qed.

Lemma length_enrich (apiKey : string) (places : list PlaceResult) :
  (List.length (enrich fetchDetails apiKey places) <= 15)%nat.
Proof. unfold enrich. rewrite length_map. apply firstn_le_length. Qed.

Lemma always_runMission (goal : MissionGoal) (minScore maxLeads : Z) :
  always (R 15)
    (runMission platform fetchPlaces fetchDetails fetchSite clock goal minScore maxLeads).
Proof.
  unfold runMission.
  apply always_then; [apply always_logEvent|intros _].
  apply always_then; [apply always_gets|intros apiKey].
  apply always_then; [intros w; apply R_refl|intros places].
  destruct (List.length places =? 0)%nat.
  - apply (always_mono 0); [lia|].
    apply always_then; [apply always_logEvent|intros _].
    apply always_createResult.
  - apply always_then; [apply always_logEvent|intros _].
    cbv zeta.
    apply always_then; [apply always_logEvent|intros _].
    apply always_then; [apply always_gets|intros db].
    apply always_then; [apply always_markKnown|intros _].
    apply always_then;
      [destruct (0 <? _)%nat; [apply always_logEvent | apply always_ret]
      |intros _].
    apply (always_mono (List.length (enrich fetchDetails apiKey places) + 0));
      [pose proof (length_enrich apiKey places); lia|].
    apply always_bind; [apply always_processPlaces | intros q; apply always_summarize].
Qed.

(** Whatever respects the elementary steps holds of a whole mission, with
    at most 15 site audits. *)
Lemma always_executeMission (goal : MissionGoal) :
  always (R 15) (executeMission platform fetchPlaces fetchDetails fetchSite clock goal).
Proof.
  unfold executeMission. cbv zeta.
  apply always_then; [apply always_logEvent|intros _].
  apply always_then; [apply always_logEvent|intros _].
  apply always_tryCatch; [apply always_runMission | apply always_missionFailed].
Qed.

End MissionInduction.

Section MissionInvariants.
Import JS Tools Storage Loop.
Local Open Scope mission_scope.

Variable platform : string -> option string.
Variable fetchPlaces : string -> string -> string -> result (list PlaceResult).
Variable fetchDetails : string -> string -> DetailsOutcome.
Variable fetchSite : nat -> string -> AuditOutcome.
Variable clock : nat -> Z.

Lemma extends_refl {A : Type} (l : list A) : extends l l.
Proof. exists []. now rewrite app_nil_r. Qed.

Lemma extends_trans {A : Type} (l1 l2 l3 : list A) :
  extends l1 l2 -> extends l2 l3 -> extends l1 l3.
Proof. intros (a & ->) (b & ->). exists (a ++ b)%list. now rewrite app_assoc. Qed.

Lemma extends_app {A : Type} (l more : list A) : extends l (l ++ more).
Proof. now exists more. Qed.

Lemma appendOnly_refl (w : World) : appendOnly w w.
Proof. repeat split; apply extends_refl. Qed.

Lemma appendOnly_trans (w1 w2 w3 : World) :
  appendOnly w1 w2 -> appendOnly w2 w3 -> appendOnly w1 w3.
Proof.
  intros (H1 & H2 & H3 & H4) (K1 & K2 & K3 & K4).
  repeat split; eapply extends_trans; eassumption.
Qed.

Lemma map_id_replaceRow (row : Lead.t) (rows : list Lead.t) :
  map Lead.id (replaceRow row rows) = map Lead.id rows.
Proof.
  unfold replaceRow. rewrite map_map. apply map_ext_in. intros l _.
  destruct (Nat.eqb_spec (Lead.id l) (Lead.id row)); congruence.
Qed.

Lemma upsertLead_throws (il : InsertLead.t) (now : Z) (db db' : Database) (msg : string) :
  upsertLead platform il now db = (Throws msg, db') -> db' = db.
Proof.
  unfold upsertLead.
  destruct (findExistingLead platform _ _); cbv zeta;
    destruct (uniqueViolation _ _ _ _); intros [= ]; congruence.
Qed.

(** What [saveLead] leaves of the world: it writes the three tables of the
    lead and the sets of processed keys, nothing else. *)
Lemma saveLead_world (data : SaveData) (w : World) :
  let w' := snd (saveLead platform clock data w) in
  savedLeads w' = savedLeads w /\ audited w' = audited w /\ eventsOf w' = eventsOf w
  /\ extends (map Lead.id (leads (database w))) (map Lead.id (leads (database w'))).
Proof.
  unfold saveLead.
  destruct (upsertLead platform _ _ (database w)) as [[r|msg] db] eqn:E; cbv zeta.
  - assert (Hdb : missionEvents db = missionEvents (database w)
                  /\ extends (map Lead.id (leads (database w))) (map Lead.id (leads db))).
    { apply (upsertLead_returns platform) in E.
      destruct E as [(existing & _ & _ & _ & _ & ->) | (_ & _ & _ & ->)]; cbn [withLeads leads missionEvents].
      - rewrite map_id_replaceRow. split; [reflexivity | apply extends_refl].
      - rewrite map_app. split; [reflexivity | apply extends_app]. }
    destruct Hdb as [Hev Hids].
    destruct (wasUpdated r); cbn; unfold eventsOf; cbn; now repeat split.
  - apply upsertLead_throws in E. subst db.
    cbn. unfold eventsOf. cbn. repeat split. apply extends_refl.
Qed.

Lemma appendOnly_steps :
  (forall type message tool w,
      appendOnly w (setDatabase (createMissionEvent (eventOf w type message tool) (database w)) w))
  /\ (forall url w, appendOnly w (setAudited (audited w ++ [url])%list w))
  /\ (forall w, appendOnly w (setCounters (skippedDuplicates w + 1)%Z (updatedLeads w) w))
  /\ (forall data w, appendOnly w (snd (saveLead platform clock data w)))
  /\ (forall id name score w,
         appendOnly w (setSavedLeads (savedLeads w ++ [savedEntry id name score])%list w))
  /\ (forall l w, appendOnly w (markKnown w l)).
Proof.
  split; [|split; [|split; [|split; [|split]]]].
  - intros type message tool w. unfold appendOnly, eventsOf. cbn.
    repeat split; try apply extends_refl. apply extends_app.
  - intros url w. unfold appendOnly, eventsOf. cbn.
    repeat split; try apply extends_refl. apply extends_app.
  - intros w. unfold appendOnly, eventsOf. cbn. repeat split; apply extends_refl.
  - intros data w. destruct (saveLead_world data w) as (Hs & Ha & He & Hl).
    unfold appendOnly. rewrite Hs, Ha, He. repeat split; try apply extends_refl. exact Hl.
  - intros id name score w. unfold appendOnly, eventsOf. cbn.
    repeat split; try apply extends_refl. apply extends_app.
  - intros l w. unfold appendOnly, eventsOf. cbn. repeat split; apply extends_refl.
Qed.

(** X25. A mission only appends: whatever the search, the audits and the
    store answer, and whether it returns or throws, the event log, the ids
    of the stored leads, the saved leads and the list of audited URLs after
    [executeMission] are those before it with items added at the end. *)
Theorem mission_is_append_only :
  forall (goal : MissionGoal) (w : World),
    appendOnly w
      (snd (executeMission platform fetchPlaces fetchDetails fetchSite clock goal w)).
Proof.
  intros goal w.
  destruct appendOnly_steps as (He & Ha & Hs & Hv & Hp & Hk).
  exact (always_executeMission platform fetchPlaces fetchDetails fetchSite clock
           (fun _ => appendOnly) appendOnly_refl
           (fun _ _ => appendOnly_trans) (fun _ _ _ _ _ H => H)
           He Ha Hs Hv Hp Hk goal w).
Qed.

(** X26. A mission audits at most 15 sites. *)
Theorem mission_audits_at_most_15_sites :
  forall (goal : MissionGoal) (w : World),
    (List.length
       (audited (snd (executeMission platform fetchPlaces fetchDetails fetchSite clock goal w)))
     <= List.length (audited w) + 15)%nat.
Proof.
  intros goal w.
  apply (always_executeMission platform fetchPlaces fetchDetails fetchSite clock auditsWithin);
    unfold auditsWithin.
  - intros; lia.
  - intros; lia.
  - intros; lia.
  - intros; cbn; lia.
  - intros; cbn. rewrite length_app. cbn. lia.
  - intros; cbn; lia.
  - intros data w0. destruct (saveLead_world data w0) as (_ & -> & _). lia.
  - intros; cbn; lia.
  - intros; cbn; lia.
Qed.

End MissionInvariants.

Section MissionResults.
Import JS Tools Storage Loop.
Local Open Scope mission_scope.

Variable platform : string -> option string.
Variable fetchPlaces : string -> string -> string -> result (list PlaceResult).
Variable fetchDetails : string -> string -> DetailsOutcome.
Variable fetchSite : nat -> string -> AuditOutcome.
Variable clock : nat -> Z.

Lemma returnsSummary_createResult (considered : nat) (message : string) :
  (considered <= 15)%nat -> returnsSummary (createResult considered message).
Proof.
  intros Hn w r w'. unfold createResult. intros [= <- <-].
  now exists considered, message.
Qed.

Lemma returnsSummary_bind {A : Type} (m : M A) (k : A -> M AgentResult) :
  (forall a, returnsSummary (k a)) -> returnsSummary (bind m k).
Proof.
  intros Hk w r w'. unfold bind.
  destruct (m w) as [[a|msg] w1]; [apply Hk | discriminate].
Qed.

Lemma returnsSummary_summarize minScore qualifiedCount considered :
  (considered <= 15)%nat -> returnsSummary (summarize minScore qualifiedCount considered).
Proof.
  intros Hn. unfold summarize.
  repeat (apply returnsSummary_bind; intros ?). cbv zeta.
  repeat (apply returnsSummary_bind; intros ?).
  now apply returnsSummary_createResult.
Qed.

Lemma returnsSummary_runMission (goal : MissionGoal) (minScore maxLeads : Z) :
  returnsSummary
    (runMission platform fetchPlaces fetchDetails fetchSite clock goal minScore maxLeads).
Proof.
  unfold runMission.
  repeat (apply returnsSummary_bind; intros ?).
  destruct (List.length _ =? 0)%nat.
  - apply returnsSummary_bind; intros _. apply returnsSummary_createResult. lia.
  - repeat (apply returnsSummary_bind; intros ?).
    apply returnsSummary_createResult, length_enrich.
Qed.

Lemma missionFailed_throws (message : string) (w : World) :
  fst (missionFailed message w) = Throws message.
Proof.
  unfold missionFailed. cbv zeta.
  destruct (includes _ "REQUEST_DENIED"); reflexivity.
Qed.

Lemma returnsSummary_executeMission (goal : MissionGoal) :
  returnsSummary (executeMission platform fetchPlaces fetchDetails fetchSite clock goal).
Proof.
  unfold executeMission. cbv zeta.
  repeat (apply returnsSummary_bind; intros _).
  intros w r w'. unfold tryCatch.
  destruct (runMission _ _ _ _ _ goal _ _ w) as [[a|msg] w1] eqn:E.
  - intros [= <- <-]. exact (returnsSummary_runMission goal _ _ w a w1 E).
  - intros H. pose proof (missionFailed_throws msg w1) as Hf.
    rewrite H in Hf. discriminate Hf.
Qed.

Lemma isStatus_by_score (l : SavedLead) :
  statusFollowsScore l ->
  isStatus "qualified" l = (75 <=? savedScore l)%Z
  /\ isStatus "junk" l = negb (75 <=? savedScore l)%Z.
Proof.
  unfold statusFollowsScore, isStatus. intros ->.
  now destruct (75 <=? savedScore l)%Z.
Qed.

Lemma statuses_partition (saved : list SavedLead) :
  Forall statusFollowsScore saved ->
  List.length saved
  = (List.length (filter (isStatus "qualified") saved)
     + List.length (filter (isStatus "junk") saved))%nat.
Proof.
  induction 1 as [|l saved Hl _ IH]; [reflexivity|].
  destruct (isStatus_by_score l Hl) as [Hq Hj].
  cbn [filter List.length]. rewrite Hq, Hj.
  destruct (75 <=? savedScore l)%Z; cbn [negb List.length]; lia.
Qed.

Lemma qualified_by_score (saved : list SavedLead) :
  Forall statusFollowsScore saved ->
  Forall (fun l => (75 <= savedScore l)%Z) (filter (isStatus "qualified") saved).
Proof.
  induction 1 as [|l saved Hl _ IH]; [constructor|].
  destruct (isStatus_by_score l Hl) as [Hq _].
  cbn [filter]. rewrite Hq.
  destruct (Z.leb_spec 75 (savedScore l)); [constructor; assumption | exact IH].
Qed.

Lemma Forall_firstn {A : Type} (P : A -> Prop) (n : nat) (l : list A) :
  Forall P l -> Forall P (firstn n l).
Proof.
  intros H. apply Forall_forall. intros x Hx.
  rewrite Forall_forall in H. apply H. now apply In_firstn in Hx.
Qed.

(** The statuses follow the scores in every world a mission reaches from
    one where they do. *)
Lemma mission_keeps_statuses (goal : MissionGoal) (w : World) :
  Forall statusFollowsScore (savedLeads w) ->
  Forall statusFollowsScore
    (savedLeads (snd (executeMission platform fetchPlaces fetchDetails fetchSite clock goal w))).
Proof.
  apply (always_executeMission platform fetchPlaces fetchDetails fetchSite clock
           (fun _ w1 w2 => Forall statusFollowsScore (savedLeads w1) ->
                           Forall statusFollowsScore (savedLeads w2))).
  - auto.
  - auto.
  - auto.
  - auto.
  - auto.
  - auto.
  - intros data w0. now destruct (saveLead_world platform clock data w0) as (-> & _).
  - intros id name score w0 H. cbn [savedLeads setSavedLeads].
    apply Forall_app. split; [exact H|]. constructor; [reflexivity | constructor].
  - auto.
Qed.

(** X27. The result a fresh agent's mission returns is consistent: the
    saved leads are the qualified ones plus the junk ones, at most [maxLeads]
    (10 by default) are qualified, at most 15 places were considered, and the
    top leads are at most five leads with the status [qualified] and a score
    of 75 or more. *)
Theorem mission_result_is_consistent :
  forall (cfg : AgentConfig) (mission : string) (db : Database) (goal : MissionGoal)
         (r : AgentResult) (w' : World),
    executeMission platform fetchPlaces fetchDetails fetchSite clock goal
      (newAgent cfg mission db) = (Returns r, w') ->
    leadsSaved r = (qualifiedCount r + junkCount r)%nat
    /\ (qualifiedCount r <= Z.to_nat (maxLeadsOf goal))%nat
    /\ (leadsConsidered r <= 15)%nat
    /\ (List.length (topLeads r) <= 5)%nat
    /\ Forall (fun l => savedStatus l = "qualified" /\ (75 <= savedScore l)%Z) (topLeads r)
    /\ completed r = true.
Proof.
  intros cfg mission db goal r w' H.
  pose proof (mission_keeps_statuses goal (newAgent cfg mission db) (Forall_nil _)) as Hst.
  pose proof (executeMission_savesAtMost platform fetchPlaces fetchDetails fetchSite clock
                goal (newAgent cfg mission db)) as Hq.
  rewrite H in Hst, Hq. cbn [snd] in Hst, Hq.
  apply returnsSummary_executeMission in H.
  destruct H as (considered & message & Hn & ->).
  cbn [summaryOf leadsSaved qualifiedCount junkCount leadsConsidered topLeads completed].
  split; [now apply statuses_partition|].
  split; [exact Hq|]. split; [exact Hn|].
  split; [apply firstn_le_length|]. split; [|reflexivity].
  apply Forall_firstn.
  pose proof (qualified_by_score _ Hst) as Hs.
  apply Forall_forall. intros l Hl. split.
  - apply filter_In in Hl. destruct Hl as [_ Hl]. now apply String.eqb_eq in Hl.
  - rewrite Forall_forall in Hs. now apply Hs.
Qed.

End MissionResults.

Section MissionEdges.
Import JS Tools Storage Loop.
Local Open Scope mission_scope.

Variable platform : string -> option string.
Variable fetchPlaces : string -> string -> string -> result (list PlaceResult).
Variable fetchDetails : string -> string -> DetailsOutcome.
Variable fetchSite : nat -> string -> AuditOutcome.
Variable clock : nat -> Z.

(** The [catch] block adds one or four [error] events and throws the error
    it caught. *)
Lemma missionFailed_events (message : string) (es : list MissionEvent.t) (w : World) :
  exists more,
    missionFailed message (withEvents es w) = (Throws message, withEvents (es ++ more) w)
    /\ more <> []
    /\ Forall (fun e => MissionEvent.eventType e = "error") more.
Proof.
  unfold missionFailed. cbv zeta.
  destruct (includes _ "REQUEST_DENIED").
  - eexists.
    unfold bind at 1. unfold bind at 1. rewrite withEvents_logEvent.
    unfold bind at 1. rewrite withEvents_logEvent.
    unfold bind at 1. rewrite withEvents_logEvent.
    rewrite withEvents_logEvent. unfold throw.
    rewrite <- !app_assoc. cbn [app].
    split; [reflexivity|]. split; [discriminate|].
    repeat constructor.
  - eexists. unfold bind at 1. rewrite withEvents_logEvent. unfold throw.
    split; [reflexivity|]. split; [discriminate|]. repeat constructor.
Qed.

(** X28. When [searchPlaces] fails, for whatever reason, [executeMission]
    throws the same error after logging its three opening events and one or
    more [error] events; nothing but the event log changes. *)
Theorem failed_search_is_rethrown :
  forall (goal : MissionGoal) (w : World) (message : string),
    searchPlaces fetchPlaces (query goal) (location goal) (placesApiKey (config w))
    = Throws message ->
    exists diagnostics,
      executeMission platform fetchPlaces fetchDetails fetchSite clock goal w
      = (Throws message, withEvents (openingEvents goal w ++ diagnostics) w)
      /\ diagnostics <> []
      /\ Forall (fun e => MissionEvent.eventType e = "error") diagnostics.
Proof.
  intros goal w message Hsearch.
  destruct (missionFailed_events message (openingEvents goal w) w) as (more & Hf & Hne & Herr).
  exists more. split; [|now split].
  rewrite <- (withEvents_nil w) at 1.
  unfold executeMission, runMission, tryCatch.
  unfold bind at 1. rewrite withEvents_logEvent.
  unfold bind at 1. rewrite withEvents_logEvent.
  unfold bind at 1. rewrite withEvents_logEvent.
  unfold bind at 1. unfold gets at 1.
  unfold bind at 1.
  match goal with
  | |- context [placesApiKey (config (withEvents ?es w))] =>
      change (placesApiKey (config (withEvents es w))) with (placesApiKey (config w))
  end.
  rewrite Hsearch. exact Hf.
Qed.

(** X29. When [searchPlaces] finds no place, [executeMission] returns the
    summary of the leads saved so far with no place considered and the
    message [No businesses found], after logging its three opening events and
    one warning; nothing but the event log changes. *)
Theorem empty_search_saves_nothing :
  forall (goal : MissionGoal) (w : World),
    searchPlaces fetchPlaces (query goal) (location goal) (placesApiKey (config w))
    = Returns [] ->
    executeMission platform fetchPlaces fetchDetails fetchSite clock goal w
    = (Returns (summaryOf 0 "No businesses found" (savedLeads w)),
       withEvents
         (openingEvents goal w
          ++ [eventOf w "warning" "No businesses found matching your criteria" None]) w).
Proof.
  intros goal w Hsearch.
  rewrite <- (withEvents_nil w) at 1.
  unfold executeMission, runMission, tryCatch.
  unfold bind at 1. rewrite withEvents_logEvent.
  unfold bind at 1. rewrite withEvents_logEvent.
  unfold bind at 1. rewrite withEvents_logEvent.
  unfold bind at 1. unfold gets at 1.
  unfold bind at 1.
  match goal with
  | |- context [placesApiKey (config (withEvents ?es w))] =>
      change (placesApiKey (config (withEvents es w))) with (placesApiKey (config w))
  end.
  rewrite Hsearch. cbn [List.length Nat.eqb].
  unfold bind at 1. rewrite withEvents_logEvent. reflexivity.
Qed.

End MissionEdges.

Section Duplicates.
Import JS Tools Storage Loop.
Local Open Scope mission_scope.

Variable platform : string -> option string.
Variable fetchPlaces : string -> string -> string -> result (list PlaceResult).
Variable fetchDetails : string -> string -> DetailsOutcome.
Variable fetchSite : nat -> string -> AuditOutcome.
Variable clock : nat -> Z.

Lemma sameStore_refl (w : World) : sameStore w w.
Proof. now repeat split. Qed.

Lemma sameStore_trans (w1 w2 w3 : World) :
  sameStore w1 w2 -> sameStore w2 w3 -> sameStore w1 w3.
Proof.
  intros (A1 & A2 & A3 & A4 & A5) (B1 & B2 & B3 & B4 & B5).
  repeat split; congruence.
Qed.

Lemma quietFrom_bind {A B : Type} (P Q : World -> Prop) (m : M A) (k : A -> M B) :
  quietFrom P m ->
  (forall w, P w -> Q (snd (m w))) ->
  (forall a, quietFrom Q (k a)) ->
  quietFrom P (bind m k).
Proof.
  intros Hm HQ Hk w Hw. unfold bind.
  destruct (Hm w Hw) as ((a & Ha) & Hs & Hkn). specialize (HQ w Hw).
  destruct (m w) as [res w1]. cbn [fst snd] in *. subst res.
  destruct (Hk a w1 HQ) as (Hr & Hs' & Hkn').
  split; [exact Hr|]. split; [exact (sameStore_trans _ _ _ Hs Hs')|].
  intros p Hp. apply Hkn', Hkn, Hp.
Qed.

Lemma quietFrom_then {A B : Type} (m : M A) (k : A -> M B) :
  quietFrom anyWorld m -> (forall a, quietFrom anyWorld (k a)) -> quietFrom anyWorld (bind m k).
Proof. intros Hm Hk. apply (quietFrom_bind anyWorld anyWorld); [exact Hm | easy | exact Hk]. Qed.

Lemma quiet_ret {A : Type} (a : A) : quietFrom anyWorld (ret a).
Proof. intros w _. split; [now exists a|]. split; [apply sameStore_refl | now intros p]. Qed.

Lemma quiet_gets {A : Type} (f : World -> A) : quietFrom anyWorld (gets f).
Proof.
  intros w _. split; [now exists (f w)|]. split; [apply sameStore_refl | now intros p].
Qed.

Lemma quiet_logEvent type message tool : quietFrom anyWorld (logEvent type message tool).
Proof.
  intros w _. split; [now exists tt|]. split; [now repeat split | now intros p].
Qed.

Lemma quiet_logLeads ls : quietFrom anyWorld (logLeads ls).
Proof.
  induction ls as [|l ls IH]; cbn [logLeads]; [apply quiet_ret|].
  apply quietFrom_then; [apply quiet_logEvent | intros _; exact IH].
Qed.

Lemma quiet_createResult n message : quietFrom anyWorld (createResult n message).
Proof.
  intros w _. split; [eexists; reflexivity|]. split; [apply sameStore_refl | now intros p].
Qed.

Lemma quiet_summarize minScore qualifiedCount considered :
  quietFrom anyWorld (summarize minScore qualifiedCount considered).
Proof.
  unfold summarize.
  apply quietFrom_then; [apply quiet_gets|intros saved].
  apply quietFrom_then; [apply quiet_gets|intros updated].
  apply quietFrom_then; [apply quiet_gets|intros skipped].
  cbv zeta.
  apply quietFrom_then; [apply quiet_logEvent|intros _].
  apply quietFrom_then; [|intros _; apply quiet_createResult].
  destruct (0 <? List.length saved)%nat; [|apply quiet_ret].
  apply quietFrom_then.
  - destruct (0 <? List.length (filter _ saved))%nat; [|apply quiet_ret].
    apply quietFrom_then; [apply quiet_logEvent|intros _].
    apply quiet_logLeads.
  - intros _.
    destruct ((0 <? List.length (filter _ saved))%nat && (minScore =? 0)%Z);
      [|apply quiet_ret].
    apply quietFrom_then; [apply quiet_logEvent|intros _].
    apply quiet_logLeads.
Qed.

Lemma setHas_setAdd (s : list string) (x p : string) :
  setHas s p = true -> setHas (setAdd s x) p = true.
Proof.
  unfold setAdd. destruct (setHas s x); [trivial|].
  unfold setHas. rewrite existsb_app. now intros ->.
Qed.

Lemma setHas_setAdd_same (s : list string) (x : string) : setHas (setAdd s x) x = true.
Proof.
  unfold setAdd. destruct (setHas s x) eqn:E; [exact E|].
  unfold setHas. rewrite existsb_app. cbn. now rewrite String.eqb_refl, orb_true_r.
Qed.

Lemma setHas_addIfTruthy (s : list string) (v : option string) (p : string) :
  setHas s p = true -> setHas (addIfTruthy s v) p = true.
Proof.
  unfold addIfTruthy. destruct v as [x|]; [|trivial].
  destruct (truthy (Some x)); [apply setHas_setAdd | trivial].
Qed.

Lemma keepsKnown_markKnown (ls : list Lead.t) (w : World) :
  keepsKnown w (fold_left markKnown ls w).
Proof.
  revert w. induction ls as [|l ls IH]; intros w p Hp; cbn [fold_left]; [exact Hp|].
  apply IH. cbn. now apply setHas_addIfTruthy.
Qed.

Lemma sameStore_markKnown (ls : list Lead.t) (w : World) :
  sameStore w (fold_left markKnown ls w).
Proof.
  revert w. induction ls as [|l ls IH]; intros w; cbn [fold_left]; [apply sameStore_refl|].
  apply (sameStore_trans _ (markKnown w l)); [now repeat split | apply IH].
Qed.

(** After the stored leads were marked, the place id of each is known. *)
Lemma markKnown_knows (ls : list Lead.t) (l : Lead.t) (p : string) (w : World) :
  In l ls -> Lead.placeId l = Some p -> p <> "" ->
  setHas (processedPlaceIds (fold_left markKnown ls w)) p = true.
Proof.
  intros Hin Hp Hne. revert w. induction ls as [|x ls IH]; intros w; [now elim Hin|].
  cbn [fold_left]. destruct Hin as [->|Hin]; [|now apply IH].
  apply keepsKnown_markKnown. cbn. rewrite Hp.
  unfold addIfTruthy. destruct p; [now elim Hne|]. cbn [truthy].
  apply setHas_setAdd_same.
Qed.

Lemma addUnseen_keeps (seen : list nat) (acc more : list Lead.t) (l : Lead.t) :
  In l acc -> In l (addUnseen seen acc more).
Proof.
  revert seen acc. induction more as [|x more IH]; intros seen acc H; cbn [addUnseen]; [exact H|].
  destruct (existsb _ seen); apply IH; [exact H|]. apply in_or_app. now left.
Qed.

Lemma collect_placeIds (places : list PlaceResult) (place : PlaceResult) :
  In place places -> placeId place <> "" ->
  In (placeId place) (collect (fun p => Some (placeId p)) places).
Proof.
  intros Hin Hne. unfold collect. apply in_flat_map. exists place. split; [exact Hin|].
  destruct (placeId place); [now elim Hne | now left].
Qed.

Lemma placeId_withDetails (place : PlaceResult) (d : DetailsOutcome) :
  placeId (withDetails place d) = placeId place.
Proof. now destruct d. Qed.

Lemma enrich_stored (db : Database) (apiKey : string) (places : list PlaceResult) :
  Forall (storedPlace db) (firstn 15 places) ->
  Forall (storedPlace db) (enrich fetchDetails apiKey places).
Proof.
  unfold enrich. generalize (firstn 15 places). intros ps H.
  induction H as [|p ps Hp _ IH]; cbn [map]; constructor; [|exact IH].
  unfold storedPlace in *. now rewrite placeId_withDetails.
Qed.

Lemma knownIfTruthy_has (s : list string) (p : string) :
  p <> "" -> setHas s p = true -> knownIfTruthy s (Some p) = true.
Proof. intros Hne H. unfold knownIfTruthy. destruct p; [now elim Hne | exact H]. Qed.

(** One iteration on a place known by its place id. *)
Lemma processPlaces_skip (maxLeads minScore : Z) (place : PlaceResult)
    (rest : list PlaceResult) (qualifiedCount : Z) (w : World) :
  (maxLeads <=? qualifiedCount)%Z = false ->
  knownIfTruthy (processedPlaceIds w) (Some (placeId place)) = true ->
  processPlaces platform fetchSite clock maxLeads minScore (place :: rest) qualifiedCount w
  = processPlaces platform fetchSite clock maxLeads minScore rest qualifiedCount
      (setCounters (skippedDuplicates w + 1)%Z (updatedLeads w) w).
Proof.
  intros Hgo Hknown. cbn [processPlaces]. rewrite Hgo.
  unfold bind at 1. unfold gets at 1. rewrite Hknown. cbn [orb].
  unfold bind at 1. reflexivity.
Qed.

(** The loop over places that are all known skips every one of them. *)
Lemma processPlaces_allKnown (maxLeads minScore : Z) (places : list PlaceResult) :
  forall qualifiedCount : Z,
    quietFrom (allKnown places)
      (processPlaces platform fetchSite clock maxLeads minScore places qualifiedCount).
Proof.
  induction places as [|place rest IH]; intros q.
  - intros w _. apply quiet_ret. exact I.
  - destruct (maxLeads <=? q)%Z eqn:Hstop.
    + intros w _. cbn [processPlaces]. rewrite Hstop.
      apply (quietFrom_then (logEvent _ _ _) (fun _ => ret q));
        [apply quiet_logEvent | intros _; apply quiet_ret | exact I].
    + intros w Hw. inversion Hw as [|? ? Hplace Hrest]; subst.
      rewrite (processPlaces_skip _ _ _ _ _ _ Hstop Hplace).
      destruct (IH q (setCounters (skippedDuplicates w + 1)%Z (updatedLeads w) w) Hrest)
        as (Hr & Hs & Hk).
      split; [exact Hr|]. split.
      * apply (sameStore_trans _ (setCounters (skippedDuplicates w + 1)%Z (updatedLeads w) w));
          [now repeat split | exact Hs].
      * intros p Hp. now apply Hk.
Qed.

Lemma quietFrom_weaken {A : Type} (P Q : World -> Prop) (m : M A) :
  (forall w, P w -> Q w) -> quietFrom Q m -> quietFrom P m.
Proof. intros H Hm w Hw. apply Hm, H, Hw. Qed.

Lemma allKnown_kept (places : list PlaceResult) (w w' : World) :
  keepsKnown w w' -> allKnown places w -> allKnown places w'.
Proof.
  intros Hk H. unfold allKnown in *. rewrite Forall_forall in *.
  intros place Hplace. specialize (H place Hplace).
  unfold knownIfTruthy in *. apply andb_prop in H. destruct H as [Ht Hs].
  rewrite Ht. cbn [andb]. now apply Hk.
Qed.

Lemma quietFrom_known {A B : Type} (places : list PlaceResult) (m : M A) (k : A -> M B) :
  quietFrom (allKnown places) m ->
  (forall a, quietFrom (allKnown places) (k a)) ->
  quietFrom (allKnown places) (bind m k).
Proof.
  intros Hm Hk. apply (quietFrom_bind _ (allKnown places)); [exact Hm | | exact Hk].
  intros w Hw. destruct (Hm w Hw) as (_ & _ & Hkn). exact (allKnown_kept _ _ _ Hkn Hw).
Qed.

(** X30. When each of the first 15 places found carries a place id under
    which a lead is already stored, [executeMission] returns without saving
    or auditing anything: the leads, their metrics and scores, the saved
    leads and the audited URLs are as they were. *)
Theorem stored_places_are_skipped :
  forall (goal : MissionGoal) (w : World) (places : list PlaceResult),
    searchPlaces fetchPlaces (query goal) (location goal) (placesApiKey (config w))
    = Returns places ->
    Forall (storedPlace (database w)) (firstn 15 places) ->
    let run := executeMission platform fetchPlaces fetchDetails fetchSite clock goal w in
    (exists r, fst run = Returns r) /\ sameStore w (snd run).
Proof.
  intros goal w places Hsearch Hstored run. unfold run. clear run.
  eassert (E : executeMission platform fetchPlaces fetchDetails fetchSite clock goal w = _).
  { rewrite <- (withEvents_nil w) at 1.
    unfold executeMission, runMission, tryCatch.
    unfold bind at 1. rewrite withEvents_logEvent.
    unfold bind at 1. rewrite withEvents_logEvent.
    unfold bind at 1. rewrite withEvents_logEvent.
    unfold bind at 1. unfold gets at 1.
    unfold bind at 1.
    match goal with
    | |- context [placesApiKey (config (withEvents ?es ?w))] =>
        change (placesApiKey (config (withEvents es w))) with (placesApiKey (config w))
    end.
    rewrite Hsearch. reflexivity. }
  rewrite E. clear E.
  set (w0 := withEvents _ w).
  assert (Hw0 : sameStore w w0) by now repeat split.
  set (leadsOf := fun w1 : World => leads (database w1) = leads (database w)).
  match goal with
  | |- context [match ?t w0 with _ => _ end] => set (tail := t)
  end.
  assert (Hq : quietFrom leadsOf tail).
  { unfold tail. destruct (List.length places =? 0)%nat.
    - intros w1 _.
      apply (quietFrom_then (logEvent _ _ _) (fun _ => createResult 0 "No businesses found"));
        [apply quiet_logEvent | intros _; apply quiet_createResult | exact I].
    - apply (quietFrom_bind leadsOf leadsOf);
        [intros w1 _; now apply quiet_logEvent | intros w1 H1; exact H1 | intros _].
      cbv zeta.
      apply (quietFrom_bind leadsOf leadsOf);
        [intros w1 _; now apply quiet_logEvent | intros w1 H1; exact H1 | intros _].
      intros w1 Hw1. unfold bind at 1. unfold gets at 1.
      set (pwd := enrich fetchDetails (placesApiKey (config w)) places).
      set (existing := addUnseen _ _ _).
      assert (Hknown : allKnown pwd (fold_left markKnown existing w1)).
      { pose proof (enrich_stored (database w) (placesApiKey (config w)) places Hstored)
          as Hpwd. fold pwd in Hpwd.
        unfold allKnown. rewrite Forall_forall in *. intros place Hplace.
        destruct (Hpwd place Hplace) as (Hne & l & Hl & Hpid).
        apply knownIfTruthy_has; [exact Hne|].
        apply (markKnown_knows existing l); [|exact Hpid | exact Hne].
        unfold existing. apply addUnseen_keeps.
        pose proof (collect_placeIds pwd place Hplace Hne) as Hids.
        unfold getLeadsByPlaceIds.
        destruct (collect (fun p => Some (placeId p)) pwd) as [|i ids] eqn:Ec;
          [now elim Hids|].
        cbn [List.length Nat.eqb]. apply filter_In. split.
        - unfold leadsOf in Hw1. now rewrite Hw1.
        - rewrite Hpid. unfold inArray. apply existsb_exists.
          exists (placeId place). split; [exact Hids | apply String.eqb_refl]. }
      cbv zeta. fold pwd. fold existing.
      apply (quietFrom_bind (fun w' => w' = w1) (allKnown pwd)
               (modify (fun w2 => fold_left markKnown existing w2))); [| | |reflexivity].
      + intros w' ->. split; [now exists tt|].
        split; [apply sameStore_markKnown | apply keepsKnown_markKnown].
      + intros w' ->. exact Hknown.
      + intros _. apply quietFrom_known.
        * apply (quietFrom_weaken _ anyWorld); [easy|].
          destruct (0 <? _)%nat; [apply quiet_logEvent | apply quiet_ret].
        * intros _. apply quietFrom_known; [apply processPlaces_allKnown|].
          intros q. apply (quietFrom_weaken _ anyWorld); [easy | apply quiet_summarize]. }
  destruct (Hq w0) as ((r & Hr) & Hs & _); [apply Hw0|].
  destruct (tail w0) as [res w1]. cbn [fst snd] in *. subst res.
  split; [now exists r | exact (sameStore_trans _ _ _ Hw0 Hs)].
Qed.

End Duplicates.

(** ** Examples of the properties above *)

Section Witnesses.
Import JS Tools Storage Loop Normalize.

Lemma normalizeDomain_output_is_canonical_witness :
  normalizeDomain unmodelled (Some "HTTPS://WWW.Acme.COM/About") = Some "acme.com"
  /\ "acme.com" <> "" /\ "acme.com" <> "localhost" /\ toLowerCase "acme.com" = "acme.com".
Proof.
  split; [reflexivity|].
  exact (normalizeDomain_output_is_canonical unmodelled (Some "HTTPS://WWW.Acme.COM/About")
           "acme.com" eq_refl).
Defined.

Lemma normalizeDomain_strips_scheme_www_and_path_witness :
  plainHost "acme.com" = true /\ urlTail "/contact?x=1#top" = true
  /\ normalizeDomain unmodelled (Some ("http://" ++ "www." ++ "acme.com" ++ "/contact?x=1#top"))
     = Some "acme.com".
Proof.
  split; [reflexivity|]. split; [reflexivity|].
  apply (normalizeDomain_strips_scheme_www_and_path unmodelled "http://" "www." "acme.com"
           "/contact?x=1#top").
  - cbn. tauto.
  - cbn. tauto.
  - reflexivity.
  - discriminate.
  - discriminate.
  - reflexivity.
Defined.

Lemma scoreLead_qualified_needs_contact_witness :
  (75 <= total (scoreLead "Smile One" noWebsiteAudit
                  (mkContactInfo (Some "619-555-0001") None (Some "https://one.example"))
                  "dentist"))%Z
  /\ truthy (Some "619-555-0001") || truthy None || truthy (Some "https://one.example") = true.
Proof.
  assert (H : (75 <= total (scoreLead "Smile One" noWebsiteAudit
                  (mkContactInfo (Some "619-555-0001") None (Some "https://one.example"))
                  "dentist"))%Z) by (vm_compute; discriminate).
  split; [exact H|].
  exact (scoreLead_qualified_needs_contact "Smile One" noWebsiteAudit
           (mkContactInfo (Some "619-555-0001") None (Some "https://one.example"))
           "dentist" H).
Defined.

Lemma scoreLead_without_site_not_qualified_witness :
  cmsRecognised noWebsiteAudit = false
  /\ (total (scoreLead "Smile One" noWebsiteAudit (phoneOnly "619-555-0001") "dentist") <= 73)%Z.
Proof.
  split; [reflexivity|].
  exact (scoreLead_without_site_not_qualified "Smile One" noWebsiteAudit
           (phoneOnly "619-555-0001") "dentist" eq_refl eq_refl eq_refl).
Defined.

Lemma findExistingLead_returns_stored_lead_witness :
  let c := {| Criteria.placeId := Some "p2"; Criteria.domain := None; Criteria.phone := None;
              Criteria.name := Some "Smile Two"; Criteria.city := None |} in
  findExistingLead unmodelled c (leads knownDentists) = Some (storedWithPlace 1 "Smile Two" "p2")
  /\ In (storedWithPlace 1 "Smile Two" "p2") (leads knownDentists).
Proof.
  cbv zeta. split; [reflexivity|].
  exact (findExistingLead_returns_stored_lead unmodelled
           {| Criteria.placeId := Some "p2"; Criteria.domain := None; Criteria.phone := None;
              Criteria.name := Some "Smile Two"; Criteria.city := None |}
           (leads knownDentists) (storedWithPlace 1 "Smile Two" "p2") eq_refl).
Defined.

Lemma upsertLead_touches_one_row_witness :
  let il := candidate "Smile Three" (Some "p3") None (Some "619-555-0003") None in
  exists r db',
    upsertLead unmodelled il 1000 knownDentists = (Returns r, db')
    /\ List.length (leads db') = (List.length (leads knownDentists) + if isNew r then 1 else 0)%nat
    /\ otherLeads (Lead.id (lead r)) (leads db')
       = otherLeads (Lead.id (lead r)) (leads knownDentists)
    /\ leadMetrics db' = leadMetrics knownDentists /\ scores db' = scores knownDentists
    /\ missionEvents db' = missionEvents knownDentists.
Proof.
  cbv zeta. eexists. eexists. split; [vm_compute; reflexivity|].
  apply (upsertLead_touches_one_row unmodelled
           (candidate "Smile Three" (Some "p3") None (Some "619-555-0003") None)
           1000 knownDentists).
  vm_compute. reflexivity.
Defined.

Lemma upsertLead_then_getLeadById_witness :
  let il := candidate "Smile One" (Some "p1") None (Some "619-555-0001") None in
  exists r db',
    idsBelow knownDentists = true
    /\ upsertLead unmodelled il 1000 knownDentists = (Returns r, db')
    /\ getLeadById (Lead.id (lead r)) db' = Some (lead r) /\ idsBelow db' = true.
Proof.
  cbv zeta. eexists. eexists. split; [reflexivity|]. split; [vm_compute; reflexivity|].
  apply (upsertLead_then_getLeadById unmodelled
           (candidate "Smile One" (Some "p1") None (Some "619-555-0001") None)
           1000 knownDentists).
  - reflexivity.
  - vm_compute. reflexivity.
Defined.

Lemma upsertScore_then_getScore_witness :
  let sc := {| Score.leadId := 1; Score.need := 50%Z; Score.value := 50%Z;
               Score.reachability := 40%Z; Score.total := 47%Z; Score.reasons := [] |} in
  getLeadById 1 knownDentists <> None
  /\ getScore 1 (upsertScore sc knownDentists) = Some sc
  /\ getScore 0 (upsertScore sc knownDentists) = getScore 0 knownDentists.
Proof.
  cbv zeta.
  assert (H : getLeadById 1 knownDentists <> None) by (vm_compute; discriminate).
  split; [exact H|]. split.
  - exact (upsertScore_then_getScore
             {| Score.leadId := 1; Score.need := 50%Z; Score.value := 50%Z;
                Score.reachability := 40%Z; Score.total := 47%Z; Score.reasons := [] |}
             knownDentists 1 H).
  - reflexivity.
Defined.

Lemma getLeadsByFilters_sound_witness :
  In (storedWithPlace 0 "Smile One" "p1") (getLeadsByFilters (scoreAtLeast 75) knownDentists)
  /\ exists sc, getScore 0 knownDentists = Some sc /\ (75 <= Score.total sc)%Z.
Proof.
  assert (H : In (storedWithPlace 0 "Smile One" "p1")
                (getLeadsByFilters (scoreAtLeast 75) knownDentists)) by (vm_compute; tauto).
  split; [exact H|].
  destruct (getLeadsByFilters_sound (scoreAtLeast 75) knownDentists
              (storedWithPlace 0 "Smile One" "p1") H) as (_ & Hmin & _).
  exact (Hmin 75%Z eq_refl).
Defined.

Lemma saveLead_can_be_read_back_witness :
  let data := saveOf (dentist "p9" "Smile Nine") (phoneOnly "619-555-0009") in
  let w := newAgent (sampleConfig "0123456789abcdef") "m1" knownDentists in
  exists w' id isNew,
    idsBelow (database w) = true
    /\ saveLead unmodelled clockZero data w = (Returns (id, isNew), w')
    /\ getScore id (database w') = Some (scoreRow id (dataScore data))
    /\ idsBelow (database w') = true.
Proof.
  cbv zeta. eexists. eexists. eexists. split; [reflexivity|].
  split; [vm_compute; reflexivity|].
  destruct (saveLead_can_be_read_back unmodelled clockZero
              (saveOf (dentist "p9" "Smile Nine") (phoneOnly "619-555-0009"))
              (newAgent (sampleConfig "0123456789abcdef") "m1" knownDentists)
              _ _ _ eq_refl ltac:(vm_compute; reflexivity)) as (_ & Hscore & _ & Hids).
  split; [exact Hscore | exact Hids].
Defined.

Lemma mission_result_is_consistent_witness :
  exists r w',
    executeMission unmodelled twoDentists phoneAndSite abortedSite clockZero
      (sampleGoal (Some 1%Z) (Some 0%Z))
      (newAgent (sampleConfig "0123456789abcdef") "m1" emptyDatabase) = (Returns r, w')
    /\ leadsSaved r = (qualifiedCount r + junkCount r)%nat
    /\ (qualifiedCount r <= 1)%nat.
Proof.
  eexists. eexists. split; [vm_compute; reflexivity|].
  destruct (mission_result_is_consistent unmodelled twoDentists phoneAndSite abortedSite
              clockZero (sampleConfig "0123456789abcdef") "m1" emptyDatabase
              (sampleGoal (Some 1%Z) (Some 0%Z)) _ _ ltac:(vm_compute; reflexivity))
    as (Hsum & Hq & _).
  split; [exact Hsum | exact Hq].
Defined.

Lemma failed_search_is_rethrown_witness :
  let w := newAgent (sampleConfig "0123456789abcdef") "m1" emptyDatabase in
  let goal := sampleGoal None None in
  searchPlaces deniedPlaces (query goal) (location goal) (placesApiKey (config w))
  = Throws "Google Places API REQUEST_DENIED: The provided API key is invalid."
  /\ exists diagnostics,
       executeMission unmodelled deniedPlaces noDetails abortedSite clockZero goal w
       = (Throws "Google Places API REQUEST_DENIED: The provided API key is invalid.",
          withEvents (openingEvents goal w ++ diagnostics) w)
       /\ diagnostics <> []
       /\ Forall (fun e => MissionEvent.eventType e = "error") diagnostics.
Proof.
  cbv zeta. split; [reflexivity|].
  exact (failed_search_is_rethrown unmodelled deniedPlaces noDetails abortedSite clockZero
           (sampleGoal None None)
           (newAgent (sampleConfig "0123456789abcdef") "m1" emptyDatabase) _ eq_refl).
Defined.

Lemma empty_search_saves_nothing_witness :
  let w := newAgent (sampleConfig "0123456789abcdef") "m1" emptyDatabase in
  let goal := sampleGoal None None in
  searchPlaces noPlaces (query goal) (location goal) (placesApiKey (config w)) = Returns []
  /\ executeMission unmodelled noPlaces noDetails abortedSite clockZero goal w
     = (Returns (summaryOf 0 "No businesses found" (savedLeads w)),
        withEvents
          (openingEvents goal w
           ++ [eventOf w "warning" "No businesses found matching your criteria" None]) w).
Proof.
  cbv zeta. split; [reflexivity|].
  exact (empty_search_saves_nothing unmodelled noPlaces noDetails abortedSite clockZero
           (sampleGoal None None)
           (newAgent (sampleConfig "0123456789abcdef") "m1" emptyDatabase) eq_refl).
Defined.

Lemma stored_places_are_skipped_witness :
  let w := newAgent (sampleConfig "0123456789abcdef") "m1" knownDentists in
  let goal := sampleGoal None (Some 0%Z) in
  let run := executeMission unmodelled twoDentists phoneAndSite abortedSite clockZero goal w in
  Forall (storedPlace (database w))
         (firstn 15 [dentist "p1" "Smile One"; dentist "p2" "Smile Two"])
  /\ (exists r, fst run = Returns r) /\ sameStore w (snd run).
Proof.
  cbv zeta.
  assert (H : Forall (storedPlace
                        (database (newAgent (sampleConfig "0123456789abcdef") "m1"
                                     knownDentists)))
                (firstn 15 [dentist "p1" "Smile One"; dentist "p2" "Smile Two"])).
  { cbn [firstn]. repeat constructor; try discriminate.
    - exists (storedWithPlace 0 "Smile One" "p1"). split; [now left | reflexivity].
    - exists (storedWithPlace 1 "Smile Two" "p2"). split; [right; now left | reflexivity]. }
  split; [exact H|].
  exact (stored_places_are_skipped unmodelled twoDentists phoneAndSite abortedSite clockZero
           (sampleGoal None (Some 0%Z))
           (newAgent (sampleConfig "0123456789abcdef") "m1" knownDentists)
           [dentist "p1" "Smile One"; dentist "p2" "Smile Two"] eq_refl H).
Defined.

End Witnesses.
